(** * portracker: router integration client and credential codec

    A shallow embedding of

    - [backend/lib/openwrt-api.js], current revision: the SSH+UCI driver
      [SshUciClient], the JSON-RPC driver [OpenWrtRpcClient] and the unified
      [OpenWrtClient] (module [OpenWrt]);
    - [backend/lib/openwrt-api.js], earlier RPC-only revision: the Luci
      JSON-RPC [OpenWrtClient] (module [LuciRpc]);
    - [backend/lib/router-encryption.js] (module [RouterEncryption]).

    JavaScript strings that travel to the router are modelled as [string]:
    one [ascii] per UTF-16 code unit, for code units below 256.  Numbers
    that the code only ever uses as integers are [Z].  An [async] method is
    a function from the object and the log of the remote calls issued so far
    to a result (returned or thrown), the object and the log after it; the
    router answers each call through an oracle that may depend on the whole
    log (module [Remote]).

    [SpecWords] fixes the reading of the words of the specification that
    the code has no name for, [Scenarios] holds the concrete routers,
    clients and cipher parameters that the properties are evaluated on,
    [Observations] names what the further properties of the code speak of
    (the language of a pattern, a sequence of commands that stops at its
    first failure, an accepted login), and the properties follow, grouped
    by component. *)

From Stdlib Require Import ZArith List String Ascii Bool Lia DecimalString
  DecimalPos.
Import ListNotations.

#[global] Set Warnings "-register-all".

Local Open Scope string_scope.
Local Open Scope list_scope.
Local Open Scope Z_scope.

Infix "+++" := String.append (right associativity, at level 60).

(** ** JavaScript string primitives *)

Module Js.

Definition code (c : ascii) : Z := Z.of_N (N_of_ascii c).
Definition chr (z : Z) : ascii := ascii_of_N (Z.to_N z).

Definition in_range (lo hi c : ascii) : bool :=
  (code lo <=? code c) && (code c <=? code hi).

Definition is_digit (c : ascii) : bool := in_range "0" "9" c.

Definition str1 (c : ascii) : string := String c EmptyString.

(** [String(n)] / template rendering of an integer number. *)
Definition string_of_Z (z : Z) : string := NilZero.string_of_int (Z.to_int z).

Definition is_empty (s : string) : bool :=
  match s with EmptyString => true | _ => false end.

(** [a || b] on strings: the empty string is falsy. *)
Definition or_else (a b : string) : string := if is_empty a then b else a.

(** [a || b] where [a] may be [undefined]. *)
Definition opt_or_else (a : option string) (b : string) : string :=
  match a with Some s => or_else s b | None => b end.

Fixpoint drop (n : nat) (s : string) : string :=
  match n, s with
  | O, _ => s
  | S k, EmptyString => EmptyString
  | S k, String _ t => drop k t
  end.

Fixpoint take (n : nat) (s : string) : string :=
  match n, s with
  | O, _ => EmptyString
  | S k, EmptyString => EmptyString
  | S k, String c t => String c (take k t)
  end.

(** [s.substring(0, n)] *)
Definition substring0 (n : nat) (s : string) : string := take n s.

(** [s.indexOf(sub)] *)
Fixpoint index_of (sub s : string) : option nat :=
  if String.prefix sub s then Some O
  else match s with
       | EmptyString => None
       | String _ t => option_map S (index_of sub t)
       end.

(** [s.includes(sub)] *)
Definition includes (sub s : string) : bool :=
  match index_of sub s with Some _ => true | None => false end.

(** [s.split(sep)] for a non-empty separator: [skip] counts the characters
    of a separator occurrence still to be stepped over, [cur] is the piece
    being collected. *)
Fixpoint split_go (sep : string) (skip : nat) (cur s : string) : list string :=
  match s with
  | EmptyString => [cur]
  | String c t =>
      match skip with
      | S k => split_go sep k cur t
      | O =>
          if String.prefix sep s
          then cur :: split_go sep (String.length sep - 1) EmptyString t
          else split_go sep O (cur +++ str1 c) t
      end
  end.

Definition split (sep s : string) : list string := split_go sep O EmptyString s.

(** [arr[i]] rendered into a string position: [undefined] is [None]. *)
Definition item (i : nat) (l : list string) : option string := nth_error l i.

(** [s.replace(pat, by)] with a string pattern: the first occurrence only. *)
Definition replace_first (pat by_ s : string) : string :=
  match index_of pat s with
  | Some i => take i s +++ by_ +++ drop (i + String.length pat) s
  | None => s
  end.

Definition map_chars (f : ascii -> ascii) : string -> string :=
  fix go s := match s with
              | EmptyString => EmptyString
              | String c t => String (f c) (go t)
              end.

(** [toLowerCase] on one code unit below 256: A-Z, and the Latin-1 capitals
    U+00C0..U+00DE except the multiplication sign U+00D7. *)
Definition lower_char (c : ascii) : ascii :=
  let n := code c in
  if ((65 <=? n) && (n <=? 90))
     || ((192 <=? n) && (n <=? 222) && negb (n =? 215))
  then chr (n + 32) else c.

Definition toLowerCase : string -> string := map_chars lower_char.

(** White space of [String.prototype.trim] among code units below 256. *)
Definition is_space (c : ascii) : bool :=
  let n := code c in
  ((9 <=? n) && (n <=? 13)) || (n =? 32) || (n =? 160).

Fixpoint trim_start (s : string) : string :=
  match s with
  | String c t => if is_space c then trim_start t else s
  | EmptyString => s
  end.

(** Drops trailing white space: a character is kept when it is not white
    space or when something remains after it. *)
Fixpoint trim_end (s : string) : string :=
  match s with
  | EmptyString => EmptyString
  | String c t =>
      let t' := trim_end t in
      if is_space c && is_empty t' then EmptyString else String c t'
  end.

Definition trim (s : string) : string := trim_end (trim_start s).

Fixpoint take_while (p : ascii -> bool) (s : string) : string :=
  match s with
  | String c t => if p c then String c (take_while p t) else EmptyString
  | EmptyString => EmptyString
  end.

(** Value of a run of decimal digits, most significant first. *)
Definition digits_value (s : string) : Z :=
  (fix go (acc : Z) (s : string) : Z :=
     match s with
     | EmptyString => acc
     | String c t => go (10 * acc + (code c - 48)) t
     end) 0 s.

Definition hex_digit_value (c : ascii) : option Z :=
  if is_digit c then Some (code c - 48)
  else if in_range "a" "f" c then Some (code c - 87)
  else if in_range "A" "F" c then Some (code c - 55)
  else None.

Fixpoint hex_run (acc : Z) (seen : bool) (s : string) : option Z :=
  match s with
  | EmptyString => if seen then Some acc else None
  | String c t =>
      match hex_digit_value c with
      | Some d => hex_run (16 * acc + d) true t
      | None => if seen then Some acc else None
      end
  end.

(** [parseInt(s, 10)]: leading white space, an optional sign, then the
    longest run of decimal digits; [None] is NaN.  (Values are exact below
    2^53, the range of integers a JavaScript number holds exactly.) *)
Definition parseInt10 (s : string) : option Z :=
  let s := trim_start s in
  let '(sign, body) :=
    match s with
    | String "-" t => (-1, t)
    | String "+" t => (1, t)
    | _ => (1, s)
    end in
  let ds := take_while is_digit body in
  if is_empty ds then None else Some (sign * digits_value ds).

(** [parseInt(s)] without a radix: as [parseInt10], except that a [0x] or
    [0X] prefix after the sign selects base 16. *)
Definition parseInt (s : string) : option Z :=
  let s := trim_start s in
  let '(sign, body) :=
    match s with
    | String "-" t => (-1, t)
    | String "+" t => (1, t)
    | _ => (1, s)
    end in
  match body with
  | String "0" (String x t) =>
      if (code x =? 120) || (code x =? 88)
      then option_map (Z.mul sign) (hex_run 0 false t)
      else let ds := take_while is_digit body in
           if is_empty ds then None else Some (sign * digits_value ds)
  | _ =>
      let ds := take_while is_digit body in
      if is_empty ds then None else Some (sign * digits_value ds)
  end.

(** [parseInt(s) || 0]: NaN and 0 are falsy. *)
Definition parseInt_or_0 (s : string) : Z :=
  match parseInt s with Some z => z | None => 0 end.

End Js.

(** ** Regular expressions

    The anchored pattern of [isValidIpAddress] is kept as a regular
    expression and matched with derivatives. *)

Module Regex.

Inductive re : Type :=
| Void : re
| Eps : re
| Class : (ascii -> bool) -> re
| Cat : re -> re -> re
| Alt : re -> re -> re
| Star : re -> re.

Definition Opt (r : re) : re := Alt r Eps.
Definition Lit (c : ascii) : re := Class (Ascii.eqb c).
Definition Range (lo hi : ascii) : re := Class (Js.in_range lo hi).

Fixpoint Times (n : nat) (r : re) : re :=
  match n with
  | O => Eps
  | S k => Cat r (Times k r)
  end.

Fixpoint nullable (r : re) : bool :=
  match r with
  | Void => false
  | Eps => true
  | Class _ => false
  | Cat a b => nullable a && nullable b
  | Alt a b => nullable a || nullable b
  | Star _ => true
  end.

Fixpoint deriv (c : ascii) (r : re) : re :=
  match r with
  | Void => Void
  | Eps => Void
  | Class p => if p c then Eps else Void
  | Cat a b =>
      if nullable a then Alt (Cat (deriv c a) b) (deriv c b)
      else Cat (deriv c a) b
  | Alt a b => Alt (deriv c a) (deriv c b)
  | Star a => Cat (deriv c a) (Star a)
  end.

(** [/^r$/.test(s)] *)
Fixpoint test_anchored (r : re) (s : string) : bool :=
  match s with
  | EmptyString => nullable r
  | String c t => test_anchored (deriv c r) t
  end.

End Regex.

(** ** Remote I/O: JSON values, errors, the call log and the router oracle *)

Module Remote.

(** JavaScript values as far as the clients meet them: what [JSON.parse]
    gives (numbers are kept to the integers), and [undefined]. *)
Inductive json : Type :=
| JUndefined : json
| JNull : json
| JBool : bool -> json
| JNum : Z -> json
| JStr : string -> json
| JArr : list json -> json
| JObj : list (string * json) -> json.

(** A thrown [Error]: its [message] and, for transport errors, its [code]. *)
Record error : Type := mkError { message : string; err_code : option string }.

Definition Error (msg : string) : error := mkError msg None.

Inductive result (A : Type) : Type :=
| Ok : A -> result A
| Throw : error -> result A.
Arguments Ok {A} _.
Arguments Throw {A} _.

Definition is_ok {A} (r : result A) : bool :=
  match r with Ok _ => true | Throw _ => false end.

(** JavaScript truthiness. *)
Definition truthy (v : json) : bool :=
  match v with
  | JUndefined | JNull => false
  | JBool b => b
  | JNum z => negb (z =? 0)
  | JStr s => negb (Js.is_empty s)
  | JArr _ | JObj _ => true
  end.

Fixpoint lookup (k : string) (fields : list (string * json)) : json :=
  match fields with
  | [] => JUndefined
  | (k', v) :: rest => if String.eqb k k' then v else lookup k rest
  end.

(** Property read [v.k] / [v[k]]: a TypeError on [null] and [undefined],
    [undefined] for a property that is not there.  Objects are given with
    distinct keys, as [JSON.parse] produces them; of arrays and strings
    only the indices are modelled, the clients read no other property of
    them. *)
Definition get (v : json) (k : string) : result json :=
  match v with
  | JUndefined =>
      Throw (Error ("Cannot read properties of undefined (reading '" +++ k +++ "')"))
  | JNull =>
      Throw (Error ("Cannot read properties of null (reading '" +++ k +++ "')"))
  | JObj fields => Ok (lookup k fields)
  | JArr items =>
      Ok (match Js.parseInt10 k with
          | Some i =>
              if (0 <=? i) && String.eqb (Js.string_of_Z i) k
              then nth (Z.to_nat i) items JUndefined else JUndefined
          | None => JUndefined
          end)
  | JStr s =>
      Ok (match Js.parseInt10 k with
          | Some i =>
              if (0 <=? i) && String.eqb (Js.string_of_Z i) k
              then match String.get (Z.to_nat i) s with
                   | Some c => JStr (Js.str1 c)
                   | None => JUndefined
                   end
              else JUndefined
          | None => JUndefined
          end)
  | JBool _ | JNum _ => Ok JUndefined
  end.

(** [v === 'lit'] *)
Definition is_string (lit : string) (v : json) : bool :=
  match v with JStr s => String.eqb s lit | _ => false end.

Fixpoint join (sep : string) (l : list string) : string :=
  match l with
  | [] => EmptyString
  | [x] => x
  | x :: rest => x +++ sep +++ join sep rest
  end.

(** [String(v)], as a template literal renders a value. *)
Fixpoint render (v : json) : string :=
  match v with
  | JUndefined => "undefined"
  | JNull => "null"
  | JBool true => "true"
  | JBool false => "false"
  | JNum z => Js.string_of_Z z
  | JStr s => s
  | JArr items =>
      join ","
        (map (fun x => match x with
                       | JUndefined | JNull => EmptyString
                       | _ => render x
                       end) items)
  | JObj _ => "[object Object]"
  end.

(** Where an SSH session goes and with which credentials. *)
Record ssh_target : Type := mkTarget {
  t_host : string;
  t_port : Z;
  t_username : string;
  t_password : option string;
  t_timeout : Z
}.

Record http_request : Type := mkRequest {
  rq_url : string;
  rq_headers : list (string * string);
  rq_body : json;
  rq_timeout : option Z
}.

Inductive call : Type :=
| SshExec : ssh_target -> string -> call
| HttpPost : http_request -> call.

(** What an SSH exec can come to: a connection-level error (connect,
    authentication, channel open), or the command stream closing with an
    exit status ([None] when the command was killed by a signal). *)
Inductive exec_outcome : Type :=
| ConnError : error -> exec_outcome
| StreamClosed : option Z -> string -> string -> exec_outcome.

(** What a [fetch] can come to: a network-level rejection, or a response
    with a status, a status text and what [response.json()] gives for its
    body (the parsed value, or the parse error). *)
Inductive http_outcome : Type :=
| FetchError : error -> http_outcome
| Response : Z -> string -> result json -> http_outcome.

Inductive outcome : Type :=
| OExec : exec_outcome -> outcome
| OHttp : http_outcome -> outcome.

Record event : Type := mkEvent { ev_call : call; ev_outcome : outcome }.

Definition log : Type := list event.

(** The router and the network, as seen by the client: the answer to a call
    may depend on every call issued before.  [w_random] stands for the
    successive values of [Math.floor(Math.random() * 10000)]. *)
Record world : Type := mkWorld {
  w_exec : log -> ssh_target -> string -> exec_outcome;
  w_post : log -> http_request -> http_outcome;
  w_random : log -> Z
}.

Definition is_ssh (e : event) : bool :=
  match ev_call e with SshExec _ _ => true | HttpPost _ => false end.

Definition is_http (e : event) : bool := negb (is_ssh e).

(** An exec that resolves: the command ran and exited with status 0. *)
Definition exec_succeeds (o : exec_outcome) : bool :=
  match o with
  | StreamClosed (Some 0) _ _ => true
  | _ => false
  end.

(** [response.ok] *)
Definition status_ok (status : Z) : bool := (200 <=? status) && (status <=? 299).

(** An async method over an object of type [S]: it may change the object,
    append to the call log, and return or throw.  A throw keeps the changes
    made so far. *)
Definition M (S A : Type) : Type := S -> log -> result A * S * log.

Definition ret {S A} (a : A) : M S A := fun s l => (Ok a, s, l).

Definition throw {S A} (e : error) : M S A := fun s l => (Throw e, s, l).

Definition bind {S A B} (m : M S A) (k : A -> M S B) : M S B :=
  fun s l =>
    match m s l with
    | (Ok a, s', l') => k a s' l'
    | (Throw e, s', l') => (Throw e, s', l')
    end.

Definition try_catch {S A} (m : M S A) (handler : error -> M S A) : M S A :=
  fun s l =>
    match m s l with
    | (Ok a, s', l') => (Ok a, s', l')
    | (Throw e, s', l') => handler e s' l'
    end.

Definition this {S} : M S S := fun s l => (Ok s, s, l).

Definition assign {S} (f : S -> S) : M S unit := fun s l => (Ok tt, f s, l).

Definition lift_result {S A} (r : result A) : M S A :=
  match r with Ok a => ret a | Throw e => throw e end.

Definition value {S A} (x : result A * S * log) : result A := fst (fst x).
Definition object {S A} (x : result A * S * log) : S := snd (fst x).
Definition calls {S A} (x : result A * S * log) : log := snd x.

End Remote.

Declare Scope js_scope.
Delimit Scope js_scope with js.
Notation "'let*' x := m 'in' k" := (Remote.bind m (fun x => k))
  (at level 10, x pattern, m at level 100, k at level 200) : js_scope.
Notation "m ;; k" := (Remote.bind m (fun _ => k))
  (at level 100, k at level 200, right associativity) : js_scope.

(** ** openwrt-api.js, current revision: SSH+UCI and JSON-RPC *)

Module OpenWrt.
Import Remote.

Definition DEFAULT_RPC_PATH : string := "/cgi-bin/luci/rpc".
Definition DEFAULT_TIMEOUT : Z := 10000.

(** A number [n || d]: 0 is falsy. *)
Definition num_or (n d : Z) : Z := if n =? 0 then d else n.

(** *** parseRouterUrl *)

Record parsed_url : Type := mkParsed {
  p_hostname : string;
  p_port : Z;
  p_baseUrl : string
}.

(** [s.match(/:(\d+)/)]: the capture of the first colon that is followed by
    a digit, with all the digits that follow it. *)
Fixpoint match_port (s : string) : option string :=
  match s with
  | EmptyString => None
  | String c t =>
      if Ascii.eqb c ":" && negb (Js.is_empty (Js.take_while Js.is_digit t))
      then Some (Js.take_while Js.is_digit t)
      else match_port t
  end.

(** [s.split(sep)[i]]; [None] is [undefined]. *)
Definition piece (sep : string) (i : nat) (s : string) : option string :=
  Js.item i (Js.split sep s).

(** The pieces read below are always there: a split has a piece 0, and a
    piece 1 as soon as the separator occurs. *)
Definition parseRouterUrl (url : string) : parsed_url :=
  let '(hostname, port) :=
    if Js.includes "://" url then
      let withoutProtocol :=
        match piece "://" 1 url with Some s => s | None => EmptyString end in
      match match_port withoutProtocol with
      | Some digits =>
          (match piece ":" 0 withoutProtocol with Some h => h | None => EmptyString end,
           match Js.parseInt10 digits with Some n => n | None => 0 end)
      | None =>
          (match piece "/" 0 withoutProtocol with Some h => h | None => EmptyString end,
           22)
      end
    else
      match match_port url with
      | Some digits =>
          (match piece ":" 0 url with Some h => h | None => EmptyString end,
           match Js.parseInt10 digits with Some n => n | None => 0 end)
      | None => (url, 22)
      end in
  mkParsed hostname port ("http://" +++ hostname +++ ":" +++ Js.string_of_Z port).

(** *** generateUciName *)

Definition is_uci_char (c : ascii) : bool :=
  Js.in_range "a" "z" c || Js.in_range "0" "9" c || Ascii.eqb c "_".

(** [.replace(/[^a-z0-9_]/g, '_')] *)
Definition replace_non_uci : string -> string :=
  Js.map_chars (fun c => if is_uci_char c then c else "_"%char).

Definition generateUciName (name : string) : string :=
  Js.substring0 32 (replace_non_uci (Js.toLowerCase name)).

(** *** isValidIpAddress, isValidPort *)

(** [25[0-5]|2[0-4][0-9]|[01]?[0-9][0-9]?] *)
Definition octet : Regex.re :=
  Regex.Alt
    (Regex.Cat (Regex.Lit "2") (Regex.Cat (Regex.Lit "5") (Regex.Range "0" "5")))
    (Regex.Alt
       (Regex.Cat (Regex.Lit "2")
          (Regex.Cat (Regex.Range "0" "4") (Regex.Range "0" "9")))
       (Regex.Cat (Regex.Opt (Regex.Range "0" "1"))
          (Regex.Cat (Regex.Range "0" "9") (Regex.Opt (Regex.Range "0" "9"))))).

(** [^(?:octet\.){3}octet$] *)
Definition ipv4Regex : Regex.re :=
  Regex.Cat (Regex.Times 3 (Regex.Cat octet (Regex.Lit "."))) octet.

Definition isValidIpAddress (ip : string) : bool :=
  Regex.test_anchored ipv4Regex ip.

(** A port as the caller hands it over: an integer number, or any other
    value, of which only the rendering matters. *)
Inductive port_value : Type :=
| PInt : Z -> port_value
| PNotInteger : string -> port_value.

Definition render_port (p : port_value) : string :=
  match p with
  | PInt z => Js.string_of_Z z
  | PNotInteger shown => shown
  end.

Definition isValidPort (port : port_value) : bool :=
  match port with
  | PInt z => (1 <=? z) && (z <=? 65535)
  | PNotInteger _ => false
  end.

(** *** SshUciClient *)

Record SshUciClient : Type := mkSsh {
  ssh_hostname : string;
  ssh_port : Z;
  ssh_username : string;
  ssh_password : option string;
  ssh_timeout : Z
}.

Record ssh_config : Type := mkSshConfig {
  sc_hostname : string;
  sc_port : Z;
  sc_username : option string;
  sc_password : option string;
  sc_timeout : Z
}.

Definition new_SshUciClient (config : ssh_config) : SshUciClient :=
  mkSsh (Js.or_else (sc_hostname config) "192.168.1.1")
        (num_or (sc_port config) 22)
        (Js.opt_or_else (sc_username config) "root")
        (sc_password config)
        (num_or (sc_timeout config) 15000).

Definition connect_options (c : SshUciClient) : ssh_target :=
  mkTarget (ssh_hostname c) (ssh_port c) (ssh_username c) (ssh_password c)
           (ssh_timeout c).

(** A rule as [getRedirects] reports it. *)
Record redirect : Type := mkRedirect {
  r_id : string;
  r_name : string;
  r_target : string;
  r_src : string;
  r_dest : string;
  r_protocol : string;
  r_external_port : Z;
  r_internal_ip : string;
  r_internal_port : Z;
  r_enabled : bool
}.

(** The configuration object handed to [addRedirect] / [addPortForwarding]. *)
Record forwarding_config : Type := mkForwarding {
  f_name : option string;
  f_protocol : option string;
  f_externalPort : port_value;
  f_internalIp : string;
  f_internalPort : port_value
}.

Record add_result : Type := mkAdded { a_success : bool; a_id : string }.

Record connection_report : Type := mkReport {
  success : bool;
  report_message : string;
  version : option string;
  report_code : option string;
  mode : option string;
  requiresPlugins : option bool;
  hint : option string
}.

(** [line.match(/firewall\.([^=]+)=redirect/)]: at the first position where
    it applies, ["firewall."], then the characters up to the next [=] (at
    least one), then ["=redirect"]; the capture is that run. *)
Fixpoint match_redirect (line : string) : option string :=
  let here :=
    if String.prefix "firewall." line then
      let rest := Js.drop 9 line in
      let run := Js.take_while (fun c => negb (Ascii.eqb c "=")) rest in
      if negb (Js.is_empty run)
         && String.prefix "=redirect" (Js.drop (String.length run) rest)
      then Some run else None
    else None in
  match here with
  | Some run => Some run
  | None =>
      match line with
      | EmptyString => None
      | String _ t => match_redirect t
      end
  end.

Definition render_exit (code : option Z) : string :=
  match code with Some z => Js.string_of_Z z | None => "null" end.

Module Ssh.
Section Methods.

Variable W : world.
Context {S : Type}.

(** The entry an exec leaves in the call log. *)
Definition exec_event (c : SshUciClient) (command : string) (l : log) : event :=
  mkEvent (SshExec (connect_options c) command)
          (OExec (w_exec W l (connect_options c) command)).

(** [exec(command)]: one connection, one command.  Resolves with the
    trimmed standard output when the exit status is 0; rejects with the
    connection error, or with the exit status and standard error. *)
Definition exec (c : SshUciClient) (command : string) : M S string :=
  fun s l =>
    let answer := w_exec W l (connect_options c) command in
    let l' := l ++ [exec_event c command l] in
    match answer with
    | ConnError e => (Throw e, s, l')
    | StreamClosed code stdout stderr =>
        match code with
        | Some 0 => (Ok (Js.trim stdout), s, l')
        | _ =>
            (Throw (Error ("Command exited with code " +++ render_exit code
                           +++ ": " +++ stderr)), s, l')
        end
    end.

Definition uci (c : SshUciClient) (command : string) : M S string :=
  exec c ("uci " +++ command).

Definition uci_get (uciName option : string) : string :=
  "uci get firewall." +++ uciName +++ "." +++ option +++ " 2>/dev/null".

(** The body of the loop of [getRedirects] for one line. *)
Definition read_line (c : SshUciClient) (rules : list redirect) (line : string)
  : M S (list redirect) :=
  match match_redirect line with
  | Some uciName =>
      (let* name := exec c (uci_get uciName "name") in
       let* target := exec c (uci_get uciName "target") in
       let* src := exec c (uci_get uciName "src") in
       let* dest := exec c (uci_get uciName "dest") in
       let* proto := exec c (uci_get uciName "proto") in
       let* srcPort := exec c (uci_get uciName "src_dport") in
       let* destIp := exec c (uci_get uciName "dest_ip") in
       let* destPort := exec c (uci_get uciName "dest_port") in
       let* enabled := exec c (uci_get uciName "enabled") in
       ret (rules ++
            [mkRedirect uciName
               (Js.or_else name
                  ("Redirect " +++
                   Js.replace_first "]" ""
                     (Js.replace_first "@redirect[" "" uciName)))
               target src dest
               (Js.or_else proto "tcp")
               (Js.parseInt_or_0 srcPort)
               (Js.or_else destIp "")
               (Js.parseInt_or_0 destPort)
               (negb (String.eqb enabled "0"))]))%js
  | None => ret rules
  end.

Fixpoint read_lines (c : SshUciClient) (rules : list redirect)
  (lines : list string) : M S (list redirect) :=
  match lines with
  | [] => ret rules
  | line :: rest =>
      (let* rules' := read_line c rules line in read_lines c rules' rest)%js
  end.

(** The [try] block of [getRedirects]. *)
Definition getRedirects_try (c : SshUciClient) : M S (list redirect) :=
  (let* output := exec c "uci show firewall 2>/dev/null | grep '=redirect'" in
   if Js.is_empty output then ret []
   else read_lines c [] (Js.split (Js.str1 (Js.chr 10)) output))%js.

Definition getRedirects (c : SshUciClient) : M S (list redirect) :=
  try_catch (getRedirects_try c) (fun error => ret []).

Definition addRedirect (c : SshUciClient) (config : forwarding_config)
  : M S add_result :=
  let uciName := generateUciName (Js.opt_or_else (f_name config) "port_forward") in
  (exec c "uci add firewall redirect" ;;
   exec c ("uci set firewall.@redirect[-1].name='" +++ uciName +++ "'") ;;
   exec c "uci set firewall.@redirect[-1].target='DNAT'" ;;
   exec c "uci set firewall.@redirect[-1].src='wan'" ;;
   exec c "uci set firewall.@redirect[-1].dest='lan'" ;;
   exec c ("uci set firewall.@redirect[-1].proto='"
           +++ Js.opt_or_else (f_protocol config) "tcp" +++ "'") ;;
   exec c ("uci set firewall.@redirect[-1].src_dport='"
           +++ render_port (f_externalPort config) +++ "'") ;;
   exec c ("uci set firewall.@redirect[-1].dest_ip='"
           +++ f_internalIp config +++ "'") ;;
   exec c ("uci set firewall.@redirect[-1].dest_port='"
           +++ render_port (f_internalPort config) +++ "'") ;;
   exec c "uci set firewall.@redirect[-1].enabled='1'" ;;
   exec c "uci commit firewall" ;;
   exec c "/etc/init.d/firewall restart 2>/dev/null || true" ;;
   ret (mkAdded true uciName))%js.

Definition deleteRedirect (c : SshUciClient) (id : string) : M S bool :=
  (exec c ("uci delete firewall." +++ id) ;;
   exec c "uci commit firewall" ;;
   exec c "/etc/init.d/firewall restart 2>/dev/null || true" ;;
   ret true)%js.

Definition probe_command : string :=
  "cat /etc/openwrt_release 2>/dev/null | head -1 || uname -r".

Definition testConnection (c : SshUciClient) : M S connection_report :=
  try_catch
    (let* version := exec c probe_command in
     ret (mkReport true ("Connected to OpenWrt (" +++ version +++ ")")
            (Some (Js.or_else version "Unknown")) None None None None))%js
    (fun error =>
       ret (mkReport false ("SSH failed: " +++ message error) None
              (Some (match err_code error with
                     | Some code => Js.or_else code "UNKNOWN"
                     | None => "UNKNOWN"
                     end)) None None None)).

End Methods.
End Ssh.

(** *** OpenWrtRpcClient *)

Record OpenWrtRpcClient : Type := mkRpc {
  rpc_baseUrl : string;
  rpc_rpcPath : string;
  rpc_username : option string;
  rpc_password : option string;
  authToken : json;
  rpc_timeout : Z
}.

Record rpc_config : Type := mkRpcConfig {
  rc_baseUrl : string;
  rc_rpcPath : option string;
  rc_username : option string;
  rc_password : option string;
  rc_timeout : Z
}.

Definition new_OpenWrtRpcClient (config : rpc_config) : OpenWrtRpcClient :=
  mkRpc (rc_baseUrl config)
        (Js.opt_or_else (rc_rpcPath config) DEFAULT_RPC_PATH)
        (rc_username config) (rc_password config)
        JNull
        (num_or (rc_timeout config) DEFAULT_TIMEOUT).

Definition set_authToken (v : json) (c : OpenWrtRpcClient) : OpenWrtRpcClient :=
  mkRpc (rpc_baseUrl c) (rpc_rpcPath c) (rpc_username c) (rpc_password c) v
        (rpc_timeout c).

(** A string field that may be [undefined] or [null], as a JSON value. *)
Definition opt_json (o : option string) : json :=
  match o with Some s => JStr s | None => JNull end.

Definition json_headers : list (string * string) :=
  [("Content-Type", "application/json")].

Module Rpc.
Section Methods.

Variable W : world.

(** [fetch(url, {method: 'POST', headers, body})], logged. *)
Definition post {S} (rq : http_request) : M S http_outcome :=
  fun s l =>
    let answer := w_post W l rq in
    (Ok answer, s, l ++ [mkEvent (HttpPost rq) (OHttp answer)]).

Definition callRpc (method : string) (params : list json)
  : M OpenWrtRpcClient json :=
  (let* c := this in
   let url := rpc_baseUrl c +++ rpc_rpcPath c +++ "/" +++ method in
   let* response :=
     post (mkRequest url json_headers
             (JObj [("id", JNum 1); ("method", JStr "call");
                    ("params", JArr (authToken c :: JStr "uci" :: params))])
             None) in
   match response with
   | FetchError e => throw e
   | Response status statusText body =>
       if negb (status_ok status)
       then throw (Error ("HTTP " +++ Js.string_of_Z status +++ ": " +++ statusText))
       else lift_result body
   end)%js.

Definition uci (method : string) (params : list json) : M OpenWrtRpcClient json :=
  (let* c := this in
   callRpc "call" [authToken c; JStr "uci"; JStr method; JArr params])%js.

Definition authenticate : M OpenWrtRpcClient json :=
  (let* c := this in
   let url := rpc_baseUrl c +++ rpc_rpcPath c +++ "/auth" in
   let* response :=
     post (mkRequest url json_headers
             (JObj [("id", JNum 1); ("method", JStr "login");
                    ("params", JArr [opt_json (rpc_username c);
                                     opt_json (rpc_password c)])])
             None) in
   match response with
   | FetchError e => throw e
   | Response status statusText body =>
       if negb (status_ok status)
       then throw (Error ("Authentication failed: HTTP " +++ Js.string_of_Z status))
       else
         let* data := lift_result body in
         let* err := lift_result (get data "error") in
         if truthy err
         then throw (Error ("Authentication failed: " +++ render err))
         else
           let* token := lift_result (get data "result") in
           assign (set_authToken token) ;;
           ret token
   end)%js.

Definition testConnection : M OpenWrtRpcClient connection_report :=
  try_catch
    (authenticate ;;
     let* c := this in
     let* sysInfo :=
       callRpc "call" [authToken c; JStr "uci"; JStr "get";
                       JArr [JStr "system"; JStr "info"]] in
     ret (mkReport true "JSON-RPC connection successful" None None
            (Some "rpc") None None))%js
    (fun error =>
       ret (mkReport false ("JSON-RPC failed: " +++ message error) None None
              (Some "rpc") None None)).

End Methods.
End Rpc.

(** *** OpenWrtClient: the unified client *)

Record OpenWrtClient : Type := mkClient {
  connectionMode : string;
  rpcClient : option OpenWrtRpcClient;
  sshClient : option SshUciClient;
  hostname : string;
  port : Z;
  baseUrl : string;
  username : option string;
  password : option string;
  timeout : Z
}.

Record client_config : Type := mkClientConfig {
  cc_url : string;
  cc_port : option Z;
  cc_username : option string;
  cc_password : option string;
  cc_connectionMode : option string;
  cc_timeout : option Z
}.

Definition opt_num_or (n : option Z) (d : Z) : Z :=
  match n with Some z => num_or z d | None => d end.

Definition new_OpenWrtClient (config : client_config) : OpenWrtClient :=
  let parsed := parseRouterUrl (cc_url config) in
  mkClient (Js.opt_or_else (cc_connectionMode config) "auto")
           None None
           (p_hostname parsed)
           (opt_num_or (cc_port config) (num_or (p_port parsed) 22))
           (p_baseUrl parsed)
           (cc_username config) (cc_password config)
           (opt_num_or (cc_timeout config) DEFAULT_TIMEOUT).

Definition set_connectionMode (m : string) (c : OpenWrtClient) : OpenWrtClient :=
  mkClient m (rpcClient c) (sshClient c) (hostname c) (port c) (baseUrl c)
           (username c) (password c) (timeout c).

Definition set_rpcClient (r : option OpenWrtRpcClient) (c : OpenWrtClient)
  : OpenWrtClient :=
  mkClient (connectionMode c) r (sshClient c) (hostname c) (port c) (baseUrl c)
           (username c) (password c) (timeout c).

Definition set_sshClient (r : option SshUciClient) (c : OpenWrtClient)
  : OpenWrtClient :=
  mkClient (connectionMode c) (rpcClient c) r (hostname c) (port c) (baseUrl c)
           (username c) (password c) (timeout c).

(** [new SshUciClient({hostname, port, username, password, timeout})] from
    the fields of the unified client. *)
Definition make_ssh (c : OpenWrtClient) : SshUciClient :=
  new_SshUciClient
    (mkSshConfig (hostname c) (port c) (username c) (password c) (timeout c)).

(** [new OpenWrtRpcClient({baseUrl, username, password, timeout})] *)
Definition make_rpc (c : OpenWrtClient) : OpenWrtRpcClient :=
  new_OpenWrtRpcClient
    (mkRpcConfig (baseUrl c) None (username c) (password c) (timeout c)).

Record forwardings : Type := mkForwardings {
  local : list redirect;
  fw_mode : string
}.

Definition unable_to_connect : error :=
  Error "Unable to connect to router. Please check your settings.".

Definition add_not_implemented : error :=
  Error "JSON-RPC mode not yet implemented for adding forwardings".

Definition delete_not_implemented : error :=
  Error "JSON-RPC mode not yet implemented for deleting forwardings".

Definition null_member (name : string) : error :=
  Error ("Cannot read properties of null (reading '" +++ name +++ "')").

Module Client.
Section Methods.

Variable W : world.

(** A method call on [this.rpcClient]; a TypeError when it is [null]. *)
Definition on_rpcClient {A} (method : string) (m : M OpenWrtRpcClient A)
  : M OpenWrtClient A :=
  fun c l =>
    match rpcClient c with
    | Some r =>
        match m r l with
        | (res, r', l') => (res, set_rpcClient (Some r') c, l')
        end
    | None => (Throw (null_member method), c, l)
    end.

(** A method call on [this.sshClient]; a TypeError when it is [null]. *)
Definition on_sshClient {A} (method : string)
  (m : SshUciClient -> M OpenWrtClient A) : M OpenWrtClient A :=
  fun c l =>
    match sshClient c with
    | Some s => m s c l
    | None => (Throw (null_member method), c, l)
    end.

(** The two probes of [initialize] end either by returning from the
    function ([true]) or by falling through to what follows ([false]). *)
Definition initialize : M OpenWrtClient unit :=
  (let* c := this in
   if String.eqb (connectionMode c) "ssh" then
     assign (set_sshClient (Some (make_ssh c)))
   else if String.eqb (connectionMode c) "rpc" then
     assign (set_rpcClient (Some (make_rpc c)))
   else
     assign (set_sshClient (Some (make_ssh c))) ;;
     let* returned :=
       try_catch
         (let* sshResult := on_sshClient "testConnection" (Ssh.testConnection W) in
          if success sshResult
          then assign (set_connectionMode "ssh") ;; ret true
          else ret false)
         (fun e => ret false) in
     if returned : bool then ret tt
     else
       let* c := this in
       match rpcClient c with
       | None => assign (set_rpcClient (Some (make_rpc c)))
       | Some _ => ret tt
       end ;;
       let* returned :=
         try_catch
           (let* rpcResult := on_rpcClient "testConnection" (Rpc.testConnection W) in
            if success rpcResult
            then on_rpcClient "authenticate" (Rpc.authenticate W) ;;
                 assign (set_connectionMode "rpc") ;;
                 ret true
            else ret false)
           (fun e => ret false) in
       if returned : bool then ret tt
       else throw unable_to_connect)%js.

(** [{...result, mode: 'ssh', requiresPlugins: false}] *)
Definition as_ssh_report (r : connection_report) : connection_report :=
  mkReport (success r) (report_message r) (version r) (report_code r)
           (Some "ssh") (Some false) (hint r).

(** The text of the handler's message and hint is given in ASCII; the
    source has it in Chinese.  Both the [try] block and the handler return,
    so the JSON-RPC probe that follows them in the source is never reached
    and has no counterpart here. *)
Definition testConnection : M OpenWrtClient connection_report :=
  (let* c := this in
   let sshClient := make_ssh c in
   try_catch
     (let* result := Ssh.testConnection W sshClient in
      assign (set_sshClient (Some sshClient)) ;;
      assign (set_connectionMode "ssh") ;;
      ret (as_ssh_report result))
     (fun sshError =>
        ret (mkReport false ("SSH connection failed: " +++ message sshError)
               None None (Some "ssh") (Some false)
               (Some "check username and password, SSH password authentication, root login"))))%js.

Definition getPortForwardings : M OpenWrtClient forwardings :=
  (let* c := this in
   if String.eqb (connectionMode c) "ssh" then
     let* local := on_sshClient "getRedirects" (Ssh.getRedirects W) in
     ret (mkForwardings local "ssh")
   else
     let* local := on_rpcClient "uci" (Rpc.uci W "get" [JStr "firewall"]) in
     ret (mkForwardings [] "rpc"))%js.

Definition addPortForwarding (config : forwarding_config)
  : M OpenWrtClient add_result :=
  (let* c := this in
   if String.eqb (connectionMode c) "ssh" then
     on_sshClient "addRedirect" (fun s => Ssh.addRedirect W s config)
   else throw add_not_implemented)%js.

Definition deletePortForwarding (id : string) : M OpenWrtClient bool :=
  (let* c := this in
   if String.eqb (connectionMode c) "ssh" then
     on_sshClient "deleteRedirect" (fun s => Ssh.deleteRedirect W s id)
   else throw delete_not_implemented)%js.

End Methods.
End Client.

(** *** createClientFromDbConfig *)

(** The row handed to the factory.  [db_password] is [None] when the
    property is falsy (absent, [null] or empty); a truthy one is whatever
    [decryptPassword] of router-encryption.js is applied to. *)
Record db_config (P : Type) : Type := mkDbConfig {
  router_url : string;
  db_username : option string;
  db_password : option P
}.
Arguments mkDbConfig {P} _ _ _.
Arguments router_url {P} _.
Arguments db_username {P} _.
Arguments db_password {P} _.

Section Factory.

Variable W : world.
Context {P : Type}.
(** [decryptPassword], as far as the factory depends on it: it returns a
    string or raises. *)
Variable decryptPassword : P -> result string.

(** [dbConfig.password ? decryptPassword(dbConfig.password) : null] *)
Definition stored_password (dbConfig : db_config P) : result (option string) :=
  match db_password dbConfig with
  | Some p =>
      match decryptPassword p with
      | Ok s => Ok (Some s)
      | Throw e => Throw e
      end
  | None => Ok None
  end.

(** The factory creates the object it works on: it maps the call log to
    the client returned, or the error raised, and the log after it. *)
Definition createClientFromDbConfig (dbConfig : db_config P) (l : log)
  : result OpenWrtClient * log :=
  match stored_password dbConfig with
  | Throw e => (Throw e, l)
  | Ok password =>
      let client :=
        new_OpenWrtClient
          (mkClientConfig (router_url dbConfig) None (db_username dbConfig)
             password (Some "auto") (Some 15000)) in
      match Client.initialize W client l with
      | (Ok _, client', l') => (Ok client', l')
      | (Throw e, _, l') => (Throw e, l')
      end
  end.

End Factory.

End OpenWrt.

(** ** openwrt-api.js, earlier revision: Luci JSON-RPC only

    [generateUciName], [isValidIpAddress] and [isValidPort] have the same
    text in both revisions and are taken from [OpenWrt]. *)

Module LuciRpc.
Import Remote.

Definition DEFAULT_RPC_PATH : string := "/cgi-bin/luci/rpc".
Definition DEFAULT_TIMEOUT : Z := 10000.

Record OpenWrtClient : Type := mkClient {
  baseUrl : string;
  rpcPath : string;
  username : option string;
  password : option string;
  authToken : json;
  timeout : Z
}.

Definition set_authToken (v : json) (c : OpenWrtClient) : OpenWrtClient :=
  mkClient (baseUrl c) (rpcPath c) (username c) (password c) v (timeout c).

Record client_config : Type := mkClientConfig {
  cc_baseUrl : string;
  cc_rpcPath : option string;
  cc_username : option string;
  cc_password : option string;
  cc_timeout : option Z
}.

Definition new_OpenWrtClient (config : client_config) : OpenWrtClient :=
  mkClient (cc_baseUrl config)
           (Js.opt_or_else (cc_rpcPath config) DEFAULT_RPC_PATH)
           (cc_username config) (cc_password config)
           JNull
           (OpenWrt.opt_num_or (cc_timeout config) DEFAULT_TIMEOUT).

(** A rule as [getPortForwardings] reports it; the options are passed on
    as they came. *)
Record rule : Type := mkRule {
  uciName : string;
  name : json;
  target : json;
  src : json;
  dest : json;
  proto : json;
  srcDport : json;
  destIp : json;
  destPort : json;
  enabled : bool;
  reflection : json
}.

(** The configuration object of [addPortForwarding]; [None] is a property
    that is not given. *)
Record forwarding_config : Type := mkForwarding {
  f_name : option string;
  f_protocol : option string;
  f_externalPort : OpenWrt.port_value;
  f_internalIp : string;
  f_internalPort : OpenWrt.port_value;
  f_src : option string;
  f_dest : option string;
  f_target : option string
}.

Record add_result : Type := mkAdded {
  a_success : bool;
  a_uciName : string;
  a_message : string
}.

Record connection_report : Type := mkReport {
  success : bool;
  report_message : string
}.

(** A destructuring default [x = d]: used when the property is undefined. *)
Definition default (o : option string) (d : string) : string :=
  match o with Some s => s | None => d end.

(** [Object.keys(v)] for a truthy value, in property order. *)
Definition keys (v : json) : list string :=
  match v with
  | JObj fields => map fst fields
  | JArr items => map (fun i => Js.string_of_Z (Z.of_nat i)) (seq 0 (List.length items))
  | JStr s => map (fun i => Js.string_of_Z (Z.of_nat i)) (seq 0 (String.length s))
  | _ => []
  end.

Definition str_list (l : list string) : json := JArr (map JStr l).

(** [section.k] on a section that is not [null] or [undefined]. *)
Definition field (section : json) (k : string) : json :=
  match get section k with Ok v => v | Throw _ => JUndefined end.

(** [response.result || {}] *)
Definition sections_of (response : json) : json :=
  if truthy (field response "result") then field response "result" else JObj [].


(** What [updatePortForwarding] and [deletePortForwarding] return. *)
Record change_result : Type := mkChanged {
  ch_success : bool;
  ch_uciName : string;
  ch_message : string
}.



Section Methods.

Variable W : world.

(** The request of [callRpc]: the url, the headers (with the token once
    there is one), the payload and the timeout. *)
Definition rpc_request (c : OpenWrtClient) (methodGroup : string)
  (method params : json) (id : Z) : http_request :=
  mkRequest (baseUrl c +++ rpcPath c +++ "/" +++ methodGroup)
    (("Content-Type", "application/json")
     :: (if truthy (authToken c) then [("X-LuCI-Auth", render (authToken c))]
         else []))
    (JObj [("id", JNum id); ("method", method); ("params", params)])
    (Some (timeout c)).

Definition callRpc (methodGroup : string) (method : json) (params : json)
  : M OpenWrtClient json :=
  fun c l =>
    let rq := rpc_request c methodGroup method params (w_random W l) in
    let answer := w_post W l rq in
    let l' := l ++ [mkEvent (HttpPost rq) (OHttp answer)] in
    match answer with
    | FetchError e => (Throw e, c, l')
    | Response status statusText body =>
        if negb (status_ok status)
        then (Throw (Error ("HTTP " +++ Js.string_of_Z status +++ ": " +++ statusText)),
              c, l')
        else (body, c, l')
    end.

(** [callRpc('auth', {method: 'login', params: [...]})]: the object is
    passed in the position of [method], and [params] takes its default. *)
Definition authenticate : M OpenWrtClient json :=
  try_catch
    (let* c := this in
     let* response :=
       callRpc "auth"
         (JObj [("method", JStr "login");
                ("params", JArr [OpenWrt.opt_json (username c);
                                 OpenWrt.opt_json (password c)])])
         (JArr []) in
     let* err := lift_result (get response "error") in
     if truthy err
     then throw (Error ("Authentication failed: " +++ render err))
     else
       let* token := lift_result (get response "result") in
       assign (set_authToken token) ;;
       ret token)%js
    (fun error => throw error).

Definition ensure_authenticated : M OpenWrtClient unit :=
  (let* c := this in
   if negb (truthy (authToken c)) then authenticate ;; ret tt else ret tt)%js.

Definition uci (command : string) (params : list string) : M OpenWrtClient json :=
  (ensure_authenticated ;;
   callRpc "uci" (JStr command) (str_list params))%js.

Definition testConnection : M OpenWrtClient connection_report :=
  try_catch
    (authenticate ;; ret (mkReport true "Connection successful"))%js
    (fun error =>
       ret (mkReport false (Js.or_else (message error) "Failed to connect to router"))).

(** The callback of [Object.keys(result).forEach]; [sections] is the
    source's [result]. *)
Definition read_section (sections : json) (rules : list rule) (key : string)
  : result (list rule) :=
  match get sections key with
  | Throw e => Throw e
  | Ok section =>
      match get section ".type" with
      | Throw e => Throw e
      | Ok type =>
          if is_string "redirect" type then
            Ok (rules ++
                [mkRule key
                   (if truthy (field section "name") then field section "name"
                    else JStr key)
                   (field section "target") (field section "src")
                   (field section "dest") (field section "proto")
                   (field section "src_dport") (field section "dest_ip")
                   (field section "dest_port")
                   (negb (is_string "0" (field section "enabled")))
                   (field section "reflection")])
          else Ok rules
      end
  end.

Fixpoint read_sections (sections : json) (rules : list rule) (ks : list string)
  : result (list rule) :=
  match ks with
  | [] => Ok rules
  | key :: rest =>
      match read_section sections rules key with
      | Ok rules' => read_sections sections rules' rest
      | Throw e => Throw e
      end
  end.

Definition getPortForwardings : M OpenWrtClient (list rule) :=
  (ensure_authenticated ;;
   try_catch
     (let* response := uci "get_all" ["firewall"] in
      let* err := lift_result (get response "error") in
      if truthy err
      then throw (Error ("UCI error: " +++ render err))
      else
        let sections := sections_of response in
        lift_result (read_sections sections [] (keys sections)))
     (fun error => throw error))%js.

(** One [uci] call of [addPortForwarding] with its error check. *)
Definition checked (command : string) (params : list string) (failure : string)
  : M OpenWrtClient unit :=
  (let* res := uci command params in
   let* err := lift_result (get res "error") in
   if truthy err then throw (Error (failure +++ ": " +++ render err))
   else ret tt)%js.

Fixpoint run_ops (ops : list (string * list string)) : M OpenWrtClient unit :=
  match ops with
  | [] => ret tt
  | op :: rest =>
      (checked (fst op) (snd op)
         ("Failed to set " +++ nth 1 (snd op) "undefined") ;;
       run_ops rest)%js
  end.

Definition addPortForwarding (config : forwarding_config)
  : M OpenWrtClient add_result :=
  (ensure_authenticated ;;
   let protocol := default (f_protocol config) "tcp" in
   let externalPort := f_externalPort config in
   let internalIp := f_internalIp config in
   let internalPort := f_internalPort config in
   let src := default (f_src config) "wan" in
   let dest := default (f_dest config) "lan" in
   let target := default (f_target config) "DNAT" in
   if negb (OpenWrt.isValidIpAddress internalIp) then
     throw (Error ("Invalid internal IP address: " +++ internalIp))
   else if negb (OpenWrt.isValidPort externalPort) then
     throw (Error ("Invalid external port: " +++ OpenWrt.render_port externalPort))
   else if negb (OpenWrt.isValidPort internalPort) then
     throw (Error ("Invalid internal port: " +++ OpenWrt.render_port internalPort))
   else
     match f_name config with
     | None =>
         throw (Error "Cannot read properties of undefined (reading 'toLowerCase')")
     | Some name =>
         let uciName := OpenWrt.generateUciName name in
         try_catch
           (checked "add" ["firewall"; "redirect"] "Failed to add redirect" ;;
            checked "rename" ["firewall"; "@redirect[-1]"; uciName]
              "Failed to rename redirect" ;;
            run_ops
              [("set", ["firewall"; uciName; "name"; name]);
               ("set", ["firewall"; uciName; "target"; target]);
               ("set", ["firewall"; uciName; "src"; src]);
               ("set", ["firewall"; uciName; "dest"; dest]);
               ("set", ["firewall"; uciName; "proto"; protocol]);
               ("set", ["firewall"; uciName; "src_dport"; OpenWrt.render_port externalPort]);
               ("set", ["firewall"; uciName; "dest_ip"; internalIp]);
               ("set", ["firewall"; uciName; "dest_port"; OpenWrt.render_port internalPort]);
               ("set", ["firewall"; uciName; "enabled"; "1"])] ;;
            checked "commit" ["firewall"] "Failed to commit firewall config" ;;
            ret (mkAdded true uciName
                   ("Port forwarding " +++ Js.str1 (Js.chr 34) +++ name
                    +++ Js.str1 (Js.chr 34) +++ " added successfully")))
           (fun error => throw error)
     end)%js.



Definition deletePortForwarding (uciName : string) : M OpenWrtClient change_result :=
  (ensure_authenticated ;;
   try_catch
     (checked "delete" ["firewall"; uciName] "Failed to delete redirect" ;;
      checked "commit" ["firewall"] "Failed to commit firewall config" ;;
      ret (mkChanged true uciName
             ("Port forwarding " +++ Js.str1 (Js.chr 34) +++ uciName
              +++ Js.str1 (Js.chr 34) +++ " deleted successfully")))
     (fun error => throw error))%js.


(** The login, when one is needed, is outside the [try] block; the handler
    returns a report instead of raising. *)
Definition reloadFirewall : M OpenWrtClient connection_report :=
  (ensure_authenticated ;;
   try_catch
     (let* result :=
        callRpc "sys" (JStr "exec")
          (JObj [("command", JStr "/etc/init.d/firewall reload")]) in
      ret (mkReport true "Firewall reloaded successfully"))
     (fun error =>
        ret (mkReport false ("Failed to reload firewall: " +++ message error))))%js.

End Methods.

End LuciRpc.

(** ** router-encryption.js

    Passwords are arbitrary JavaScript strings, and the codec passes them
    through UTF-8, where surrogates matter: in this module a string is the
    list of its UTF-16 code units.  A [Buffer] is a list of bytes.

    Node's [crypto] is modelled as far as the codec depends on it.
    AES-256-GCM is counter mode with a Galois MAC: byte [i] of the
    ciphertext is byte [i] of the plaintext xor byte [i] of a key stream
    fixed by key and iv, and the tag is a function of key, iv and
    ciphertext.  The key stream and the tag function themselves (AES and
    GHASH), [scryptSync], the environment variable and the machine
    identifiers are parameters. *)

Module RouterEncryption.
Import Remote.

Definition jsstring : Type := list Z.
Definition buffer : Type := list Byte.byte.

Definition ALGORITHM : string := "aes-256-gcm".
Definition IV_LENGTH : nat := 16.
Definition TAG_LENGTH : nat := 16.
Definition KEY_LENGTH : nat := 32.

Definition units (s : string) : jsstring := map Js.code (list_ascii_of_string s).

Definition byte_val (b : Byte.byte) : Z := Z.of_N (Byte.to_N b).

Definition byte_of (z : Z) : Byte.byte :=
  match Byte.of_N (Z.to_N z) with Some b => b | None => Byte.x00 end.

(** *** UTF-8, as [Buffer] and [StringDecoder] apply it *)

Definition is_high_surrogate (u : Z) : bool := (55296 <=? u) && (u <=? 56319).
Definition is_low_surrogate (u : Z) : bool := (56320 <=? u) && (u <=? 57343).

Definition REPLACEMENT : Z := 65533.

(** The bytes of one code point. *)
Definition encode_code_point (cp : Z) : list Z :=
  if cp <? 128 then [cp]
  else if cp <? 2048 then [192 + cp / 64; 128 + cp mod 64]
  else if cp <? 65536 then
    [224 + cp / 4096; 128 + (cp / 64) mod 64; 128 + cp mod 64]
  else
    [240 + cp / 262144; 128 + (cp / 4096) mod 64; 128 + (cp / 64) mod 64;
     128 + cp mod 64].

(** The code points of a string: a surrogate pair is one code point, a
    surrogate that is not part of a pair is replaced by U+FFFD. *)
Fixpoint code_points (s : jsstring) : list Z :=
  match s with
  | [] => []
  | u :: rest =>
      if is_high_surrogate u then
        match rest with
        | v :: rest' =>
            if is_low_surrogate v
            then (65536 + (u - 55296) * 1024 + (v - 56320)) :: code_points rest'
            else REPLACEMENT :: code_points rest
        | [] => [REPLACEMENT]
        end
      else if is_low_surrogate u then REPLACEMENT :: code_points rest
      else u :: code_points rest
  end.

(** [Buffer.from(s, 'utf8')] *)
Definition utf8_encode (s : jsstring) : buffer :=
  map byte_of (flat_map encode_code_point (code_points s)).

(** The decoder between two characters is idle ([d_needed = 0]); inside a
    multi-byte sequence it holds the bits read so far, how many
    continuation bytes are still due, and the range allowed for the next
    one. *)
Record decoder : Type := mkDecoder {
  d_code_point : Z;
  d_needed : nat;
  d_lower : Z;
  d_upper : Z
}.

Definition idle : decoder := mkDecoder 0 0 128 191.

(** A byte read by an idle decoder: the state after it and what it emits. *)
Definition lead (b : Z) : decoder * list Z :=
  if b <=? 127 then (idle, [b])
  else if (194 <=? b) && (b <=? 223) then (mkDecoder (b - 192) 1 128 191, [])
  else if (224 <=? b) && (b <=? 239) then
    (mkDecoder (b - 224) 2 (if b =? 224 then 160 else 128)
       (if b =? 237 then 159 else 191), [])
  else if (240 <=? b) && (b <=? 244) then
    (mkDecoder (b - 240) 3 (if b =? 240 then 144 else 128)
       (if b =? 244 then 143 else 191), [])
  else (idle, [REPLACEMENT]).

(** A byte out of range ends the sequence with U+FFFD and is read again as
    the start of the next one; a sequence cut short by the end of the input
    gives U+FFFD. *)
Fixpoint decode_from (st : decoder) (bs : buffer) : list Z :=
  match bs with
  | [] => match d_needed st with O => [] | S _ => [REPLACEMENT] end
  | b :: rest =>
      let z := byte_val b in
      match d_needed st with
      | O => snd (lead z) ++ decode_from (fst (lead z)) rest
      | S k =>
          if (d_lower st <=? z) && (z <=? d_upper st) then
            let cp := d_code_point st * 64 + (z - 128) in
            match k with
            | O => cp :: decode_from idle rest
            | S _ => decode_from (mkDecoder cp k 128 191) rest
            end
          else REPLACEMENT :: snd (lead z) ++ decode_from (fst (lead z)) rest
      end
  end.

(** The code units of one code point. *)
Definition utf16_units (cp : Z) : list Z :=
  if cp <? 65536 then [cp]
  else [55296 + (cp - 65536) / 1024; 56320 + (cp - 65536) mod 1024].

(** [buf.toString('utf8')] *)
Definition utf8_decode (bs : buffer) : jsstring :=
  flat_map utf16_units (decode_from idle bs).

(** A string whose code units are 16-bit and whose surrogates come in
    pairs: the strings that UTF-8 represents without loss. *)
Fixpoint well_formed (s : jsstring) : bool :=
  match s with
  | [] => true
  | u :: rest =>
      (0 <=? u) && (u <? 65536) &&
      if is_high_surrogate u then
        match rest with
        | v :: rest' => is_low_surrogate v && well_formed rest'
        | [] => false
        end
      else negb (is_low_surrogate u) && well_formed rest
  end.

(** A Unicode scalar value: a code point that is not a surrogate. *)
Definition scalar (cp : Z) : Prop :=
  0 <= cp < 1114112 /\ ~ (55296 <= cp <= 57343).

(** *** Hexadecimal, as [Buffer] applies it *)

Definition hex_digit (n : Z) : Z := if n <? 10 then 48 + n else 87 + n.

(** [buf.toString('hex')] *)
Definition hex_encode (bs : buffer) : jsstring :=
  flat_map (fun b => [hex_digit (byte_val b / 16); hex_digit (byte_val b mod 16)]) bs.

Definition hex_value (c : Z) : option Z :=
  if (48 <=? c) && (c <=? 57) then Some (c - 48)
  else if (97 <=? c) && (c <=? 102) then Some (c - 87)
  else if (65 <=? c) && (c <=? 70) then Some (c - 55)
  else None.

(** [Buffer.from(s, 'hex')]: decoding stops at the first pair that is not
    two hexadecimal digits, and a trailing single digit is dropped. *)
Fixpoint hex_decode (s : jsstring) : buffer :=
  match s with
  | hi :: lo :: rest =>
      match hex_value hi, hex_value lo with
      | Some h, Some l => byte_of (16 * h + l) :: hex_decode rest
      | _, _ => []
      end
  | _ => []
  end.

(** *** The cipher *)

Definition xor_bits (x y : bool * (bool * (bool * (bool * (bool * (bool * (bool * bool)))))))
  : bool * (bool * (bool * (bool * (bool * (bool * (bool * bool)))))) :=
  let '(x0, (x1, (x2, (x3, (x4, (x5, (x6, x7))))))) := x in
  let '(y0, (y1, (y2, (y3, (y4, (y5, (y6, y7))))))) := y in
  (xorb x0 y0, (xorb x1 y1, (xorb x2 y2, (xorb x3 y3, (xorb x4 y4,
   (xorb x5 y5, (xorb x6 y6, xorb x7 y7))))))).

Definition byte_xor (a b : Byte.byte) : Byte.byte :=
  Byte.of_bits (xor_bits (Byte.to_bits a) (Byte.to_bits b)).

Fixpoint buffer_eqb (a b : buffer) : bool :=
  match a, b with
  | [], [] => true
  | x :: a', y :: b' => Byte.eqb x y && buffer_eqb a' b'
  | _, _ => false
  end.

(** Tag lengths that [setAuthTag] accepts in GCM mode when the decipher was
    created without [authTagLength]. *)
Definition valid_gcm_tag_length (n : nat) : bool :=
  Nat.eqb n 4 || Nat.eqb n 8 || (Nat.leb 12 n && Nat.leb n 16).

Record encrypted_data : Type := mkEncrypted {
  encrypted : jsstring;
  iv : jsstring;
  tag : jsstring
}.

Section Codec.

(** [process.env.ROUTER_ENCRYPTION_KEY] *)
Variable env_key : option jsstring.
(** [os.hostname() + os.arch()] *)
Variable machineId : jsstring.
(** [crypto.scryptSync(password, salt, keylen)] *)
Variable scryptSync : buffer -> buffer -> nat -> buffer.
(** Byte [i] of the AES-CTR key stream for a key and an iv. *)
Variable keystream : buffer -> buffer -> nat -> Byte.byte.
(** The full GCM tag for a key, an iv and a ciphertext. *)
Variable gcm_tag : buffer -> buffer -> buffer -> buffer.

Definition getEncryptionKey : buffer :=
  match env_key with
  | Some envKey =>
      if negb (Nat.eqb (List.length envKey) 0) then
        if Nat.eqb (List.length (utf8_encode envKey)) 32
        then utf8_encode envKey
        else scryptSync (utf8_encode envKey) (utf8_encode (units "router-salt"))
               KEY_LENGTH
      else
        scryptSync (utf8_encode machineId)
          (utf8_encode (units "portracker-router-key")) KEY_LENGTH
  | None =>
      scryptSync (utf8_encode machineId)
        (utf8_encode (units "portracker-router-key")) KEY_LENGTH
  end.

(** Counter mode: the same transformation encrypts and decrypts. *)
Fixpoint ctr (key nonce : buffer) (i : nat) (data : buffer) : buffer :=
  match data with
  | [] => []
  | b :: rest => byte_xor b (keystream key nonce i) :: ctr key nonce (Datatypes.S i) rest
  end.

(** [createCipheriv] / [createDecipheriv] for aes-256-gcm reject a key that
    is not 32 bytes and an empty iv. *)
Definition valid_parameters (key nonce : buffer) : bool :=
  Nat.eqb (List.length key) KEY_LENGTH && negb (Nat.eqb (List.length nonce) 0).

(** [randomIv] is the value of [crypto.randomBytes(IV_LENGTH)] in this call. *)
Definition encrypt (randomIv : buffer) (plaintext : jsstring)
  : result encrypted_data :=
  match plaintext with
  | [] => Throw (Error "Cannot encrypt empty string")
  | _ =>
      let key := getEncryptionKey in
      if valid_parameters key randomIv then
        let ciphertext := ctr key randomIv 0 (utf8_encode plaintext) in
        let authTag := gcm_tag key randomIv ciphertext in
        Ok (mkEncrypted (hex_encode ciphertext) (hex_encode randomIv)
              (hex_encode authTag))
      else Throw (Error "Failed to encrypt data")
  end.

(** [setAuthTag] rejects a tag of an invalid length; [final] compares the
    tag given with as many bytes of the tag computed. *)
Definition decrypt (encryptedData iv tag : jsstring) : result jsstring :=
  match encryptedData, iv, tag with
  | _ :: _, _ :: _, _ :: _ =>
      let key := getEncryptionKey in
      let nonce := hex_decode iv in
      let given := hex_decode tag in
      let ciphertext := hex_decode encryptedData in
      if valid_parameters key nonce
         && valid_gcm_tag_length (List.length given)
         && buffer_eqb given (firstn (List.length given) (gcm_tag key nonce ciphertext))
      then Ok (utf8_decode (ctr key nonce 0 ciphertext))
      else Throw (Error "Failed to decrypt data")
  | _, _, _ => Throw (Error "Missing encryption parameters")
  end.

Definition encryptPassword (randomIv : buffer) (password : jsstring)
  : result encrypted_data := encrypt randomIv password.

Definition decryptPassword (storageObj : encrypted_data) : result jsstring :=
  decrypt (encrypted storageObj) (iv storageObj) (tag storageObj).

End Codec.

End RouterEncryption.

(** ** Words of the specification

    The specification speaks of kinds of remote commands ("section-add",
    "rename", "field-set", "commit", "reload"); the code issues command
    lines.  The reading of a command line as a kind is fixed here. *)

Module SpecWords.
Import Remote.

Inductive kind : Type :=
| SectionAdd | Rename | FieldSet | SectionDelete | Commit | Reload | Read | Other.

Definition command_kind (command : string) : kind :=
  if String.prefix "uci add " command then SectionAdd
  else if String.prefix "uci rename " command then Rename
  else if String.prefix "uci set " command then FieldSet
  else if String.prefix "uci delete " command then SectionDelete
  else if String.prefix "uci commit " command then Commit
  else if String.prefix "/etc/init.d/firewall " command then Reload
  else if String.prefix "uci get " command || String.prefix "uci show " command
  then Read
  else Other.

(** The command lines of the SSH calls of a log, in order. *)
Fixpoint commands (l : log) : list string :=
  match l with
  | [] => []
  | e :: rest =>
      match ev_call e with
      | SshExec _ command => command :: commands rest
      | HttpPost _ => commands rest
      end
  end.

(** "one section-add, one rename, eight field-set commands, one commit,
    then one firewall reload" *)
Definition claimed_add_sequence : list kind :=
  [SectionAdd; Rename] ++ repeat FieldSet 8 ++ [Commit; Reload].

(** The command lines [SshUciClient.addRedirect] is to issue for a rule. *)
Definition add_commands (config : OpenWrt.forwarding_config) : list string :=
  [ "uci add firewall redirect";
    "uci set firewall.@redirect[-1].name='"
      +++ OpenWrt.generateUciName (Js.opt_or_else (OpenWrt.f_name config) "port_forward")
      +++ "'";
    "uci set firewall.@redirect[-1].target='DNAT'";
    "uci set firewall.@redirect[-1].src='wan'";
    "uci set firewall.@redirect[-1].dest='lan'";
    "uci set firewall.@redirect[-1].proto='"
      +++ Js.opt_or_else (OpenWrt.f_protocol config) "tcp" +++ "'";
    "uci set firewall.@redirect[-1].src_dport='"
      +++ OpenWrt.render_port (OpenWrt.f_externalPort config) +++ "'";
    "uci set firewall.@redirect[-1].dest_ip='" +++ OpenWrt.f_internalIp config +++ "'";
    "uci set firewall.@redirect[-1].dest_port='"
      +++ OpenWrt.render_port (OpenWrt.f_internalPort config) +++ "'";
    "uci set firewall.@redirect[-1].enabled='1'";
    "uci commit firewall";
    "/etc/init.d/firewall restart 2>/dev/null || true" ].

(** The answer of the router to the SSH probe of [testConnection], asked
    by the unified client [c] when the log is [l]. *)
Definition probe_answer (W : world) (c : OpenWrt.OpenWrtClient) (l : log)
  : exec_outcome :=
  w_exec W l (OpenWrt.connect_options (OpenWrt.make_ssh c)) OpenWrt.Ssh.probe_command.

Definition probe_event (W : world) (c : OpenWrt.OpenWrtClient) (l : log) : event :=
  OpenWrt.Ssh.exec_event W (OpenWrt.make_ssh c) OpenWrt.Ssh.probe_command l.

(** The RPC driver that [initialize] probes: the one the client holds, or
    a new one. *)
Definition rpc_driver (c : OpenWrt.OpenWrtClient) : OpenWrt.OpenWrtRpcClient :=
  match OpenWrt.rpcClient c with
  | Some r => r
  | None => OpenWrt.make_rpc c
  end.

(** The unified client once [initialize] has created both drivers. *)
Definition after_ssh_probe (c : OpenWrt.OpenWrtClient) : OpenWrt.OpenWrtClient :=
  OpenWrt.set_rpcClient (Some (rpc_driver c))
    (OpenWrt.set_sshClient (Some (OpenWrt.make_ssh c)) c).

(** Whether a probe reported success. *)
Definition reported_success {S} (x : result OpenWrt.connection_report * S * log)
  : bool :=
  match value x with
  | Ok report => OpenWrt.success report
  | Throw _ => false
  end.

(** The mode is neither of the two explicit ones: [initialize] probes. *)
Definition auto_mode (c : OpenWrt.OpenWrtClient) : Prop :=
  OpenWrt.connectionMode c <> "ssh" /\ OpenWrt.connectionMode c <> "rpc".

(** [n] calls of [testConnection] in a row. *)
Fixpoint testConnection_times (W : world) (n : nat) : M OpenWrt.OpenWrtClient unit :=
  match n with
  | O => ret tt
  | Datatypes.S k =>
      bind (OpenWrt.Client.testConnection W) (fun _ => testConnection_times W k)
  end.

(** The log [l'] is the log [l] followed by exactly the calls [cs], in
    order. *)
Definition extends_by (l l' : log) (cs : list call) : Prop :=
  exists new, l' = l ++ new /\ map ev_call new = cs.


(** One byte of a stored tag altered: the character at index 24 of the
    hexadecimal string replaced by the letter z. *)
Definition tamper_tag (t : RouterEncryption.jsstring) : RouterEncryption.jsstring :=
  firstn 24 t ++ 122 :: skipn 25 t.

(** The log [l'] is the log [l] with more calls after it. *)
Definition grows (l l' : log) : Prop := exists new, l' = l ++ new.

(** A method that, whatever it returns, only adds calls to the log. *)
Definition only_grows {S A} (m : M S A) : Prop :=
  forall s l, grows l (calls (m s l)).



(** The log [l'] is the log [l] followed by HTTP requests only. *)
Definition http_only (l l' : log) : Prop :=
  exists new, l' = l ++ new /\ forallb is_http new = true.

(** A router on which every command runs and exits with status 0. *)
Definition accepts_commands (W : world) : Prop :=
  forall l t command, exec_succeeds (w_exec W l t command) = true.

End SpecWords.

(** ** Routers, clients and ciphers used as concrete inputs *)

Module Scenarios.
Import Remote.

Definition ok_response (body : json) : http_outcome := Response 200 "OK" (Ok body).

(** A router that runs every command with exit status 0 and answers every
    RPC request with a token. *)
Definition accepting : world :=
  mkWorld (fun _ _ _ => StreamClosed (Some 0) "OpenWrt" "")
          (fun _ _ => ok_response (JObj [("result", JStr "token")]))
          (fun _ => 1).

Definition refused : error := mkError "connect ECONNREFUSED" (Some "ECONNREFUSED").

(** A router that cannot be reached on either transport. *)
Definition rejecting : world :=
  mkWorld (fun _ _ _ => ConnError refused)
          (fun _ _ => FetchError refused)
          (fun _ => 1).



(** A router with one anonymous redirect section whose option [enabled]
    reads as empty. *)
Definition one_redirect : world :=
  mkWorld (fun _ _ command =>
             if String.prefix "uci show " command
             then StreamClosed (Some 0) "firewall.@redirect[0]=redirect" ""
             else if String.eqb command
                       (OpenWrt.Ssh.uci_get "@redirect[0]" "enabled")
             then StreamClosed (Some 0) "" ""
             else StreamClosed (Some 0) "x" "")
          (fun _ _ =>
             ok_response
               (JObj [("result",
                       JObj [("cfg1", JObj [(".type", JStr "redirect");
                                            ("name", JStr "web")])])]))
          (fun _ => 1).

(** The rule of the specification's end-to-end example. *)
Definition web : OpenWrt.forwarding_config :=
  OpenWrt.mkForwarding (Some "web") (Some "tcp") (OpenWrt.PInt 8080) "10.0.0.5"
    (OpenWrt.PInt 80).

(** The rule of the specification's validation example. *)
Definition bad_ip : OpenWrt.forwarding_config :=
  OpenWrt.mkForwarding (Some "web") None (OpenWrt.PInt 80) "999.1.1.1"
    (OpenWrt.PInt 80).

Definition bad_ip_rpc : LuciRpc.forwarding_config :=
  LuciRpc.mkForwarding (Some "web") None (OpenWrt.PInt 80) "999.1.1.1"
    (OpenWrt.PInt 80) None None None.

Definition ssh_client : OpenWrt.SshUciClient :=
  OpenWrt.new_SshUciClient
    (OpenWrt.mkSshConfig "192.168.1.1" 22 (Some "root") (Some "secret") 15000).

Definition client_in (mode : option string) : OpenWrt.OpenWrtClient :=
  OpenWrt.new_OpenWrtClient
    (OpenWrt.mkClientConfig "192.168.1.1" None (Some "root") (Some "secret")
       mode (Some 15000)).

Definition luci_client : LuciRpc.OpenWrtClient :=
  LuciRpc.new_OpenWrtClient
    (LuciRpc.mkClientConfig "http://192.168.1.1" None (Some "root")
       (Some "secret") None).

(** A stand-in for AES and GHASH: any key stream and any 16-byte tag
    function fit the codec. *)
Definition toy_keystream (key nonce : RouterEncryption.buffer) (i : nat) : Byte.byte :=
  RouterEncryption.byte_of (Z.of_nat i * 7 + 3).

Definition toy_tag (key nonce ciphertext : RouterEncryption.buffer)
  : RouterEncryption.buffer :=
  firstn 16 (ciphertext ++ repeat Byte.x2a 16).

Definition toy_scrypt (password salt : RouterEncryption.buffer) (keylen : nat)
  : RouterEncryption.buffer :=
  firstn keylen (password ++ repeat Byte.x01 keylen).

Definition toy_iv : RouterEncryption.buffer := repeat Byte.x07 16.

Definition toy_encrypt : RouterEncryption.jsstring ->
                         result RouterEncryption.encrypted_data :=
  RouterEncryption.encrypt None (RouterEncryption.units "host-x64") toy_scrypt
    toy_keystream toy_tag toy_iv.

Definition toy_decrypt : RouterEncryption.jsstring -> RouterEncryption.jsstring ->
                         RouterEncryption.jsstring ->
                         result RouterEncryption.jsstring :=
  RouterEncryption.decrypt None (RouterEncryption.units "host-x64") toy_scrypt
    toy_keystream toy_tag.

(** The RPC-only client once it holds a token. *)
Definition logged_in : LuciRpc.OpenWrtClient :=
  LuciRpc.set_authToken (JStr "token") Scenarios.luci_client.


End Scenarios.

(** ** What the further properties speak of *)

Module Observations.
Import Remote.

(** Every character of the string satisfies [p]. *)
Fixpoint all_chars (p : ascii -> bool) (s : string) : bool :=
  match s with
  | EmptyString => true
  | String c t => p c && all_chars p t
  end.

(** The strings a regular expression matches from end to end. *)
Inductive lang : Regex.re -> string -> Prop :=
| lang_eps : lang Regex.Eps EmptyString
| lang_class (p : ascii -> bool) (c : ascii) :
    p c = true -> lang (Regex.Class p) (String c EmptyString)
| lang_cat (a b : Regex.re) (s t : string) :
    lang a s -> lang b t -> lang (Regex.Cat a b) (s +++ t)
| lang_alt_l (a b : Regex.re) (s : string) : lang a s -> lang (Regex.Alt a b) s
| lang_alt_r (a b : Regex.re) (s : string) : lang b s -> lang (Regex.Alt a b) s
| lang_star_nil (a : Regex.re) : lang (Regex.Star a) EmptyString
| lang_star_cons (a : Regex.re) (s t : string) :
    lang a s -> lang (Regex.Star a) t -> lang (Regex.Star a) (s +++ t).

(** One to three decimal digits whose value is at most 255. *)
Definition octet_ok (s : string) : bool :=
  (1 <=? String.length s)%nat && (String.length s <=? 3)%nat
  && all_chars Js.is_digit s && (Js.digits_value s <=? 255).

(** No character of the string is [x]. *)
Definition no_char (x : ascii) (s : string) : bool :=
  all_chars (fun c => negb (Ascii.eqb c x)) s.

Definition dotted (a b c d : string) : string :=
  a +++ "." +++ b +++ "." +++ c +++ "." +++ d.


(** The value of a decimal numeral read after the digits of value [acc]. *)
Fixpoint uint_value (acc : Z) (d : Decimal.uint) : Z :=
  match d with
  | Decimal.Nil => acc
  | Decimal.D0 l => uint_value (10 * acc) l
  | Decimal.D1 l => uint_value (10 * acc + 1) l
  | Decimal.D2 l => uint_value (10 * acc + 2) l
  | Decimal.D3 l => uint_value (10 * acc + 3) l
  | Decimal.D4 l => uint_value (10 * acc + 4) l
  | Decimal.D5 l => uint_value (10 * acc + 5) l
  | Decimal.D6 l => uint_value (10 * acc + 6) l
  | Decimal.D7 l => uint_value (10 * acc + 7) l
  | Decimal.D8 l => uint_value (10 * acc + 8) l
  | Decimal.D9 l => uint_value (10 * acc + 9) l
  end.

(** [Js.digits_value] with the value read so far made explicit. *)
Fixpoint digits_from (acc : Z) (s : string) : Z :=
  match s with
  | EmptyString => acc
  | String c t => digits_from (10 * acc + (Js.code c - 48)) t
  end.

(** The pattern of [match_redirect] applied at the start of the line. *)
Definition redirect_here (line : string) : option string :=
  if String.prefix "firewall." line then
    let rest := Js.drop 9 line in
    let run := Js.take_while (fun c => negb (Ascii.eqb c "=")) rest in
    if negb (Js.is_empty run)
       && String.prefix "=redirect" (Js.drop (String.length run) rest)
    then Some run else None
  else None.

(** The section names that [getRedirects] finds in the lines of a listing. *)
Fixpoint captures (lines : list string) : list string :=
  match lines with
  | [] => []
  | line :: rest =>
      match OpenWrt.match_redirect line with
      | Some uciName => uciName :: captures rest
      | None => captures rest
      end
  end.




(** The listing command of [getRedirects]. *)
Definition listing_command : string :=
  "uci show firewall 2>/dev/null | grep '=redirect'".

(** A rule as the listing fills it in: with a name and a protocol. *)
Definition filled (r : OpenWrt.redirect) : Prop :=
  OpenWrt.r_name r <> "" /\ OpenWrt.r_protocol r <> "".

(** What a login answer yields as token: the [result] of the body, when
    the status is a success, the body was parsed, is neither [null] nor
    [undefined], and its [error] is falsy.  The token itself is not looked
    at. *)
Definition login_result (o : http_outcome) : option json :=
  match o with
  | Response status _ (Ok body) =>
      if status_ok status then
        match get body "error" with
        | Ok err =>
            if truthy err then None
            else match get body "result" with
                 | Ok token => Some token
                 | Throw _ => None
                 end
        | Throw _ => None
        end
      else None
  | _ => None
  end.

(** The answer has a success status and a body that parses as JSON. *)
Definition json_answer (o : http_outcome) : bool :=
  match o with
  | Response status _ (Ok _) => status_ok status
  | _ => false
  end.

(** The login request of the JSON-RPC driver. *)
Definition login_request (c : OpenWrt.OpenWrtRpcClient) : http_request :=
  mkRequest (OpenWrt.rpc_baseUrl c +++ OpenWrt.rpc_rpcPath c +++ "/auth")
    OpenWrt.json_headers
    (JObj [("id", JNum 1); ("method", JStr "login");
           ("params", JArr [OpenWrt.opt_json (OpenWrt.rpc_username c);
                            OpenWrt.opt_json (OpenWrt.rpc_password c)])])
    None.

(** The unified client is bound: its mode is one of the two drivers, and
    it holds that driver. *)
Definition bound (c : OpenWrt.OpenWrtClient) : Prop :=
  (OpenWrt.connectionMode c = "ssh" /\ OpenWrt.sshClient c <> None)
  \/ (OpenWrt.connectionMode c = "rpc" /\ OpenWrt.rpcClient c <> None).

(** The connection settings of the unified client. *)
Definition settings (c : OpenWrt.OpenWrtClient)
  : string * Z * string * option string * option string * Z :=
  (OpenWrt.hostname c, OpenWrt.port c, OpenWrt.baseUrl c, OpenWrt.username c,
   OpenWrt.password c, OpenWrt.timeout c).



(** The request of one UCI operation [(command, params)], with the
    random identifier [id]. *)
Definition op_request (c : LuciRpc.OpenWrtClient) (op : string * list string)
  (id : Z) : http_request :=
  LuciRpc.rpc_request c "uci" (JStr (fst op)) (LuciRpc.str_list (snd op)) id.



(** The rule passes the three checks of [addPortForwarding]. *)
Definition valid_rule (config : LuciRpc.forwarding_config) : bool :=
  OpenWrt.isValidIpAddress (LuciRpc.f_internalIp config)
  && OpenWrt.isValidPort (LuciRpc.f_externalPort config)
  && OpenWrt.isValidPort (LuciRpc.f_internalPort config).

(** The login request of the RPC-only client: the object with [method] and
    [params] travels in the position of the method, and the parameters are
    empty. *)
Definition luci_login_request (c : LuciRpc.OpenWrtClient) (id : Z) : http_request :=
  LuciRpc.rpc_request c "auth"
    (JObj [("method", JStr "login");
           ("params", JArr [OpenWrt.opt_json (LuciRpc.username c);
                            OpenWrt.opt_json (LuciRpc.password c)])])
    (JArr []) id.


(** A lower-case hexadecimal digit, as a code unit. *)
Definition is_lower_hex (c : Z) : bool :=
  ((48 <=? c) && (c <=? 57)) || ((97 <=? c) && (c <=? 102)).

End Observations.

(** * Properties *)

Import Remote.

(** ** The call log *)

Lemma extends_refl (l : log) : SpecWords.extends_by l l [].
Proof. exists []. split; [symmetry; apply app_nil_r | reflexivity]. Qed.

Lemma extends_step (l l' : log) (cs : list call) (e : event) :
  SpecWords.extends_by l l' cs ->
  SpecWords.extends_by l (l' ++ [e]) (cs ++ [ev_call e]).
Proof.
  intros [new [-> Hc]]. exists (new ++ [e]). split.
  - symmetry. apply app_assoc.
  - rewrite map_app, Hc. reflexivity.
Qed.

Lemma grows_refl l : SpecWords.grows l l.
Proof. exists []. symmetry. apply app_nil_r. Qed.

Lemma grows_step l l' e : SpecWords.grows (l ++ [e]) l' -> SpecWords.grows l l'.
Proof. intros [new ->]. exists ([e] ++ new). symmetry. apply app_assoc. Qed.



Lemma grows_trans l1 l2 l3 :
  SpecWords.grows l1 l2 -> SpecWords.grows l2 l3 -> SpecWords.grows l1 l3.
Proof. intros [n1 ->] [n2 ->]. exists (n1 ++ n2). symmetry. apply app_assoc. Qed.

Lemma http_only_refl (l : log) : SpecWords.http_only l l.
Proof. exists []. split; [symmetry; apply app_nil_r | reflexivity]. Qed.

Lemma http_only_one (l : log) (rq : http_request) (o : outcome) :
  SpecWords.http_only l (l ++ [mkEvent (HttpPost rq) o]).
Proof. eexists. split; reflexivity. Qed.


(** ** Address parsing *)

(** C9. The address parser maps "192.168.1.1" to host "192.168.1.1" with
    the SSH default port 22, and "http://r.local:8080/x" to host "r.local"
    with port 8080. *)
Theorem parseRouterUrl_examples :
  OpenWrt.p_hostname (OpenWrt.parseRouterUrl "192.168.1.1") = "192.168.1.1"
  /\ OpenWrt.p_port (OpenWrt.parseRouterUrl "192.168.1.1") = 22
  /\ OpenWrt.p_hostname (OpenWrt.parseRouterUrl "http://r.local:8080/x") = "r.local"
  /\ OpenWrt.p_port (OpenWrt.parseRouterUrl "http://r.local:8080/x") = 8080.
Proof. repeat split; vm_compute; reflexivity. Qed.

(** ** The SSH driver *)

Section SshFacts.

Variable W : world.
Context {S : Type}.

Lemma exec_calls (c : OpenWrt.SshUciClient) (command : string) (s : S) (l : log) :
  calls (OpenWrt.Ssh.exec W c command s l) = l ++ [OpenWrt.Ssh.exec_event W c command l]
  /\ object (OpenWrt.Ssh.exec W c command s l) = s.
Proof.
  unfold OpenWrt.Ssh.exec, OpenWrt.Ssh.exec_event.
  destruct (w_exec W l (OpenWrt.connect_options c) command) as [e | [[ | p | p] | ] out err];
    split; reflexivity.
Qed.

Lemma exec_ok (c : OpenWrt.SshUciClient) (command : string) (s : S) (l : log) :
  exec_succeeds (w_exec W l (OpenWrt.connect_options c) command) = true ->
  exists out,
    OpenWrt.Ssh.exec W c command s l = (Ok out, s, l ++ [OpenWrt.Ssh.exec_event W c command l]).
Proof.
  unfold OpenWrt.Ssh.exec, OpenWrt.Ssh.exec_event.
  destruct (w_exec W l (OpenWrt.connect_options c) command) as [e | [[ | p | p] | ] out err];
    simpl; intros H; try discriminate.
  eexists; reflexivity.
Qed.

Lemma exec_fails (c : OpenWrt.SshUciClient) (command : string) (s : S) (l : log) :
  exec_succeeds (w_exec W l (OpenWrt.connect_options c) command) = false ->
  exists e,
    OpenWrt.Ssh.exec W c command s l = (Throw e, s, l ++ [OpenWrt.Ssh.exec_event W c command l]).
Proof.
  unfold OpenWrt.Ssh.exec, OpenWrt.Ssh.exec_event.
  destruct (w_exec W l (OpenWrt.connect_options c) command) as [e | [[ | p | p] | ] out err];
    simpl; intros H; try discriminate; eexists; reflexivity.
Qed.

Lemma bind_exec_ok {B} (c : OpenWrt.SshUciClient) (command : string)
  (k : string -> M S B) (s : S) (l : log) :
  exec_succeeds (w_exec W l (OpenWrt.connect_options c) command) = true ->
  exists out,
    bind (OpenWrt.Ssh.exec W c command) k s l
    = k out s (l ++ [OpenWrt.Ssh.exec_event W c command l]).
Proof.
  intros H. destruct (exec_ok c command s l H) as [out E].
  exists out. unfold bind. rewrite E. reflexivity.
Qed.

Lemma ret_grows {A} (a : A) : SpecWords.only_grows (S := S) (ret a).
Proof. intros s l. apply grows_refl. Qed.

Lemma exec_grows (c : OpenWrt.SshUciClient) (command : string) :
  SpecWords.only_grows (S := S) (OpenWrt.Ssh.exec W c command).
Proof.
  intros s l. destruct (exec_calls c command s l) as [-> _].
  eexists; reflexivity.
Qed.

Lemma bind_grows {A B} (m : M S A) (k : A -> M S B) :
  SpecWords.only_grows m -> (forall a, SpecWords.only_grows (k a)) ->
  SpecWords.only_grows (bind m k).
Proof.
  intros Hm Hk s l. unfold bind. specialize (Hm s l).
  destruct (m s l) as [[[a | e] s1] l1]; unfold calls in *; cbn [snd] in *.
  - apply (grows_trans l l1 _ Hm). apply (Hk a s1 l1).
  - exact Hm.
Qed.

(** Whatever the rule and whatever the router, [addRedirect] begins by
    issuing the section-add command. *)
Lemma addRedirect_first_call (c : OpenWrt.SshUciClient)
  (config : OpenWrt.forwarding_config) (s : S) (l : log) :
  exists rest,
    calls (OpenWrt.Ssh.addRedirect W c config s l)
    = l ++ OpenWrt.Ssh.exec_event W c "uci add firewall redirect" l :: rest.
Proof.
  unfold OpenWrt.Ssh.addRedirect.
  match goal with |- context [bind ?m ?k s l] =>
    assert (Hk : forall a, SpecWords.only_grows (k a))
  end.
  { intros a. repeat (apply bind_grows; [apply exec_grows | intros ?]).
    apply ret_grows. }
  unfold bind at 1.
  destruct (OpenWrt.Ssh.exec W c "uci add firewall redirect" s l)
    as [[[out | e] s1] l1] eqn:E;
    pose proof (exec_calls c "uci add firewall redirect" s l) as [Hc _];
    rewrite E in Hc; unfold calls in Hc; cbn [snd] in Hc; subst l1.
  - destruct (Hk out s1
                (l ++ [OpenWrt.Ssh.exec_event W c "uci add firewall redirect" l]))
      as [new Hn].
    exists new. rewrite Hn. rewrite <- app_assoc. reflexivity.
  - exists []. reflexivity.
Qed.

End SshFacts.



(** One accepted exec: the continuation runs on the log extended by one
    event, which is then kept abstract. *)
Ltac step_exec H Hext :=
  match goal with
  | |- context [bind (OpenWrt.Ssh.exec ?W ?c ?cmd) ?k ?s ?l] =>
      let out := fresh "out" in
      let E := fresh "E" in
      let l' := fresh "l" in
      destruct (bind_exec_ok W c cmd k s l (H _ _ _)) as [out E];
      rewrite E; clear E; cbv beta;
      apply (extends_step _ _ _ (OpenWrt.Ssh.exec_event W c cmd l)) in Hext;
      change (ev_call (OpenWrt.Ssh.exec_event W c cmd l))
        with (SshExec (OpenWrt.connect_options c) cmd) in Hext;
      revert Hext;
      generalize (l ++ [OpenWrt.Ssh.exec_event W c cmd l]);
      intros l' Hext
  end.

(** C1. At the rule of the validation example (internalIp "999.1.1.1",
    which [isValidIpAddress] rejects), [SshUciClient.addRedirect] validates
    nothing: on every router it issues the section-add command, and on a
    router that accepts commands it issues all twelve, the invalid address
    among them, and reports success.  The RPC-only client does validate,
    after the login request that its missing token triggers: one remote
    call is on the log when it raises. *)
Theorem addRedirect_does_not_validate :
  OpenWrt.isValidIpAddress (OpenWrt.f_internalIp Scenarios.bad_ip) = false
  /\ (forall (W : world) (c : OpenWrt.SshUciClient) (l : log),
        exists rest,
          calls (OpenWrt.Ssh.addRedirect W c Scenarios.bad_ip tt l)
          = l ++ OpenWrt.Ssh.exec_event W c "uci add firewall redirect" l :: rest)
  /\ value (OpenWrt.Ssh.addRedirect Scenarios.accepting Scenarios.ssh_client
              Scenarios.bad_ip tt [])
     = Ok (OpenWrt.mkAdded true "web")
  /\ SpecWords.commands
       (calls (OpenWrt.Ssh.addRedirect Scenarios.accepting Scenarios.ssh_client
                 Scenarios.bad_ip tt []))
     = SpecWords.add_commands Scenarios.bad_ip
  /\ In "uci set firewall.@redirect[-1].dest_ip='999.1.1.1'"
       (SpecWords.add_commands Scenarios.bad_ip)
  /\ value (LuciRpc.addPortForwarding Scenarios.accepting Scenarios.bad_ip_rpc
              Scenarios.luci_client [])
     = Throw (Error "Invalid internal IP address: 999.1.1.1")
  /\ List.length
       (calls (LuciRpc.addPortForwarding Scenarios.accepting Scenarios.bad_ip_rpc
                 Scenarios.luci_client []))
     = 1%nat.
Proof.
  split; [vm_compute; reflexivity | split].
  - intros W c l. apply addRedirect_first_call.
  - repeat split; try (vm_compute; reflexivity).
    vm_compute. tauto.
Qed.

(** What the claim C2 says of the end-to-end example fails: the second
    command sets the option [name] of the anonymous section, it is not a
    rename. *)
Lemma addRedirect_issues_no_rename :
  map SpecWords.command_kind
    (SpecWords.commands
       (calls (OpenWrt.Ssh.addRedirect Scenarios.accepting Scenarios.ssh_client
                 Scenarios.web tt [])))
  <> SpecWords.claimed_add_sequence.
Proof. vm_compute. discriminate. Qed.

Lemma addRedirect_run (W : world) (S : Type) (c : OpenWrt.SshUciClient)
  (config : OpenWrt.forwarding_config) (s : S) (l0 l : log) (cs : list call) :
  SpecWords.accepts_commands W ->
  SpecWords.extends_by l0 l cs ->
  value (OpenWrt.Ssh.addRedirect W c config s l)
  = Ok (OpenWrt.mkAdded true
          (OpenWrt.generateUciName
             (Js.opt_or_else (OpenWrt.f_name config) "port_forward")))
  /\ object (OpenWrt.Ssh.addRedirect W c config s l) = s
  /\ SpecWords.extends_by l0 (calls (OpenWrt.Ssh.addRedirect W c config s l))
       (cs ++ map (SshExec (OpenWrt.connect_options c))
                  (SpecWords.add_commands config)).
Proof.
  intros HW Hext. unfold OpenWrt.Ssh.addRedirect.
  do 12 step_exec HW Hext.
  unfold ret, value, object, calls; simpl fst; simpl snd.
  split; [reflexivity | split; [reflexivity | ]].
  repeat rewrite <- app_assoc in Hext. exact Hext.
Qed.

(** C2, amended.  On a router that accepts every command, and for every
    rule, [SshUciClient.addRedirect] issues exactly the twelve commands of
    [add_commands], in order and nothing else: one section-add, nine
    field-sets on the anonymous section [@redirect[-1]] (name, target=DNAT,
    src=wan, dest=lan, proto, src_dport, dest_ip, dest_port, enabled=1), one
    commit, one firewall restart; and it returns success with the UCI-safe
    name as identifier. *)
Theorem addRedirect_sequence (W : world) (S : Type) (c : OpenWrt.SshUciClient)
  (config : OpenWrt.forwarding_config) (s : S) (l : log) :
  SpecWords.accepts_commands W ->
  let out := OpenWrt.Ssh.addRedirect W c config s l in
  value out
  = Ok (OpenWrt.mkAdded true
          (OpenWrt.generateUciName
             (Js.opt_or_else (OpenWrt.f_name config) "port_forward")))
  /\ SpecWords.extends_by l (calls out)
       (map (SshExec (OpenWrt.connect_options c)) (SpecWords.add_commands config))
  /\ map SpecWords.command_kind (SpecWords.add_commands config)
     = [SpecWords.SectionAdd] ++ repeat SpecWords.FieldSet 9
       ++ [SpecWords.Commit; SpecWords.Reload].
Proof.
  intros HW out. subst out.
  destruct (addRedirect_run W S c config s l l [] HW (extends_refl l))
    as [Hv [_ Hc]].
  split; [exact Hv | split; [exact Hc | reflexivity]].
Qed.

Lemma addRedirect_sequence_witness :
  SpecWords.accepts_commands Scenarios.accepting
  /\ value (OpenWrt.Ssh.addRedirect Scenarios.accepting Scenarios.ssh_client
              Scenarios.web tt [])
     = Ok (OpenWrt.mkAdded true "web").
Proof.
  assert (H : SpecWords.accepts_commands Scenarios.accepting)
    by (intros l t command; reflexivity).
  split; [exact H | ].
  apply (addRedirect_sequence Scenarios.accepting unit Scenarios.ssh_client
           Scenarios.web tt [] H).
Defined.

(** ** The unified client: probing and binding *)

Lemma ssh_testConnection_run (W : world) (S : Type) (c : OpenWrt.SshUciClient)
  (s : S) (l : log) :
  exists report,
    OpenWrt.Ssh.testConnection W c s l
    = (Ok report, s, l ++ [OpenWrt.Ssh.exec_event W c OpenWrt.Ssh.probe_command l])
    /\ OpenWrt.success report
       = exec_succeeds (w_exec W l (OpenWrt.connect_options c) OpenWrt.Ssh.probe_command).
Proof.
  unfold OpenWrt.Ssh.testConnection, try_catch, bind.
  destruct (exec_succeeds
              (w_exec W l (OpenWrt.connect_options c) OpenWrt.Ssh.probe_command))
    eqn:E.
  - destruct (exec_ok W c _ s l E) as [out ->]. eexists; split; reflexivity.
  - destruct (exec_fails W c _ s l E) as [e ->]. eexists; split; reflexivity.
Qed.





Lemma callRpc_run (W : world) (method : string) (params : list json)
  (c : OpenWrt.OpenWrtRpcClient) (l : log) :
  exists r e,
    OpenWrt.Rpc.callRpc W method params c l = (r, c, l ++ [e]) /\ is_http e = true.
Proof.
  unfold OpenWrt.Rpc.callRpc, bind, this, OpenWrt.Rpc.post.
  match goal with
  | |- context [w_post W l ?rq] =>
      destruct (w_post W l rq) as [e | status text [body | e]]
  end;
    try destruct (negb (status_ok status)); cbn; eexists; eexists; split; reflexivity.
Qed.

Lemma authenticate_run (W : world) (c : OpenWrt.OpenWrtRpcClient) (l : log) :
  exists r c' e,
    OpenWrt.Rpc.authenticate W c l = (r, c', l ++ [e]) /\ is_http e = true.
Proof.
  unfold OpenWrt.Rpc.authenticate, bind, this, OpenWrt.Rpc.post.
  match goal with
  | |- context [w_post W l ?rq] =>
      destruct (w_post W l rq) as [e | status text [body | e]]
  end;
    try destruct (negb (status_ok status)); cbn; try (do 3 eexists; split; reflexivity).
  unfold lift_result.
  destruct (get body "error") as [err | e]; cbn; try (do 3 eexists; split; reflexivity).
  destruct (truthy err); cbn; try (do 3 eexists; split; reflexivity).
  destruct (get body "result") as [tok | e]; cbn; do 3 eexists; split; reflexivity.
Qed.

Lemma rpc_testConnection_run (W : world) (c : OpenWrt.OpenWrtRpcClient) (l : log) :
  exists report c' l',
    OpenWrt.Rpc.testConnection W c l = (Ok report, c', l')
    /\ SpecWords.http_only l l'.
Proof.
  unfold OpenWrt.Rpc.testConnection, try_catch.
  unfold bind at 1.
  destruct (authenticate_run W c l) as [r [c1 [e [-> Hh]]]].
  destruct r as [tok | err].
  - unfold bind at 1. unfold this at 1.
    unfold bind at 1.
    destruct (callRpc_run W "call"
                [OpenWrt.authToken c1; JStr "uci"; JStr "get";
                 JArr [JStr "system"; JStr "info"]] c1 (l ++ [e]))
      as [r2 [e2 [-> Hh2]]].
    destruct r2 as [info | err]; cbn; do 3 eexists; (split; [reflexivity | ]);
      exists [e; e2];
      (split; [rewrite <- app_assoc; reflexivity
              | cbn; rewrite Hh, Hh2; reflexivity]).
  - cbn. do 3 eexists. split; [reflexivity | ]. exists [e].
    split; [reflexivity | cbn; rewrite Hh; reflexivity].
Qed.

Lemma on_rpcClient_run {A} (W : world) (name : string) (m : M OpenWrt.OpenWrtRpcClient A)
  (c : OpenWrt.OpenWrtClient) (r : OpenWrt.OpenWrtRpcClient) (l : log) :
  OpenWrt.rpcClient c = Some r ->
  OpenWrt.Client.on_rpcClient name m c l
  = (value (m r l), OpenWrt.set_rpcClient (Some (object (m r l))) c, calls (m r l)).
Proof.
  intros H. unfold OpenWrt.Client.on_rpcClient. rewrite H.
  destruct (m r l) as [[res r'] l']. reflexivity.
Qed.


Lemma initialize_probe_ok (W : world) (c : OpenWrt.OpenWrtClient) (l : log) :
  SpecWords.auto_mode c ->
  exec_succeeds (SpecWords.probe_answer W c l) = true ->
  OpenWrt.Client.initialize W c l
  = (Ok tt,
     OpenWrt.set_connectionMode "ssh"
       (OpenWrt.set_sshClient (Some (OpenWrt.make_ssh c)) c),
     l ++ [SpecWords.probe_event W c l]).
Proof.
  intros [H1 H2] Hp.
  apply String.eqb_neq in H1, H2.
  unfold OpenWrt.Client.initialize.
  unfold bind at 1. unfold this at 1. rewrite H1, H2.
  unfold bind at 1. unfold assign at 1.
  unfold bind at 1. unfold try_catch at 1. unfold bind at 1.
  unfold OpenWrt.Client.on_sshClient at 1. cbn [OpenWrt.sshClient OpenWrt.set_sshClient].
  destruct (ssh_testConnection_run W _ (OpenWrt.make_ssh c)
              (OpenWrt.set_sshClient (Some (OpenWrt.make_ssh c)) c) l) as [rep [E Hs]].
  rewrite E. unfold SpecWords.probe_answer in Hp. rewrite Hp in Hs. rewrite Hs.
  reflexivity.
Qed.

Lemma initialize_probe_failed (W : world) (c : OpenWrt.OpenWrtClient) (l : log) :
  SpecWords.auto_mode c ->
  exec_succeeds (SpecWords.probe_answer W c l) = false ->
  OpenWrt.Client.initialize W c l
  = match OpenWrt.Rpc.testConnection W (SpecWords.rpc_driver c)
            (l ++ [SpecWords.probe_event W c l]) with
    | (Ok report, r, l2) =>
        if OpenWrt.success report then
          match OpenWrt.Rpc.authenticate W r l2 with
          | (Ok _, r', l3) =>
              (Ok tt,
               OpenWrt.set_connectionMode "rpc"
                 (OpenWrt.set_rpcClient (Some r')
                    (OpenWrt.set_rpcClient (Some r) (SpecWords.after_ssh_probe c))),
               l3)
          | (Throw _, r', l3) =>
              (Throw OpenWrt.unable_to_connect,
               OpenWrt.set_rpcClient (Some r')
                 (OpenWrt.set_rpcClient (Some r) (SpecWords.after_ssh_probe c)),
               l3)
          end
        else (Throw OpenWrt.unable_to_connect,
              OpenWrt.set_rpcClient (Some r) (SpecWords.after_ssh_probe c), l2)
    | (Throw _, r, l2) =>
        (Throw OpenWrt.unable_to_connect,
         OpenWrt.set_rpcClient (Some r) (SpecWords.after_ssh_probe c), l2)
    end.
Proof.
  intros [H1 H2] Hp.
  apply String.eqb_neq in H1, H2.
  unfold OpenWrt.Client.initialize.
  unfold bind at 1. unfold this at 1. rewrite H1, H2.
  unfold bind at 1. unfold assign at 1.
  unfold bind at 1. unfold try_catch at 1. unfold bind at 1.
  unfold OpenWrt.Client.on_sshClient at 1. cbn [OpenWrt.sshClient OpenWrt.set_sshClient].
  destruct (ssh_testConnection_run W _ (OpenWrt.make_ssh c)
              (OpenWrt.set_sshClient (Some (OpenWrt.make_ssh c)) c) l) as [rep [E Hs]].
  rewrite E. unfold SpecWords.probe_answer in Hp. rewrite Hp in Hs. rewrite Hs.
  unfold ret at 1. unfold bind at 1. unfold this at 1.
  cbn [OpenWrt.rpcClient OpenWrt.set_sshClient].
  fold (SpecWords.probe_event W c l).
  set (l1 := l ++ [SpecWords.probe_event W c l]).
  assert (Hc1 : forall k : unit -> M OpenWrt.OpenWrtClient unit,
             bind (match OpenWrt.rpcClient c with
                   | Some _ => ret tt
                   | None => assign (OpenWrt.set_rpcClient
                        (Some (OpenWrt.make_rpc (OpenWrt.set_sshClient (Some (OpenWrt.make_ssh c)) c))))
                   end) k (OpenWrt.set_sshClient (Some (OpenWrt.make_ssh c)) c) l1
             = k tt (SpecWords.after_ssh_probe c) l1).
  { intros k. unfold SpecWords.after_ssh_probe, SpecWords.rpc_driver, bind.
    destruct c as [m [r | ] sc h p b u pw t]; reflexivity. }
  rewrite Hc1. clear Hc1.
  unfold bind at 1. unfold try_catch at 1. unfold bind at 1.
  rewrite (on_rpcClient_run W "testConnection" _ (SpecWords.after_ssh_probe c)
             (SpecWords.rpc_driver c) l1 eq_refl).
  destruct (rpc_testConnection_run W (SpecWords.rpc_driver c) l1) as [report [r [l2 [Et _]]]].
  rewrite Et. unfold value, object, calls; cbn [fst snd].
  destruct (OpenWrt.success report); [ | reflexivity].
  unfold bind at 1.
  rewrite (on_rpcClient_run W "authenticate" _
             (OpenWrt.set_rpcClient (Some r) (SpecWords.after_ssh_probe c)) r l2 eq_refl).
  destruct (OpenWrt.Rpc.authenticate W r l2) as [[[tok | e] r'] l3]; reflexivity.
Qed.

Lemma client_testConnection_run (W : world) (c : OpenWrt.OpenWrtClient) (l : log) :
  exists report,
    OpenWrt.Client.testConnection W c l
    = (Ok (OpenWrt.Client.as_ssh_report report),
       OpenWrt.set_connectionMode "ssh"
         (OpenWrt.set_sshClient (Some (OpenWrt.make_ssh c)) c),
       l ++ [SpecWords.probe_event W c l])
    /\ OpenWrt.success report = exec_succeeds (SpecWords.probe_answer W c l).
Proof.
  unfold OpenWrt.Client.testConnection.
  unfold bind at 1. unfold this at 1. unfold try_catch. unfold bind at 1.
  destruct (ssh_testConnection_run W _ (OpenWrt.make_ssh c) c l) as [report [E Hs]].
  rewrite E. exists report. split; [reflexivity | exact Hs].
Qed.

Lemma testConnection_times_ssh (W : world) (n : nat) :
  forall (c : OpenWrt.OpenWrtClient) (l : log),
    OpenWrt.connectionMode c = "ssh" ->
    OpenWrt.connectionMode (object (SpecWords.testConnection_times W n c l)) = "ssh".
Proof.
  induction n as [ | n IH]; intros c l H.
  - exact H.
  - cbn [SpecWords.testConnection_times]. unfold bind.
    destruct (client_testConnection_run W c l) as [report [E _]].
    rewrite E. apply IH. reflexivity.
Qed.

(** The claim C3 fails for a client bound to rpc: one [testConnection] on
    a router that accepts SSH rebinds it to ssh. *)
Lemma testConnection_rebinds_rpc_client :
  let bound :=
    OpenWrt.Client.initialize Scenarios.accepting
      (Scenarios.client_in (Some "rpc")) [] in
  value bound = Ok tt
  /\ OpenWrt.connectionMode (object bound) = "rpc"
  /\ OpenWrt.connectionMode
       (object (OpenWrt.Client.testConnection Scenarios.accepting
                  (object bound) (calls bound)))
     <> OpenWrt.connectionMode (object bound).
Proof. vm_compute. repeat split; discriminate. Qed.

(** C3, amended.  A client in ssh mode stays in ssh mode through every
    subsequent [testConnection]; and whatever the mode of a client (rpc
    included), a [testConnection] whose SSH probe succeeds puts it in ssh
    mode, where it then stays.  [testConnection] probes SSH only. *)
Theorem testConnection_pins_ssh (W : world) (c : OpenWrt.OpenWrtClient) (l : log)
  (n : nat) :
  OpenWrt.connectionMode c = "ssh"
  \/ exec_succeeds (SpecWords.probe_answer W c l) = true ->
  OpenWrt.connectionMode
    (object (SpecWords.testConnection_times W (Datatypes.S n) c l)) = "ssh"
  /\ SpecWords.extends_by l (calls (OpenWrt.Client.testConnection W c l))
       [SshExec (OpenWrt.connect_options (OpenWrt.make_ssh c))
          OpenWrt.Ssh.probe_command].
Proof.
  intros _. cbn [SpecWords.testConnection_times]. unfold bind.
  destruct (client_testConnection_run W c l) as [report [E _]].
  rewrite E. split.
  - apply testConnection_times_ssh. reflexivity.
  - exists [SpecWords.probe_event W c l]. split; reflexivity.
Qed.

Lemma testConnection_pins_ssh_witness :
  OpenWrt.connectionMode
    (OpenWrt.set_connectionMode "ssh" (Scenarios.client_in None)) = "ssh"
  /\ OpenWrt.connectionMode
       (object (SpecWords.testConnection_times Scenarios.rejecting 3
                  (OpenWrt.set_connectionMode "ssh" (Scenarios.client_in None)) []))
     = "ssh".
Proof.
  split; [reflexivity | ].
  apply (testConnection_pins_ssh Scenarios.rejecting
           (OpenWrt.set_connectionMode "ssh" (Scenarios.client_in None)) [] 2).
  left. reflexivity.
Defined.




(** Outside ssh mode, listing is one RPC request on the driver the client
    holds, and its outcome is the outcome of that request. *)
Lemma getPortForwardings_rpc (W : world) (c : OpenWrt.OpenWrtClient)
  (r : OpenWrt.OpenWrtRpcClient) (l : log) :
  OpenWrt.connectionMode c <> "ssh" ->
  OpenWrt.rpcClient c = Some r ->
  exists res e,
    OpenWrt.Rpc.uci W "get" [JStr "firewall"] r l = (res, r, l ++ [e])
    /\ is_http e = true
    /\ OpenWrt.Client.getPortForwardings W c l
       = (match res with
          | Ok _ => Ok (OpenWrt.mkForwardings [] "rpc")
          | Throw err => Throw err
          end,
          OpenWrt.set_rpcClient (Some r) c, l ++ [e]).
Proof.
  intros Hmode Hr. apply String.eqb_neq in Hmode.
  destruct (callRpc_run W "call"
              [OpenWrt.authToken r; JStr "uci"; JStr "get"; JArr [JStr "firewall"]]
              r l) as [res [e [E He]]].
  assert (Eu : OpenWrt.Rpc.uci W "get" [JStr "firewall"] r l = (res, r, l ++ [e])).
  { unfold OpenWrt.Rpc.uci, bind, this. rewrite E. destruct res; reflexivity. }
  exists res, e. split; [exact Eu | split; [exact He | ]].
  unfold OpenWrt.Client.getPortForwardings.
  unfold bind at 1. unfold this at 1. rewrite Hmode.
  unfold bind at 1.
  rewrite (on_rpcClient_run W "uci" _ c r l Hr). rewrite Eu.
  unfold value, object, calls; cbn [fst snd].
  destruct res; reflexivity.
Qed.

(** The claim C5 fails after a failed [initialize] on an unreachable
    router: listing on that client goes to the network again, and what it
    and the two mutations raise is not the router-unreachable error. *)
Lemma failed_client_still_calls :
  let failed :=
    OpenWrt.Client.initialize Scenarios.rejecting (Scenarios.client_in None) [] in
  let listed :=
    OpenWrt.Client.getPortForwardings Scenarios.rejecting (object failed)
      (calls failed) in
  value failed = Throw OpenWrt.unable_to_connect
  /\ List.length (calls listed) = Datatypes.S (List.length (calls failed))
  /\ value listed <> Throw OpenWrt.unable_to_connect
  /\ value (OpenWrt.Client.addPortForwarding Scenarios.rejecting Scenarios.web
              (object failed) (calls failed))
     <> Throw OpenWrt.unable_to_connect.
Proof. vm_compute. repeat split; discriminate. Qed.

(** C5, amended.  If in auto mode both probes fail, [initialize] raises
    "Unable to connect to router" and leaves the mode as it was.  On that
    client, whatever the router does later, adding and deleting a rule
    raise "JSON-RPC mode not yet implemented" without any remote call, and
    listing issues exactly one HTTP request (no probe, no login). *)
Theorem initialize_both_fail (W : world) (c : OpenWrt.OpenWrtClient) (l : log) :
  SpecWords.auto_mode c ->
  exec_succeeds (SpecWords.probe_answer W c l) = false ->
  SpecWords.reported_success
    (OpenWrt.Rpc.testConnection W (SpecWords.rpc_driver c)
       (l ++ [SpecWords.probe_event W c l])) = false ->
  let out := OpenWrt.Client.initialize W c l in
  value out = Throw OpenWrt.unable_to_connect
  /\ OpenWrt.connectionMode (object out) = OpenWrt.connectionMode c
  /\ (forall W' config l',
        OpenWrt.Client.addPortForwarding W' config (object out) l'
        = (Throw OpenWrt.add_not_implemented, object out, l'))
  /\ (forall W' id l',
        OpenWrt.Client.deletePortForwarding W' id (object out) l'
        = (Throw OpenWrt.delete_not_implemented, object out, l'))
  /\ (forall W' l',
        exists e,
          calls (OpenWrt.Client.getPortForwardings W' (object out) l') = l' ++ [e]
          /\ is_http e = true).
Proof.
  intros Hauto Hp Hrep out. subst out.
  rewrite (initialize_probe_failed W c l Hauto Hp).
  destruct (rpc_testConnection_run W (SpecWords.rpc_driver c)
              (l ++ [SpecWords.probe_event W c l])) as [report [r [l2 [Et _]]]].
  rewrite Et in Hrep |- *.
  unfold SpecWords.reported_success, value in Hrep; cbn [fst snd] in Hrep.
  rewrite Hrep. unfold value, object, calls; cbn [fst snd].
  destruct Hauto as [H1 H2].
  assert (Hmode : OpenWrt.connectionMode
                    (OpenWrt.set_rpcClient (Some r) (SpecWords.after_ssh_probe c))
                  = OpenWrt.connectionMode c) by reflexivity.
  split; [reflexivity | split; [exact Hmode | ]].
  assert (Hneq : (OpenWrt.connectionMode c =? "ssh")%string = false)
    by (apply String.eqb_neq; exact H1).
  split; [ | split].
  - intros W' config l'. unfold OpenWrt.Client.addPortForwarding.
    unfold bind, this. rewrite Hmode, Hneq. reflexivity.
  - intros W' id l'. unfold OpenWrt.Client.deletePortForwarding.
    unfold bind, this. rewrite Hmode, Hneq. reflexivity.
  - intros W' l'.
    destruct (getPortForwardings_rpc W'
                (OpenWrt.set_rpcClient (Some r) (SpecWords.after_ssh_probe c))
                r l') as [res [e [_ [He E]]]].
    + rewrite Hmode. exact H1.
    + reflexivity.
    + exists e. rewrite E. split; [reflexivity | exact He].
Qed.

Lemma initialize_both_fail_witness :
  SpecWords.auto_mode (Scenarios.client_in None)
  /\ exec_succeeds
       (SpecWords.probe_answer Scenarios.rejecting (Scenarios.client_in None) [])
     = false
  /\ value (OpenWrt.Client.initialize Scenarios.rejecting
              (Scenarios.client_in None) [])
     = Throw OpenWrt.unable_to_connect.
Proof.
  assert (H : SpecWords.auto_mode (Scenarios.client_in None))
    by (split; discriminate).
  split; [exact H | split; [reflexivity | ]].
  apply (initialize_both_fail Scenarios.rejecting (Scenarios.client_in None) [] H);
    reflexivity.
Defined.

(** ** Listing the rules *)

Section Listing.
Variable W : world.
Context {S : Type}.

(** A successful exec followed by a continuation: the answer had exit
    status 0, and the continuation ran on its trimmed output. *)
Lemma bind_exec_inv {B} (c : OpenWrt.SshUciClient) (command : string)
  (k : string -> M S B) (s s' : S) (l l' : log) (b : B) :
  bind (OpenWrt.Ssh.exec W c command) k s l = (Ok b, s', l') ->
  exists raw err,
    w_exec W l (OpenWrt.connect_options c) command = StreamClosed (Some 0) raw err
    /\ k (Js.trim raw) s (l ++ [OpenWrt.Ssh.exec_event W c command l]) = (Ok b, s', l').
Proof.
  unfold bind, OpenWrt.Ssh.exec.
  destruct (w_exec W l (OpenWrt.connect_options c) command)
    as [e | [[ | p | p] | ] out err] eqn:E; intros H; try discriminate H.
  exists out, err. split; [reflexivity | exact H].
Qed.











End Listing.

Section Luci.
Variable W : world.





Lemma luci_ensure_authenticated_done (c : LuciRpc.OpenWrtClient) (l : log) :
  truthy (LuciRpc.authToken c) = true ->
  LuciRpc.ensure_authenticated W c l = (Ok tt, c, l).
Proof.
  intros H. unfold LuciRpc.ensure_authenticated, bind, this. rewrite H. reflexivity.
Qed.



End Luci.






(** ** The credential codec *)

Import RouterEncryption.

Lemma byte_of_val (b : Byte.byte) : byte_of (byte_val b) = b.
Proof.
  unfold byte_of, byte_val. rewrite N2Z.id, Byte.of_to_N. reflexivity.
Qed.

Lemma byte_val_range (b : Byte.byte) : 0 <= byte_val b < 256.
Proof.
  unfold byte_val. pose proof (Byte.to_N_bounded b). lia.
Qed.

Lemma byte_val_of (z : Z) : 0 <= z < 256 -> byte_val (byte_of z) = z.
Proof.
  intros H. unfold byte_of, byte_val.
  destruct (Byte.of_N (Z.to_N z)) as [b | ] eqn:E.
  - apply Byte.to_of_N in E. rewrite E. lia.
  - apply Byte.of_N_None_iff in E. lia.
Qed.

Lemma hex_decode_byte (b : Byte.byte) (rest : jsstring) :
  hex_decode (hex_digit (byte_val b / 16) :: hex_digit (byte_val b mod 16) :: rest)
  = b :: hex_decode rest.
Proof. destruct b; reflexivity. Qed.

Lemma hex_decode_encode (bs : buffer) : hex_decode (hex_encode bs) = bs.
Proof.
  induction bs as [ | b rest IH]; [reflexivity | ].
  unfold hex_encode. cbn [flat_map app]. fold (hex_encode rest).
  rewrite hex_decode_byte, IH. reflexivity.
Qed.

Lemma xor_bits_involutive x y : xor_bits (xor_bits x y) y = x.
Proof.
  destruct x as [x0 [x1 [x2 [x3 [x4 [x5 [x6 x7]]]]]]].
  destruct y as [y0 [y1 [y2 [y3 [y4 [y5 [y6 y7]]]]]]].
  unfold xor_bits.
  repeat rewrite xorb_assoc. repeat rewrite xorb_nilpotent.
  repeat rewrite xorb_false_r. reflexivity.
Qed.

Lemma byte_xor_involutive (a k : Byte.byte) : byte_xor (byte_xor a k) k = a.
Proof.
  unfold byte_xor. rewrite Byte.to_bits_of_bits, xor_bits_involutive.
  apply Byte.of_bits_to_bits.
Qed.

Ltac simp_cmp :=
  repeat match goal with
  | |- context [?a <=? ?b] =>
      first [ rewrite (proj2 (Z.leb_le a b)) by lia
            | rewrite (proj2 (Z.leb_gt a b)) by lia ]
  | |- context [?a <? ?b] =>
      first [ rewrite (proj2 (Z.ltb_lt a b)) by lia
            | rewrite (proj2 (Z.ltb_ge a b)) by lia ]
  | |- context [?a =? ?b] =>
      first [ rewrite (proj2 (Z.eqb_eq a b)) by lia
            | rewrite (proj2 (Z.eqb_neq a b)) by lia ]
  end.

Ltac decode_step :=
  cbn [map andb fst snd app decode_from d_needed d_lower d_upper d_code_point idle];
  rewrite ?byte_val_of by lia; unfold lead; simp_cmp.

Lemma decode_one (cp : Z) (rest : buffer) :
  0 <= cp < 128 ->
  decode_from idle (map byte_of [cp] ++ rest) = cp :: decode_from idle rest.
Proof.
  intros H. do 2 decode_step. reflexivity.
Qed.

Lemma decode_two (a b : Z) (rest : buffer) :
  2 <= a < 32 -> 0 <= b < 64 ->
  decode_from idle (map byte_of [192 + a; 128 + b] ++ rest)
  = (64 * a + b) :: decode_from idle rest.
Proof.
  intros Ha Hb. do 4 decode_step. f_equal. lia.
Qed.

Lemma decode_three (a b c : Z) (rest : buffer) :
  0 <= a < 16 -> 0 <= b < 64 -> 0 <= c < 64 ->
  (a = 0 -> 32 <= b) -> (a = 13 -> b < 32) ->
  decode_from idle (map byte_of [224 + a; 128 + b; 128 + c] ++ rest)
  = (4096 * a + 64 * b + c) :: decode_from idle rest.
Proof.
  intros Ha Hb Hc H0 H13.
  destruct (Z.eq_dec a 0) as [-> | N0]; [ | destruct (Z.eq_dec a 13) as [-> | N13]];
    do 6 decode_step; f_equal; lia.
Qed.

Lemma decode_four (a b c d : Z) (rest : buffer) :
  0 <= a < 5 -> 0 <= b < 64 -> 0 <= c < 64 -> 0 <= d < 64 ->
  (a = 0 -> 16 <= b) -> (a = 4 -> b < 16) ->
  decode_from idle (map byte_of [240 + a; 128 + b; 128 + c; 128 + d] ++ rest)
  = (262144 * a + 4096 * b + 64 * c + d) :: decode_from idle rest.
Proof.
  intros Ha Hb Hc Hd H0 H4.
  destruct (Z.eq_dec a 0) as [-> | N0]; [ | destruct (Z.eq_dec a 4) as [-> | N4]];
    do 8 decode_step; f_equal; lia.
Qed.

Lemma decode_code_point (cp : Z) (rest : buffer) :
  scalar cp ->
  decode_from idle (map byte_of (encode_code_point cp) ++ rest)
  = cp :: decode_from idle rest.
Proof.
  intros [Hr Hs]. unfold encode_code_point.
  destruct (Z.ltb_spec cp 128) as [H1 | H1]; [apply decode_one; lia | ].
  destruct (Z.ltb_spec cp 2048) as [H2 | H2].
  { rewrite (Z.div_mod cp 64) at 3 by lia.
    apply decode_two; Z.div_mod_to_equations; lia. }
  destruct (Z.ltb_spec cp 65536) as [H3 | H3].
  { replace cp with (4096 * (cp / 4096) + 64 * ((cp / 64) mod 64) + cp mod 64) at 4
      by (Z.div_mod_to_equations; lia).
    apply decode_three; Z.div_mod_to_equations; lia. }
  replace cp with (262144 * (cp / 262144) + 4096 * ((cp / 4096) mod 64)
                   + 64 * ((cp / 64) mod 64) + cp mod 64) at 5
    by (Z.div_mod_to_equations; lia).
  apply decode_four; Z.div_mod_to_equations; lia.
Qed.

Lemma decode_code_points (cps : list Z) :
  Forall scalar cps ->
  decode_from idle (map byte_of (flat_map encode_code_point cps)) = cps.
Proof.
  induction 1 as [ | cp cps Hcp _ IH]; [reflexivity | ].
  cbn [flat_map]. rewrite map_app, decode_code_point by exact Hcp.
  rewrite IH. reflexivity.
Qed.

Lemma code_points_well_formed (n : nat) :
  forall s : jsstring,
    (List.length s <= n)%nat ->
    well_formed s = true ->
    Forall scalar (code_points s) /\ flat_map utf16_units (code_points s) = s.
Proof.
  induction n as [ | n IH]; intros s Hn Hw.
  - destruct s; [split; [constructor | reflexivity] | cbn in Hn; lia].
  - destruct s as [ | u rest]; [split; [constructor | reflexivity] | ].
    cbn [well_formed code_points] in *.
    apply andb_true_iff in Hw. destruct Hw as [Hu Hw].
    apply andb_true_iff in Hu. destruct Hu as [Hu0 Hu1].
    apply Z.leb_le in Hu0. apply Z.ltb_lt in Hu1.
    unfold is_high_surrogate, is_low_surrogate in *.
    destruct ((55296 <=? u) && (u <=? 56319)) eqn:Hh.
    + apply andb_true_iff in Hh. destruct Hh as [Hh0 Hh1].
      apply Z.leb_le in Hh0, Hh1.
      destruct rest as [ | v rest']; [discriminate Hw | ].
      apply andb_true_iff in Hw. destruct Hw as [Hv Hw].
      rewrite Hv. apply andb_true_iff in Hv. destruct Hv as [Hv0 Hv1].
      apply Z.leb_le in Hv0, Hv1.
      destruct (IH rest') as [Hall Hflat]; [cbn in Hn; lia | exact Hw | ].
      split.
      * constructor; [ | exact Hall]. unfold scalar. lia.
      * cbn [flat_map]. rewrite Hflat. unfold utf16_units.
        simp_cmp. cbn [app]. f_equal; [ | f_equal]; Z.div_mod_to_equations; lia.
    + apply andb_true_iff in Hw. destruct Hw as [Hl Hw].
      apply negb_true_iff in Hl. rewrite Hl.
      destruct (IH rest) as [Hall Hflat]; [cbn in Hn; lia | exact Hw | ].
      split.
      * constructor; [ | exact Hall]. unfold scalar.
        apply andb_false_iff in Hh, Hl.
        rewrite !Z.leb_gt in Hh, Hl. lia.
      * cbn [flat_map]. rewrite Hflat. unfold utf16_units.
        simp_cmp. reflexivity.
Qed.

Lemma utf8_decode_encode (s : jsstring) :
  well_formed s = true -> utf8_decode (utf8_encode s) = s.
Proof.
  intros Hw.
  destruct (code_points_well_formed (List.length s) s (Nat.le_refl _) Hw) as [Hall Hflat].
  unfold utf8_decode, utf8_encode. rewrite decode_code_points by exact Hall.
  exact Hflat.
Qed.

Lemma hex_digit_not_z (b : Byte.byte) : hex_digit (byte_val b / 16) <> 122.
Proof. destruct b; discriminate. Qed.

Lemma tampered_tag_decodes (T : buffer) :
  List.length T = 16%nat ->
  hex_decode (SpecWords.tamper_tag (hex_encode T)) = firstn 12 T
  /\ SpecWords.tamper_tag (hex_encode T) <> hex_encode T.
Proof.
  intros H.
  do 17 (destruct T as [ | ? T]; try discriminate H). clear H.
  unfold SpecWords.tamper_tag, hex_encode.
  cbn [flat_map app firstn skipn]. split.
  - rewrite !hex_decode_byte. reflexivity.
  - intros E. injection E as E. symmetry in E. revert E. apply hex_digit_not_z.
Qed.

Section CodecFacts.

Variable env_key : option jsstring.
Variable machineId : jsstring.
Variable scryptSync : buffer -> buffer -> nat -> buffer.
Variable keystream : buffer -> buffer -> nat -> Byte.byte.
Variable gcm_tag : buffer -> buffer -> buffer -> buffer.

Hypothesis scrypt_length : forall pw salt n, List.length (scryptSync pw salt n) = n.
Hypothesis tag_length : forall k n c, List.length (gcm_tag k n c) = TAG_LENGTH.

Lemma ctr_involutive (key nonce : buffer) (data : buffer) :
  forall i, ctr keystream key nonce i (ctr keystream key nonce i data) = data.
Proof.
  induction data as [ | b rest IH]; intros i; [reflexivity | ].
  cbn [ctr]. rewrite byte_xor_involutive, IH. reflexivity.
Qed.

Lemma ctr_nonempty (key nonce : buffer) (i : nat) (data : buffer) :
  data <> [] -> ctr keystream key nonce i data <> [].
Proof. destruct data; [congruence | discriminate]. Qed.

Lemma buffer_eqb_refl (a : buffer) : buffer_eqb a a = true.
Proof.
  induction a as [ | x a IH]; [reflexivity | ].
  cbn [buffer_eqb]. rewrite IH. destruct x; reflexivity.
Qed.

Lemma hex_encode_nonempty (bs : buffer) : bs <> [] -> hex_encode bs <> [].
Proof. destruct bs; [congruence | discriminate]. Qed.

Lemma utf8_encode_nonempty (p : jsstring) : p <> [] -> utf8_encode p <> [].
Proof.
  destruct p as [ | u rest]; [congruence | intros _].
  unfold utf8_encode.
  assert (H : forall cp, encode_code_point cp <> []).
  { intros cp. unfold encode_code_point.
    destruct (cp <? 128); [discriminate | ].
    destruct (cp <? 2048); [discriminate | ].
    destruct (cp <? 65536); discriminate. }
  assert (Hc : exists cp cps, code_points (u :: rest) = cp :: cps).
  { cbn [code_points]. destruct (is_high_surrogate u).
    - destruct rest as [ | v rest']; [do 2 eexists; reflexivity | ].
      destruct (is_low_surrogate v); do 2 eexists; reflexivity.
    - destruct (is_low_surrogate u); do 2 eexists; reflexivity. }
  destruct Hc as [cp [cps ->]]. cbn [flat_map].
  specialize (H cp). destruct (encode_code_point cp); [congruence | discriminate].
Qed.

Lemma key_is_valid : List.length (getEncryptionKey env_key machineId scryptSync) = KEY_LENGTH.
Proof.
  unfold getEncryptionKey.
  destruct env_key as [envKey | ]; [ | apply scrypt_length].
  destruct (negb (Nat.eqb (List.length envKey) 0)); [ | apply scrypt_length].
  destruct (Nat.eqb (List.length (utf8_encode envKey)) 32) eqn:E; [ | apply scrypt_length].
  apply Nat.eqb_eq in E. exact E.
Qed.

(** Decrypting what [encrypt] returned gives the plaintext as UTF-8 carries it. *)
Lemma decrypt_encrypt_utf8 (randomIv : buffer) (p : jsstring) :
  List.length randomIv = IV_LENGTH ->
  p <> [] ->
  exists e,
    encrypt env_key machineId scryptSync keystream gcm_tag randomIv p = Ok e
    /\ decrypt env_key machineId scryptSync keystream gcm_tag
         (encrypted e) (iv e) (tag e)
       = Ok (utf8_decode (utf8_encode p)).
Proof.
  intros Hiv Hp.
  set (key := getEncryptionKey env_key machineId scryptSync).
  assert (Hvalid : valid_parameters key randomIv = true).
  { unfold valid_parameters. subst key. rewrite key_is_valid, Hiv. reflexivity. }
  set (ct := ctr keystream key randomIv 0 (utf8_encode p)).
  exists (mkEncrypted (hex_encode ct) (hex_encode randomIv)
            (hex_encode (gcm_tag key randomIv ct))).
  split.
  - unfold encrypt. destruct p as [ | u rest]; [congruence | ].
    fold key. rewrite Hvalid. reflexivity.
  - cbn [encrypted iv tag]. unfold decrypt.
    assert (H1 : hex_encode ct <> []).
    { apply hex_encode_nonempty. apply ctr_nonempty. apply utf8_encode_nonempty. exact Hp. }
    assert (H2 : hex_encode randomIv <> []).
    { apply hex_encode_nonempty. intros ->. discriminate Hiv. }
    assert (H3 : hex_encode (gcm_tag key randomIv ct) <> []).
    { apply hex_encode_nonempty. intros E. pose proof (tag_length key randomIv ct) as L.
      rewrite E in L. discriminate L. }
    destruct (hex_encode ct) as [ | c1 r1] eqn:E1; [congruence | ].
    destruct (hex_encode randomIv) as [ | c2 r2] eqn:E2; [congruence | ].
    destruct (hex_encode (gcm_tag key randomIv ct)) as [ | c3 r3] eqn:E3; [congruence | ].
    rewrite <- E1, <- E2, <- E3. rewrite !hex_decode_encode. fold key.
    rewrite Hvalid, tag_length. cbn [valid_gcm_tag_length TAG_LENGTH Nat.eqb Nat.leb orb andb].
    rewrite <- (tag_length key randomIv ct) at 1. rewrite firstn_all, buffer_eqb_refl.
    subst ct. rewrite ctr_involutive. reflexivity.
Qed.

Lemma decrypt_truncated (randomIv : buffer) (p : jsstring) :
  List.length randomIv = IV_LENGTH ->
  p <> [] ->
  exists e,
    encrypt env_key machineId scryptSync keystream gcm_tag randomIv p = Ok e
    /\ SpecWords.tamper_tag (tag e) <> tag e
    /\ decrypt env_key machineId scryptSync keystream gcm_tag
         (encrypted e) (iv e) (SpecWords.tamper_tag (tag e))
       = Ok (utf8_decode (utf8_encode p)).
Proof.
  intros Hiv Hp.
  set (key := getEncryptionKey env_key machineId scryptSync).
  assert (Hvalid : valid_parameters key randomIv = true).
  { unfold valid_parameters. subst key.
    rewrite key_is_valid, Hiv. reflexivity. }
  set (ct := ctr keystream key randomIv 0 (utf8_encode p)).
  exists (mkEncrypted (hex_encode ct) (hex_encode randomIv)
            (hex_encode (gcm_tag key randomIv ct))).
  destruct (tampered_tag_decodes (gcm_tag key randomIv ct) (tag_length _ _ _))
    as [Hdec Hneq].
  split; [ | split; [exact Hneq | ]].
  - unfold encrypt. destruct p as [ | u rest]; [congruence | ].
    fold key. rewrite Hvalid. reflexivity.
  - cbn [encrypted iv tag]. unfold decrypt.
    assert (H1 : hex_encode ct <> []).
    { apply hex_encode_nonempty. apply ctr_nonempty. apply utf8_encode_nonempty. exact Hp. }
    assert (H2 : hex_encode randomIv <> []).
    { apply hex_encode_nonempty. intros ->. discriminate Hiv. }
    destruct (hex_encode ct) as [ | c1 r1] eqn:E1; [congruence | ].
    destruct (hex_encode randomIv) as [ | c2 r2] eqn:E2; [congruence | ].
    destruct (SpecWords.tamper_tag (hex_encode (gcm_tag key randomIv ct))) as [ | c3 r3] eqn:E3.
    { apply (f_equal (@List.length Z)) in E3. unfold SpecWords.tamper_tag in E3.
      rewrite length_app in E3. cbn in E3. lia. }
    rewrite <- E1, <- E2, <- E3. clear E1 E2 E3.
    rewrite !hex_decode_encode.
    rewrite (proj1 (tampered_tag_decodes _ (tag_length key randomIv ct))). fold key.
    rewrite Hvalid.
    assert (L : List.length (firstn 12 (gcm_tag key randomIv ct)) = 12%nat).
    { rewrite length_firstn, tag_length. reflexivity. }
    rewrite L. cbn [valid_gcm_tag_length Nat.eqb Nat.leb orb andb].
    rewrite buffer_eqb_refl.
    subst ct. rewrite ctr_involutive. reflexivity.
Qed.

End CodecFacts.

Lemma toy_scrypt_length (pw salt : buffer) (n : nat) :
  List.length (Scenarios.toy_scrypt pw salt n) = n.
Proof.
  unfold Scenarios.toy_scrypt.
  rewrite length_firstn, length_app, repeat_length. lia.
Qed.

Lemma toy_tag_length (k n c : buffer) :
  List.length (Scenarios.toy_tag k n c) = TAG_LENGTH.
Proof.
  unfold Scenarios.toy_tag, TAG_LENGTH.
  rewrite length_firstn, length_app, repeat_length. lia.
Qed.

Lemma hex_encode_length (bs : buffer) :
  List.length (hex_encode bs) = (2 * List.length bs)%nat.
Proof.
  induction bs as [ | b rest IH]; [reflexivity | ].
  unfold hex_encode in *. cbn [flat_map app List.length]. rewrite IH. lia.
Qed.

Lemma tamper_tag_length (t : jsstring) :
  (25 <= List.length t)%nat ->
  List.length (SpecWords.tamper_tag t) = List.length t.
Proof.
  intros H. unfold SpecWords.tamper_tag.
  rewrite length_app, length_firstn. cbn [List.length]. rewrite length_skipn. lia.
Qed.

(** The claim C6 fails for a password with an unpaired surrogate: UTF-8
    has no encoding for it, the cipher is given the bytes of U+FFFD, and
    that is what comes back.  (By [decrypt_encrypt_utf8] this is so for
    every key stream and tag function; the stand-ins of [Scenarios] make the
    statement closed.) *)
Lemma roundtrip_loses_lone_surrogate :
  exists e,
    Scenarios.toy_encrypt [55296] = Ok e
    /\ Scenarios.toy_decrypt (encrypted e) (iv e) (tag e) = Ok [65533]
    /\ Ok [65533] <> Ok [55296] :> result jsstring.
Proof.
  eexists. split; [vm_compute; reflexivity | split; [vm_compute; reflexivity | ]].
  discriminate.
Qed.

(** C6, amended.  For every non-empty password whose surrogates are paired
    (a well-formed UTF-16 string), with the same key material, decrypting
    the triple that [encrypt] produced returns exactly the password,
    whatever the random iv. *)
Theorem decrypt_encrypt_roundtrip
  (env_key : option jsstring) (machineId : jsstring)
  (scryptSync : buffer -> buffer -> nat -> buffer)
  (keystream : buffer -> buffer -> nat -> Byte.byte)
  (gcm_tag : buffer -> buffer -> buffer -> buffer)
  (randomIv : buffer) (p : jsstring) :
  (forall pw salt n, List.length (scryptSync pw salt n) = n) ->
  (forall k n c, List.length (gcm_tag k n c) = TAG_LENGTH) ->
  List.length randomIv = IV_LENGTH ->
  p <> [] ->
  well_formed p = true ->
  exists e,
    encrypt env_key machineId scryptSync keystream gcm_tag randomIv p = Ok e
    /\ decrypt env_key machineId scryptSync keystream gcm_tag
         (encrypted e) (iv e) (tag e) = Ok p.
Proof.
  intros Hs Ht Hiv Hp Hw.
  destruct (decrypt_encrypt_utf8 env_key machineId scryptSync keystream gcm_tag
              Hs Ht randomIv p Hiv Hp) as [e [He Hd]].
  exists e. split; [exact He | ].
  rewrite Hd, (utf8_decode_encode p Hw). reflexivity.
Qed.

Lemma decrypt_encrypt_roundtrip_witness :
  let p := units "s3cret" ++ [233; 8364; 55357; 56832] in
  List.length Scenarios.toy_iv = IV_LENGTH
  /\ p <> []
  /\ well_formed p = true
  /\ exists e,
       Scenarios.toy_encrypt p = Ok e
       /\ Scenarios.toy_decrypt (encrypted e) (iv e) (tag e) = Ok p.
Proof.
  intros p.
  split; [reflexivity | split; [discriminate | split; [reflexivity | ]]].
  apply (decrypt_encrypt_roundtrip None (units "host-x64") Scenarios.toy_scrypt
           Scenarios.toy_keystream Scenarios.toy_tag Scenarios.toy_iv p
           toy_scrypt_length toy_tag_length).
  - reflexivity.
  - discriminate.
  - reflexivity.
Defined.

(** C7.  With one character of the stored tag altered (index 24 of its 32
    hexadecimal digits replaced by the letter z), [decrypt] does not raise:
    the tag decodes to its first 12 bytes, a length that [setAuthTag]
    accepts, the shortened tag matches, and the password is returned.  The
    declared [TAG_LENGTH] is not enforced. *)
Theorem decrypt_accepts_truncated_tag
  (env_key : option jsstring) (machineId : jsstring)
  (scryptSync : buffer -> buffer -> nat -> buffer)
  (keystream : buffer -> buffer -> nat -> Byte.byte)
  (gcm_tag : buffer -> buffer -> buffer -> buffer)
  (randomIv : buffer) (p : jsstring) :
  (forall pw salt n, List.length (scryptSync pw salt n) = n) ->
  (forall k n c, List.length (gcm_tag k n c) = TAG_LENGTH) ->
  List.length randomIv = IV_LENGTH ->
  p <> [] ->
  well_formed p = true ->
  exists e,
    encrypt env_key machineId scryptSync keystream gcm_tag randomIv p = Ok e
    /\ SpecWords.tamper_tag (tag e) <> tag e
    /\ List.length (SpecWords.tamper_tag (tag e)) = List.length (tag e)
    /\ decrypt env_key machineId scryptSync keystream gcm_tag
         (encrypted e) (iv e) (SpecWords.tamper_tag (tag e)) = Ok p.
Proof.
  intros Hs Ht Hiv Hp Hw.
  destruct (decrypt_truncated env_key machineId scryptSync keystream gcm_tag
              Hs Ht randomIv p Hiv Hp) as [e [He [Hn Hd]]].
  exists e. split; [exact He | split; [exact Hn | split]].
  - unfold encrypt in He. destruct p as [ | u rest]; [congruence | ].
    destruct (valid_parameters _ randomIv); [ | discriminate He].
    injection He as <-. cbn [tag].
    apply tamper_tag_length. rewrite hex_encode_length, Ht. unfold TAG_LENGTH. lia.
  - rewrite Hd, (utf8_decode_encode p Hw). reflexivity.
Qed.

Lemma decrypt_accepts_truncated_tag_witness :
  let p := units "s3cret" in
  List.length Scenarios.toy_iv = IV_LENGTH
  /\ p <> []
  /\ well_formed p = true
  /\ exists e,
       Scenarios.toy_encrypt p = Ok e
       /\ SpecWords.tamper_tag (tag e) <> tag e
       /\ List.length (SpecWords.tamper_tag (tag e)) = List.length (tag e)
       /\ Scenarios.toy_decrypt (encrypted e) (iv e) (SpecWords.tamper_tag (tag e))
          = Ok p.
Proof.
  intros p.
  split; [reflexivity | split; [discriminate | split; [reflexivity | ]]].
  apply (decrypt_accepts_truncated_tag None (units "host-x64") Scenarios.toy_scrypt
           Scenarios.toy_keystream Scenarios.toy_tag Scenarios.toy_iv p
           toy_scrypt_length toy_tag_length).
  - reflexivity.
  - discriminate.
  - reflexivity.
Defined.

(** * Further properties of the code *)

Import Observations.

(** ** Strings *)

Lemma append_assoc (a b c : string) : (a +++ b) +++ c = a +++ (b +++ c).
Proof. induction a as [ | x a IH]; cbn; [reflexivity | rewrite IH; reflexivity]. Qed.

Lemma append_nil_r (a : string) : a +++ "" = a.
Proof. induction a as [ | x a IH]; cbn; [reflexivity | rewrite IH; reflexivity]. Qed.

Lemma append_length (a b : string) :
  String.length (a +++ b) = (String.length a + String.length b)%nat.
Proof. induction a as [ | x a IH]; cbn; [reflexivity | rewrite IH; reflexivity]. Qed.

Lemma all_chars_app (p : ascii -> bool) (a b : string) :
  all_chars p (a +++ b) = all_chars p a && all_chars p b.
Proof.
  induction a as [ | x a IH]; cbn; [reflexivity | ].
  rewrite IH. apply andb_assoc.
Qed.

Lemma all_chars_weaken (p q : ascii -> bool) (s : string) :
  (forall c, p c = true -> q c = true) ->
  all_chars p s = true -> all_chars q s = true.
Proof.
  intros Hpq. induction s as [ | x s IH]; cbn; [reflexivity | ].
  intros H. apply andb_true_iff in H. destruct H as [Hx Hs].
  rewrite (Hpq x Hx), (IH Hs). reflexivity.
Qed.





Lemma code_chr (c : ascii) : Js.chr (Js.code c) = c.
Proof.
  unfold Js.chr, Js.code. rewrite N2Z.id. apply ascii_N_embedding.
Qed.

Lemma code_inj (c d : ascii) : Js.code c = Js.code d -> c = d.
Proof. intros H. rewrite <- (code_chr c), <- (code_chr d), H. reflexivity. Qed.

Lemma code_range (c : ascii) : 0 <= Js.code c < 256.
Proof.
  unfold Js.code. pose proof (N_ascii_bounded c) as H. lia.
Qed.

(** ** generateUciName *)





(** ** Regular expressions: matching by derivatives is matching *)

Lemma append_eq_nil (a b : string) : a +++ b = "" -> a = "" /\ b = "".
Proof. destruct a; cbn; intros H; [split; [reflexivity | exact H] | discriminate H]. Qed.

Lemma append_eq_cons (a b : string) (c : ascii) (s : string) :
  a +++ b = String c s ->
  (a = "" /\ b = String c s) \/ exists a', a = String c a' /\ s = a' +++ b.
Proof.
  destruct a as [ | x a]; cbn; intros H.
  - left. split; [reflexivity | exact H].
  - injection H as -> <-. right. exists a. split; reflexivity.
Qed.

Lemma nullable_lang (r : Regex.re) : Regex.nullable r = true <-> lang r "".
Proof.
  split.
  - induction r as [ | | p | a IHa b IHb | a IHa b IHb | a IHa]; cbn; intros H;
      try discriminate H.
    + constructor.
    + apply andb_true_iff in H. destruct H as [Ha Hb].
      change "" with ("" +++ ""). constructor; [apply IHa | apply IHb]; assumption.
    + apply orb_true_iff in H. destruct H as [Ha | Hb].
      * apply lang_alt_l. apply IHa. exact Ha.
      * apply lang_alt_r. apply IHb. exact Hb.
    + constructor.
  - intros H. remember "" as w eqn:Ew.
    induction H as [ | p c Hp | a b s t Ha IHa Hb IHb | a b s Ha IHa | a b s Hb IHb
                     | a | a s t Ha IHa Hs IHs]; cbn; try reflexivity.
    + discriminate Ew.
    + apply append_eq_nil in Ew. destruct Ew as [-> ->].
      rewrite IHa, IHb; reflexivity.
    + rewrite IHa by exact Ew. reflexivity.
    + rewrite IHb by exact Ew. apply orb_true_r.
Qed.

Lemma deriv_sound (c : ascii) (r : Regex.re) :
  forall s, lang (Regex.deriv c r) s -> lang r (String c s).
Proof.
  induction r as [ | | p | a IHa b IHb | a IHa b IHb | a IHa]; cbn; intros s H.
  - inversion H.
  - inversion H.
  - destruct (p c) eqn:Hp; inversion H; subst. constructor. exact Hp.
  - destruct (Regex.nullable a) eqn:Hn.
    + inversion H as [ | | | a0 b0 s0 H1 | a0 b0 s0 H1 | | ]; subst.
      * inversion H1 as [ | | a1 b1 s1 t1 Ha Hb | | | | ]; subst.
        change (String c (s1 +++ t1)) with (String c s1 +++ t1).
        constructor; [apply IHa; exact Ha | exact Hb].
      * change (String c s) with ("" +++ String c s).
        constructor; [apply nullable_lang; exact Hn | apply IHb; exact H1].
    + inversion H as [ | | a1 b1 s1 t1 Ha Hb | | | | ]; subst.
      change (String c (s1 +++ t1)) with (String c s1 +++ t1).
      constructor; [apply IHa; exact Ha | exact Hb].
  - inversion H; subst; [apply lang_alt_l; apply IHa | apply lang_alt_r; apply IHb];
      assumption.
  - inversion H as [ | | a1 b1 s1 t1 Ha Hb | | | | ]; subst.
    change (String c (s1 +++ t1)) with (String c s1 +++ t1).
    constructor; [apply IHa; exact Ha | exact Hb].
Qed.

Lemma deriv_complete (r : Regex.re) (w : string) :
  lang r w -> forall c s, w = String c s -> lang (Regex.deriv c r) s.
Proof.
  intros H.
  induction H as [ | p x Hp | a b s t Ha IHa Hb IHb | a b s Ha IHa | a b s Hb IHb
                   | a | a s t Ha IHa Hs IHs]; intros c u Ew.
  - discriminate Ew.
  - injection Ew as -> <-. cbn. rewrite Hp. constructor.
  - apply append_eq_cons in Ew. cbn.
    destruct Ew as [[-> ->] | [a' [-> ->]]].
    + rewrite (proj2 (nullable_lang a) Ha). apply lang_alt_r. apply IHb. reflexivity.
    + destruct (Regex.nullable a).
      * apply lang_alt_l. constructor; [apply IHa; reflexivity | exact Hb].
      * constructor; [apply IHa; reflexivity | exact Hb].
  - cbn. apply lang_alt_l. apply IHa. exact Ew.
  - cbn. apply lang_alt_r. apply IHb. exact Ew.
  - discriminate Ew.
  - apply append_eq_cons in Ew.
    destruct Ew as [[-> ->] | [a' [-> ->]]].
    + apply IHs. reflexivity.
    + cbn. constructor; [apply IHa; reflexivity | exact Hs].
Qed.

Lemma test_anchored_lang (s : string) :
  forall r, Regex.test_anchored r s = true <-> lang r s.
Proof.
  induction s as [ | c s IH]; intros r; cbn.
  - apply nullable_lang.
  - rewrite IH. split.
    + apply deriv_sound.
    + intros H. apply (deriv_complete r _ H). reflexivity.
Qed.

(** ** isValidIpAddress *)

Lemma in_range_spec (lo hi c : ascii) :
  Js.in_range lo hi c = true <-> Js.code lo <= Js.code c <= Js.code hi.
Proof. unfold Js.in_range. rewrite andb_true_iff, !Z.leb_le. tauto. Qed.

Lemma is_digit_spec (c : ascii) : Js.is_digit c = true <-> 48 <= Js.code c <= 57.
Proof. unfold Js.is_digit. rewrite in_range_spec. reflexivity. Qed.

Ltac lang_inv :=
  repeat match goal with
    | H : lang (Regex.Cat _ _) _ |- _ => inversion H; subst; clear H
    | H : lang (Regex.Alt _ _) _ |- _ => inversion H; subst; clear H
    | H : lang (Regex.Class _) _ |- _ => inversion H; subst; clear H
    | H : lang Regex.Eps _ |- _ => inversion H; subst; clear H
    | H : lang Regex.Void _ |- _ => inversion H
    end.

Ltac char_facts :=
  repeat match goal with
    | H : Ascii.eqb _ _ = true |- _ => apply Ascii.eqb_eq in H; subst
    | H : Js.in_range _ _ _ = true |- _ =>
        apply in_range_spec in H; change (Js.code "0") with 48 in H;
        change (Js.code "1") with 49 in H; change (Js.code "4") with 52 in H;
        change (Js.code "5") with 53 in H; change (Js.code "9") with 57 in H
    end.

Lemma octet_sound (s : string) : lang OpenWrt.octet s -> octet_ok s = true.
Proof.
  unfold OpenWrt.octet, Regex.Opt, Regex.Lit, Regex.Range. intros H.
  lang_inv; char_facts; cbn [String.append];
    unfold octet_ok; cbn [String.length all_chars Nat.leb andb];
    unfold Js.digits_value;
    repeat match goal with
      | |- context [Js.is_digit ?c] =>
          rewrite (proj2 (is_digit_spec c)) by (try (vm_compute; split; discriminate); lia)
      end;
    cbn [andb]; apply Z.leb_le;
    repeat match goal with
      | |- context [Js.code ?c] =>
          lazymatch c with
          | Ascii _ _ _ _ _ _ _ _ => let v := eval vm_compute in (Js.code c) in
                                      change (Js.code c) with v
          end
      end; lia.
Qed.

Lemma lang_digit (lo hi c : ascii) :
  Js.code lo <= Js.code c <= Js.code hi ->
  lang (Regex.Range lo hi) (String c "").
Proof. intros H. constructor. apply in_range_spec. exact H. Qed.

Lemma lang_lit (c : ascii) : lang (Regex.Lit c) (String c "").
Proof. constructor. apply Ascii.eqb_refl. Qed.

Lemma octet_complete (s : string) : octet_ok s = true -> lang OpenWrt.octet s.
Proof.
  unfold octet_ok. intros H.
  apply andb_true_iff in H. destruct H as [H Hv].
  apply andb_true_iff in H. destruct H as [H Hd].
  apply andb_true_iff in H. destruct H as [H1 H3].
  apply Z.leb_le in Hv.
  destruct s as [ | c1 [ | c2 [ | c3 [ | c4 s]]]]; try discriminate;
    cbn [all_chars] in Hd;
    repeat (apply andb_true_iff in Hd; destruct Hd as [?D Hd]);
    repeat match goal with H : Js.is_digit _ = true |- _ => apply is_digit_spec in H end;
    unfold OpenWrt.octet.
  - (* one digit *)
    apply lang_alt_r, lang_alt_r.
    change (String c1 "") with ("" +++ (String c1 "" +++ "")).
    constructor; [apply lang_alt_r; constructor | ].
    constructor; [apply lang_digit; exact D | apply lang_alt_r; constructor].
  - (* two digits *)
    apply lang_alt_r, lang_alt_r.
    change (String c1 (String c2 "")) with ("" +++ (String c1 "" +++ String c2 "")).
    constructor; [apply lang_alt_r; constructor | ].
    constructor; [apply lang_digit; exact D | apply lang_alt_l; apply lang_digit; exact D0].
  - (* three digits *)
    unfold Js.digits_value in Hv.
    change (String c1 (String c2 (String c3 "")))
      with (String c1 "" +++ (String c2 "" +++ String c3 "")).
    destruct (Z_le_gt_dec (Js.code c1) 49) as [L1 | G1].
    + apply lang_alt_r, lang_alt_r.
      constructor; [apply lang_alt_l; apply lang_digit; change (Js.code "0") with 48;
                    change (Js.code "1") with 49; lia | ].
      constructor; [apply lang_digit; exact D0 | apply lang_alt_l; apply lang_digit; exact D1].
    + assert (E1 : c1 = "2"%char) by (apply code_inj; change (Js.code "2") with 50; lia).
      subst c1. change (Js.code "2") with 50 in Hv.
      destruct (Z_le_gt_dec (Js.code c2) 52) as [L2 | G2].
      * apply lang_alt_r, lang_alt_l.
        constructor; [apply lang_lit | ].
        constructor; apply lang_digit;
          [change (Js.code "0") with 48; change (Js.code "4") with 52; lia | exact D1].
      * assert (E2 : c2 = "5"%char) by (apply code_inj; change (Js.code "5") with 53; lia).
        subst c2. change (Js.code "5") with 53 in Hv.
        apply lang_alt_l.
        constructor; [apply lang_lit | ].
        constructor; [apply lang_lit | ].
        apply lang_digit. change (Js.code "0") with 48; change (Js.code "5") with 53. lia.
Qed.

Lemma octet_spec (s : string) : lang OpenWrt.octet s <-> octet_ok s = true.
Proof. split; [apply octet_sound | apply octet_complete]. Qed.

Lemma octet_no_dot (s : string) : octet_ok s = true -> no_char "." s = true.
Proof.
  unfold octet_ok, no_char. intros H.
  apply andb_true_iff in H. destruct H as [H _].
  apply andb_true_iff in H. destruct H as [_ Hd].
  revert Hd. apply all_chars_weaken. intros c Hc.
  apply is_digit_spec in Hc. apply negb_true_iff. apply Ascii.eqb_neq.
  intros ->. vm_compute in Hc. destruct Hc as [Hc _]. apply Hc. reflexivity.
Qed.

(** A string is cut at its first dot in one way only. *)
Lemma first_dot_unique (a a' r r' : string) :
  no_char "." a = true -> no_char "." a' = true ->
  a +++ "." +++ r = a' +++ "." +++ r' -> a = a' /\ r = r'.
Proof.
  unfold no_char. revert a'.
  induction a as [ | x a IH]; intros [ | y a']; cbn; intros Ha Ha' E.
  - injection E as ->. split; reflexivity.
  - injection E as <- _. discriminate Ha'.
  - injection E as -> _. discriminate Ha.
  - injection E as -> E.
    apply andb_true_iff in Ha, Ha'. destruct Ha as [_ Ha]. destruct Ha' as [_ Ha'].
    destruct (IH a' Ha Ha' E) as [-> ->]. split; reflexivity.
Qed.

Lemma ipv4_lang (ip : string) :
  lang OpenWrt.ipv4Regex ip <->
  exists a b c d,
    ip = dotted a b c d
    /\ lang OpenWrt.octet a /\ lang OpenWrt.octet b
    /\ lang OpenWrt.octet c /\ lang OpenWrt.octet d.
Proof.
  unfold OpenWrt.ipv4Regex, dotted. cbn [Regex.Times]. split.
  - intros H.
    inversion H as [ | | x1 y1 s1 d H1 Hd | | | | ]; subst; clear H.
    inversion H1 as [ | | x2 y2 s2 t2 Ha H2 | | | | ]; subst; clear H1.
    inversion H2 as [ | | x3 y3 s3 t3 Hb H3 | | | | ]; subst; clear H2.
    inversion H3 as [ | | x4 y4 s4 t4 Hc H4 | | | | ]; subst; clear H3.
    inversion H4; subst; clear H4.
    inversion Ha as [ | | x5 y5 a ta Ha' Hdot | | | | ]; subst; clear Ha.
    inversion Hb as [ | | x6 y6 b tb Hb' Hdot' | | | | ]; subst; clear Hb.
    inversion Hc as [ | | x7 y7 c tc Hc' Hdot'' | | | | ]; subst; clear Hc.
    unfold Regex.Lit in *.
    inversion Hdot; subst; clear Hdot. inversion Hdot'; subst; clear Hdot'.
    inversion Hdot''; subst; clear Hdot''.
    char_facts.
    exists a, b, c, d. split; [ | repeat split; assumption].
    rewrite !append_assoc. cbn [String.append]. reflexivity.
  - intros [a [b [c [d [-> [Ha [Hb [Hc Hd]]]]]]]].
    replace (a +++ "." +++ b +++ "." +++ c +++ "." +++ d)
      with (((a +++ ".") +++ (b +++ ".") +++ (c +++ ".") +++ "") +++ d)
      by (rewrite !append_assoc; cbn [String.append]; reflexivity).
    constructor; [ | exact Hd].
    constructor; [constructor; [exact Ha | apply lang_lit] | ].
    constructor; [constructor; [exact Hb | apply lang_lit] | ].
    constructor; [constructor; [exact Hc | apply lang_lit] | constructor].
Qed.

(** ** Decimal numerals *)

Lemma digits_value_from (s : string) : Js.digits_value s = digits_from 0 s.
Proof. reflexivity. Qed.

Lemma digits_of_uint (d : Decimal.uint) :
  forall acc, digits_from acc (NilEmpty.string_of_uint d) = uint_value acc d.
Proof.
  induction d; intros acc; cbn [NilEmpty.string_of_uint digits_from uint_value];
    try reflexivity;
    rewrite IHd; f_equal;
    match goal with
    | |- context [Js.code ?c] =>
        let v := eval vm_compute in (Js.code c) in change (Js.code c) with v
    end; lia.
Qed.

Lemma of_uint_acc_value (d : Decimal.uint) :
  forall acc, Z.pos (Pos.of_uint_acc d acc) = uint_value (Z.pos acc) d.
Proof.
  induction d; intros acc; cbn [Pos.of_uint_acc uint_value];
    try reflexivity; rewrite IHd; f_equal; lia.
Qed.

Lemma of_uint_value (d : Decimal.uint) : Z.of_N (Pos.of_uint d) = uint_value 0 d.
Proof.
  induction d; cbn [Pos.of_uint uint_value]; try reflexivity;
    try (rewrite IHd; reflexivity);
    cbn [Z.of_N]; rewrite of_uint_acc_value; reflexivity.
Qed.

Lemma uint_digits (d : Decimal.uint) :
  all_chars Js.is_digit (NilEmpty.string_of_uint d) = true.
Proof. induction d; cbn [NilEmpty.string_of_uint all_chars]; try rewrite IHd; reflexivity. Qed.

Lemma uint_string_nonempty (d : Decimal.uint) :
  d <> Decimal.Nil -> NilEmpty.string_of_uint d <> "".
Proof. destruct d; cbn; intros H; try discriminate; contradiction. Qed.

(** The rendering of a natural number is its decimal numeral. *)
Lemma string_of_Z_digits (n : Z) :
  0 <= n ->
  Js.string_of_Z n <> ""
  /\ all_chars Js.is_digit (Js.string_of_Z n) = true
  /\ Js.digits_value (Js.string_of_Z n) = n.
Proof.
  intros Hn. unfold Js.string_of_Z.
  destruct n as [ | p | p]; [ | | lia].
  - repeat split. discriminate.
  - cbn [Z.to_int NilZero.string_of_int].
    assert (Hnn : Pos.to_uint p <> Decimal.Nil)
      by apply DecimalPos.Unsigned.to_uint_nonnil.
    assert (E : NilZero.string_of_uint (Pos.to_uint p)
                = NilEmpty.string_of_uint (Pos.to_uint p)).
    { destruct (Pos.to_uint p); try reflexivity. contradiction. }
    rewrite E. split; [apply uint_string_nonempty; exact Hnn | ].
    split; [apply uint_digits | ].
    rewrite digits_value_from, digits_of_uint, <- of_uint_value.
    rewrite DecimalPos.Unsigned.of_to. reflexivity.
Qed.

Lemma string_of_Z_negative (n : Z) :
  n < 0 -> exists t, Js.string_of_Z n = String "-" t
                      /\ all_chars Js.is_digit t = true.
Proof.
  intros Hn. unfold Js.string_of_Z.
  destruct n as [ | p | p]; [lia | lia | ].
  cbn [Z.to_int NilZero.string_of_int]. eexists. split; [reflexivity | ].
  assert (Hnn : Pos.to_uint p <> Decimal.Nil)
    by apply DecimalPos.Unsigned.to_uint_nonnil.
  destruct (Pos.to_uint p) eqn:E; try contradiction; rewrite <- E;
    (replace (NilZero.string_of_uint (Pos.to_uint p))
       with (NilEmpty.string_of_uint (Pos.to_uint p))
       by (rewrite E; reflexivity));
    apply uint_digits.
Qed.

Lemma octet_of_number (n : Z) :
  octet_ok (Js.string_of_Z n) = (0 <=? n) && (n <=? 255).
Proof.
  destruct (Z.leb_spec 0 n) as [H0 | H0].
  - destruct (Z.leb_spec n 255) as [H1 | H1]; cbn [andb].
    + assert (H : forallb (fun k => octet_ok (Js.string_of_Z (Z.of_nat k)))
                    (seq 0 256) = true) by (vm_compute; reflexivity).
      rewrite forallb_forall in H.
      specialize (H (Z.to_nat n)). rewrite Z2Nat.id in H by exact H0.
      apply H. apply in_seq. lia.
    + destruct (string_of_Z_digits n H0) as [_ [_ Hv]].
      unfold octet_ok. rewrite Hv.
      rewrite (proj2 (Z.leb_gt _ _)) by lia. apply andb_false_r.
  - cbn [andb]. destruct (string_of_Z_negative n H0) as [t [E _]].
    unfold octet_ok. rewrite E. cbn [all_chars].
    change (Js.is_digit "-") with false. cbn [andb].
    rewrite andb_false_r. reflexivity.
Qed.

Lemma number_no_dot (n : Z) : no_char "." (Js.string_of_Z n) = true.
Proof.
  assert (Hd : forall s, all_chars Js.is_digit s = true -> no_char "." s = true).
  { intros s. apply all_chars_weaken. intros c Hc.
    apply is_digit_spec in Hc. apply negb_true_iff. apply Ascii.eqb_neq.
    intros ->. vm_compute in Hc. destruct Hc as [Hc _]. apply Hc. reflexivity. }
  destruct (Z_lt_ge_dec n 0) as [Hn | Hn].
  - destruct (string_of_Z_negative n Hn) as [t [E Ht]]. rewrite E.
    unfold no_char. cbn [all_chars]. apply andb_true_iff. split; [reflexivity | ].
    apply Hd. exact Ht.
  - apply Hd. apply string_of_Z_digits. lia.
Qed.

(** X2. [isValidIpAddress] accepts exactly the strings made of four parts
    joined by dots, each part one to three decimal digits with a value of at
    most 255 (leading zeros allowed).  On four dot-free parts it is the
    conjunction of the four checks; so four numbers written in decimal are
    accepted exactly when each of them is between 0 and 255. *)
Theorem isValidIpAddress_dotted_quad :
  (forall ip,
      OpenWrt.isValidIpAddress ip = true <->
      exists a b c d,
        ip = dotted a b c d
        /\ octet_ok a = true /\ octet_ok b = true
        /\ octet_ok c = true /\ octet_ok d = true)
  /\ (forall a b c d,
        no_char "." a = true -> no_char "." b = true -> no_char "." c = true ->
        OpenWrt.isValidIpAddress (dotted a b c d)
        = octet_ok a && octet_ok b && octet_ok c && octet_ok d)
  /\ (forall a b c d : Z,
        OpenWrt.isValidIpAddress
          (dotted (Js.string_of_Z a) (Js.string_of_Z b) (Js.string_of_Z c)
             (Js.string_of_Z d))
        = (0 <=? a) && (a <=? 255) && ((0 <=? b) && (b <=? 255))
          && ((0 <=? c) && (c <=? 255)) && ((0 <=? d) && (d <=? 255))).
Proof.
  assert (Hiff : forall ip,
      OpenWrt.isValidIpAddress ip = true <->
      exists a b c d,
        ip = dotted a b c d
        /\ octet_ok a = true /\ octet_ok b = true
        /\ octet_ok c = true /\ octet_ok d = true).
  { intros ip. unfold OpenWrt.isValidIpAddress.
    rewrite test_anchored_lang, ipv4_lang.
    split; intros [a [b [c [d [E [Ha [Hb [Hc Hd]]]]]]]]; exists a, b, c, d;
      (split; [exact E | ]); repeat split; apply octet_spec; assumption. }
  assert (Hparts : forall a b c d,
        no_char "." a = true -> no_char "." b = true -> no_char "." c = true ->
        OpenWrt.isValidIpAddress (dotted a b c d)
        = octet_ok a && octet_ok b && octet_ok c && octet_ok d).
  { intros a b c d Na Nb Nc.
    destruct (OpenWrt.isValidIpAddress (dotted a b c d)) eqn:E.
    - apply Hiff in E. destruct E as [a' [b' [c' [d' [E [Ha [Hb [Hc Hd]]]]]]]].
      unfold dotted in E.
      apply first_dot_unique in E; [ | exact Na | apply octet_no_dot; exact Ha].
      destruct E as [-> E].
      apply first_dot_unique in E; [ | exact Nb | apply octet_no_dot; exact Hb].
      destruct E as [-> E].
      apply first_dot_unique in E; [ | exact Nc | apply octet_no_dot; exact Hc].
      destruct E as [-> ->].
      rewrite Ha, Hb, Hc, Hd. reflexivity.
    - symmetry. apply not_true_is_false. intros H.
      apply andb_true_iff in H. destruct H as [H Hd].
      apply andb_true_iff in H. destruct H as [H Hc].
      apply andb_true_iff in H. destruct H as [Ha Hb].
      assert (Ht : OpenWrt.isValidIpAddress (dotted a b c d) = true).
      { apply Hiff. exists a, b, c, d. repeat split; assumption. }
      rewrite Ht in E. discriminate E. }
  split; [exact Hiff | split; [exact Hparts | ]].
  intros a b c d.
  rewrite Hparts by apply number_no_dot.
  rewrite !octet_of_number. reflexivity.
Qed.

Lemma isValidIpAddress_dotted_quad_witness :
  no_char "." "10" = true /\ no_char "." "0" = true
  /\ OpenWrt.isValidIpAddress (dotted "10" "0" "0" "256") = false.
Proof.
  split; [reflexivity | split; [reflexivity | ]].
  exact (proj1 (proj2 isValidIpAddress_dotted_quad) "10" "0" "0" "256"
           eq_refl eq_refl eq_refl).
Defined.

(** ** parseRouterUrl *)

Lemma prefix_cons (a b : ascii) (s t : string) :
  String.prefix (String a s) (String b t) = Ascii.eqb a b && String.prefix s t.
Proof.
  cbn [String.prefix]. destruct (ascii_dec a b) as [-> | N].
  - rewrite Ascii.eqb_refl. reflexivity.
  - apply Ascii.eqb_neq in N. rewrite N. reflexivity.
Qed.

Lemma prefix_nil (s : string) : String.prefix "" s = true.
Proof. destruct s; reflexivity. Qed.

Lemma no_char_cons (x c : ascii) (s : string) :
  no_char x (String c s) = true -> Ascii.eqb x c = false /\ no_char x s = true.
Proof.
  unfold no_char. cbn [all_chars]. intros H.
  apply andb_true_iff in H. destruct H as [Hc Hs].
  apply negb_true_iff in Hc. rewrite Ascii.eqb_sym. split; assumption.
Qed.

Lemma no_char_app (x : ascii) (a b : string) :
  no_char x (a +++ b) = no_char x a && no_char x b.
Proof. apply all_chars_app. Qed.


(** Splitting at a one-character separator. *)
Lemma split_single_none (x : ascii) (a : string) :
  forall cur, no_char x a = true ->
    Js.split_go (Js.str1 x) 0 cur a = [cur +++ a].
Proof.
  induction a as [ | c a IH]; intros cur H.
  - cbn. rewrite append_nil_r. reflexivity.
  - apply no_char_cons in H. destruct H as [Hc Ha].
    cbn [Js.split_go]. unfold Js.str1 at 1. rewrite prefix_cons, Hc. cbn [andb].
    rewrite (IH _ Ha). unfold Js.str1. rewrite append_assoc. reflexivity.
Qed.

Lemma split_single_first (x : ascii) (a rest : string) :
  forall cur, no_char x a = true ->
    exists more,
      Js.split_go (Js.str1 x) 0 cur (a +++ String x rest) = (cur +++ a) :: more.
Proof.
  induction a as [ | c a IH]; intros cur H.
  - cbn [String.append Js.split_go]. unfold Js.str1 at 1.
    rewrite prefix_cons, Ascii.eqb_refl, prefix_nil. cbn [andb].
    rewrite append_nil_r. eexists. reflexivity.
  - apply no_char_cons in H. destruct H as [Hc Ha].
    cbn [String.append Js.split_go]. unfold Js.str1 at 1.
    rewrite prefix_cons, Hc. cbn [andb].
    destruct (IH (cur +++ Js.str1 c) Ha) as [more E]. rewrite E.
    exists more. unfold Js.str1. rewrite append_assoc. reflexivity.
Qed.

Lemma piece_first (x : ascii) (a rest : string) :
  no_char x a = true ->
  OpenWrt.piece (Js.str1 x) 0 (a +++ String x rest) = Some a.
Proof.
  intros H. unfold OpenWrt.piece, Js.split, Js.item.
  destruct (split_single_first x a rest "" H) as [more ->]. reflexivity.
Qed.

Lemma piece_whole (x : ascii) (a : string) :
  no_char x a = true -> OpenWrt.piece (Js.str1 x) 0 a = Some a.
Proof.
  intros H. unfold OpenWrt.piece, Js.split, Js.item.
  rewrite (split_single_none x a "" H). reflexivity.
Qed.

(** The separator of the scheme. *)
Lemma index_of_scheme_none (s : string) :
  no_char ":" s = true -> Js.index_of "://" s = None.
Proof.
  induction s as [ | c s IH]; intros H; [reflexivity | ].
  apply no_char_cons in H. destruct H as [Hc Hs].
  cbn [Js.index_of]. rewrite prefix_cons, Hc. cbn [andb].
  rewrite (IH Hs). reflexivity.
Qed.

Lemma includes_scheme_skip (a s : string) :
  no_char ":" a = true ->
  Js.includes "://" (a +++ s) = Js.includes "://" s.
Proof.
  unfold Js.includes. induction a as [ | c a IH]; intros H; [reflexivity | ].
  apply no_char_cons in H. destruct H as [Hc Ha].
  cbn [String.append Js.index_of]. rewrite prefix_cons, Hc. cbn [andb].
  specialize (IH Ha).
  destruct (Js.index_of "://" (a +++ s)); destruct (Js.index_of "://" s);
    cbn [option_map]; try reflexivity; discriminate IH.
Qed.

Lemma split_scheme_none (s : string) :
  forall cur, Js.includes "://" s = false ->
    Js.split_go "://" 0 cur s = [cur +++ s].
Proof.
  unfold Js.includes. induction s as [ | c s IH]; intros cur H.
  - cbn. rewrite append_nil_r. reflexivity.
  - cbn [Js.index_of] in H. cbn [Js.split_go].
    destruct (String.prefix "://" (String c s)); [discriminate H | ].
    rewrite IH.
    + unfold Js.str1. rewrite append_assoc. reflexivity.
    + destruct (Js.index_of "://" s); [discriminate H | reflexivity].
Qed.

Lemma split_scheme_skip (a s : string) :
  forall cur, no_char ":" a = true ->
    Js.split_go "://" 0 cur (a +++ String ":" s)
    = Js.split_go "://" 0 (cur +++ a) (String ":" s).
Proof.
  induction a as [ | c a IH]; intros cur H.
  - rewrite append_nil_r. reflexivity.
  - apply no_char_cons in H. destruct H as [Hc Ha].
    cbn [String.append Js.split_go]. rewrite prefix_cons, Hc. cbn [andb].
    rewrite (IH _ Ha). unfold Js.str1. rewrite append_assoc. reflexivity.
Qed.

Lemma piece_after_scheme (scheme rest : string) :
  no_char ":" scheme = true -> Js.includes "://" rest = false ->
  OpenWrt.piece "://" 1 (scheme +++ "://" +++ rest) = Some rest.
Proof.
  intros Hs Hr. unfold OpenWrt.piece, Js.split, Js.item.
  change ("://" +++ rest) with (String ":" ("//" +++ rest)).
  rewrite (split_scheme_skip scheme _ "" Hs).
  cbn [String.append Js.split_go].
  rewrite !prefix_cons, !Ascii.eqb_refl, prefix_nil.
  cbn [andb String.length Nat.sub Js.split_go].
  rewrite (split_scheme_none rest "" Hr). reflexivity.
Qed.

Lemma includes_scheme_present (scheme rest : string) :
  no_char ":" scheme = true -> Js.includes "://" (scheme +++ "://" +++ rest) = true.
Proof.
  intros Hs. rewrite (includes_scheme_skip scheme _ Hs).
  unfold Js.includes. cbn [String.append Js.index_of].
  rewrite !prefix_cons, !Ascii.eqb_refl, prefix_nil. reflexivity.
Qed.


Lemma match_port_none (s : string) :
  no_char ":" s = true -> OpenWrt.match_port s = None.
Proof.
  induction s as [ | c s IH]; intros H; [reflexivity | ].
  apply no_char_cons in H. destruct H as [Hc Hs].
  cbn [OpenWrt.match_port]. rewrite Ascii.eqb_sym, Hc. cbn [andb]. apply IH, Hs.
Qed.







(** X4. [parseRouterUrl] on an address that names no port: without a scheme
    the whole string is taken as the host, a path included; after a scheme
    the host is what comes before the first slash.  The port is 22. *)
Theorem parseRouterUrl_default_port :
  (forall url,
      no_char ":" url = true ->
      OpenWrt.parseRouterUrl url = OpenWrt.mkParsed url 22 ("http://" +++ url +++ ":22"))
  /\ (forall sch h path,
        no_char ":" sch = true -> no_char ":" h = true -> no_char "/" h = true ->
        no_char ":" path = true ->
        OpenWrt.parseRouterUrl (sch +++ "://" +++ h +++ "/" +++ path)
        = OpenWrt.mkParsed h 22 ("http://" +++ h +++ ":22")).
Proof.
  split.
  - intros url H. unfold OpenWrt.parseRouterUrl, Js.includes.
    rewrite (index_of_scheme_none url H), (match_port_none url H). reflexivity.
  - intros sch h path Hs Hh Hslash Hp.
    assert (Hbody : no_char ":" (h +++ "/" +++ path) = true).
    { rewrite !no_char_app, Hh, Hp. reflexivity. }
    unfold OpenWrt.parseRouterUrl.
    rewrite (includes_scheme_present sch _ Hs).
    rewrite (piece_after_scheme sch _ Hs).
    + rewrite (match_port_none _ Hbody).
      change ("/" +++ path) with (String "/" path).
      pose proof (piece_first "/" h path Hslash) as Hpiece.
      unfold Js.str1 in Hpiece. rewrite Hpiece. reflexivity.
    + unfold Js.includes. rewrite (index_of_scheme_none _ Hbody). reflexivity.
Qed.

Lemma parseRouterUrl_default_port_witness :
  no_char ":" "192.168.1.1/admin" = true
  /\ OpenWrt.p_hostname (OpenWrt.parseRouterUrl "192.168.1.1/admin")
     = "192.168.1.1/admin"
  /\ OpenWrt.p_hostname (OpenWrt.parseRouterUrl "http://192.168.1.1/admin")
     = "192.168.1.1".
Proof.
  split; [reflexivity | split].
  - exact (f_equal OpenWrt.p_hostname
             (proj1 parseRouterUrl_default_port "192.168.1.1/admin" eq_refl)).
  - exact (f_equal OpenWrt.p_hostname
             (proj2 parseRouterUrl_default_port "http" "192.168.1.1" "admin"
                eq_refl eq_refl eq_refl eq_refl)).
Defined.

(** ** The listing pattern *)

Lemma match_redirect_eq (line : string) :
  OpenWrt.match_redirect line
  = match redirect_here line with
    | Some run => Some run
    | None =>
        match line with
        | EmptyString => None
        | String _ t => OpenWrt.match_redirect t
        end
    end.
Proof. destruct line; reflexivity. Qed.

Lemma take_while_stop (p : ascii -> bool) (a : string) (x : ascii) (b : string) :
  all_chars p a = true -> p x = false ->
  Js.take_while p (a +++ String x b) = a.
Proof.
  induction a as [ | c a IH]; cbn [String.append all_chars Js.take_while]; intros Ha Hx.
  - rewrite Hx. reflexivity.
  - apply andb_true_iff in Ha. destruct Ha as [Hc Ha].
    rewrite Hc, (IH Ha Hx). reflexivity.
Qed.

Lemma drop_app (a b : string) : Js.drop (String.length a) (a +++ b) = b.
Proof. induction a as [ | c a IH]; [destruct b; reflexivity | exact IH]. Qed.

Lemma take_while_all (p : ascii -> bool) (s : string) :
  all_chars p (Js.take_while p s) = true.
Proof.
  induction s as [ | c s IH]; [reflexivity | ].
  cbn [Js.take_while]. destruct (p c) eqn:E; [ | reflexivity].
  cbn [all_chars]. rewrite E, IH. reflexivity.
Qed.

Lemma take_while_drop (p : ascii -> bool) (s : string) :
  Js.take_while p s +++ Js.drop (String.length (Js.take_while p s)) s = s.
Proof.
  induction s as [ | c s IH]; [reflexivity | ].
  cbn [Js.take_while]. destruct (p c); [ | reflexivity].
  cbn [String.length Js.drop String.append]. rewrite IH. reflexivity.
Qed.

Lemma prefix_split (a s : string) :
  String.prefix a s = true -> s = a +++ Js.drop (String.length a) s.
Proof.
  revert s. induction a as [ | x a IH]; intros s H.
  - destruct s; reflexivity.
  - destruct s as [ | y s]; [discriminate H | ].
    rewrite prefix_cons in H. apply andb_true_iff in H. destruct H as [Hx Ha].
    apply Ascii.eqb_eq in Hx. subst y.
    cbn [String.length Js.drop String.append]. rewrite <- (IH s Ha). reflexivity.
Qed.

Lemma prefix_app (a b : string) : String.prefix a (a +++ b) = true.
Proof.
  induction a as [ | x a IH]; [apply prefix_nil | ].
  cbn [String.append]. rewrite prefix_cons, Ascii.eqb_refl, IH. reflexivity.
Qed.

Lemma redirect_here_sound (line run : string) :
  redirect_here line = Some run ->
  run <> "" /\ no_char "=" run = true
  /\ exists post, line = "firewall." +++ run +++ "=redirect" +++ post.
Proof.
  unfold redirect_here.
  destruct (String.prefix "firewall." line) eqn:Hp; [ | discriminate].
  apply prefix_split in Hp. cbn [String.length] in Hp.
  set (rest := Js.drop 9 line) in *.
  set (p := fun c : ascii => negb (Ascii.eqb c "=")).
  destruct (negb (Js.is_empty (Js.take_while p rest))
            && String.prefix "=redirect"
                 (Js.drop (String.length (Js.take_while p rest)) rest)) eqn:E;
    [ | discriminate].
  intros H. injection H as <-.
  apply andb_true_iff in E. destruct E as [Hne Hs].
  split; [ | split].
  - intros E. rewrite E in Hne. discriminate Hne.
  - apply take_while_all.
  - apply prefix_split in Hs.
    exists (Js.drop (String.length "=redirect")
              (Js.drop (String.length (Js.take_while p rest)) rest)).
    rewrite <- Hs, take_while_drop. exact Hp.
Qed.

(** X5. The pattern with which [getRedirects] reads a line of the listing:
    a line that starts with ["firewall.<id>=redirect"], for a non-empty
    [id] without an equals sign, gives that [id]; and whatever a line gives
    is non-empty, holds no equals sign, and stands in the line between
    ["firewall."] and ["=redirect"]. *)
Theorem match_redirect_captures_section :
  (forall id post,
      id <> "" -> no_char "=" id = true ->
      OpenWrt.match_redirect ("firewall." +++ id +++ "=redirect" +++ post) = Some id)
  /\ (forall line id,
        OpenWrt.match_redirect line = Some id ->
        id <> "" /\ no_char "=" id = true
        /\ exists pre post, line = pre +++ "firewall." +++ id +++ "=redirect" +++ post).
Proof.
  split.
  - intros id post Hne Hid.
    rewrite match_redirect_eq.
    assert (E : redirect_here ("firewall." +++ id +++ "=redirect" +++ post) = Some id).
    { unfold redirect_here.
      rewrite (prefix_app "firewall." _).
      change (Js.drop 9 ("firewall." +++ id +++ "=redirect" +++ post))
        with (id +++ String "=" ("redirect" +++ post)).
      rewrite (take_while_stop _ id "=" _ Hid eq_refl).
      rewrite drop_app.
      change (String "=" ("redirect" +++ post)) with ("=redirect" +++ post).
      rewrite prefix_app.
      destruct id; [contradiction | reflexivity]. }
    rewrite E. reflexivity.
  - intros line. induction line as [ | c line IH]; intros id H;
      rewrite match_redirect_eq in H.
    + destruct (redirect_here "") eqn:E; [ | discriminate H].
      injection H as ->. apply redirect_here_sound in E.
      destruct E as [Hne [Hid [post E]]]. discriminate E.
    + destruct (redirect_here (String c line)) as [run | ] eqn:E.
      * injection H as ->. apply redirect_here_sound in E.
        destruct E as [Hne [Hid [post E]]].
        split; [exact Hne | split; [exact Hid | ]].
        exists "", post. exact E.
      * destruct (IH id H) as [Hne [Hid [pre [post E']]]].
        split; [exact Hne | split; [exact Hid | ]].
        exists (String c pre), post. rewrite E'. reflexivity.
Qed.

Lemma match_redirect_captures_section_witness :
  "@redirect[0]" <> "" /\ no_char "=" "@redirect[0]" = true
  /\ OpenWrt.match_redirect "firewall.@redirect[0]=redirect" = Some "@redirect[0]".
Proof.
  split; [discriminate | split; [reflexivity | ]].
  apply (proj1 match_redirect_captures_section "@redirect[0]" "");
    [discriminate | reflexivity].
Defined.

(** ** The SSH driver: commands in sequence *)

Section SshSequences.

Variable W : world.
Context {S : Type}.



End SshSequences.



(** ** The SSH driver: the probe and the listing *)

Lemma or_else_nonempty (a b : string) : b <> "" -> Js.or_else a b <> "".
Proof. intros Hb. unfold Js.or_else. destruct a; [exact Hb | discriminate]. Qed.

(** X8. [SshUciClient.testConnection] never raises and issues exactly the
    probe command.  It reports success exactly when the probe ran and
    exited with status 0, then with a non-empty version (the trimmed
    output, or "Unknown" when that is empty) and no code; otherwise it
    reports the error's message after "SSH failed: " and a non-empty code
    ("UNKNOWN" when the error carries none), and no version. *)
Theorem ssh_testConnection_report (W : world) (S : Type) (c : OpenWrt.SshUciClient)
  (s : S) (l : log) :
  exists report,
    OpenWrt.Ssh.testConnection W c s l
    = (Ok report, s, l ++ [OpenWrt.Ssh.exec_event W c OpenWrt.Ssh.probe_command l])
    /\ OpenWrt.success report
       = exec_succeeds (w_exec W l (OpenWrt.connect_options c) OpenWrt.Ssh.probe_command)
    /\ (OpenWrt.success report = true ->
        OpenWrt.report_code report = None
        /\ exists v, OpenWrt.version report = Some v /\ v <> "")
    /\ (OpenWrt.success report = false ->
        OpenWrt.version report = None
        /\ String.prefix "SSH failed: " (OpenWrt.report_message report) = true
        /\ exists code, OpenWrt.report_code report = Some code /\ code <> "").
Proof.
  unfold OpenWrt.Ssh.testConnection, try_catch, bind, OpenWrt.Ssh.exec,
    OpenWrt.Ssh.exec_event.
  destruct (w_exec W l (OpenWrt.connect_options c) OpenWrt.Ssh.probe_command)
    as [e | [[ | p | p] | ] out err]; cbn [ret exec_succeeds];
    eexists; (split; [reflexivity | split; [reflexivity | ]]);
    cbn [OpenWrt.success OpenWrt.version OpenWrt.report_code OpenWrt.report_message];
    (split; intros H; try discriminate H).
  all: try (split; [reflexivity | ]).
  all: try (split; [apply (prefix_app "SSH failed: ") | ]).
  all: try (eexists; split; [reflexivity | ]).
  all: try (apply or_else_nonempty; discriminate).
  all: try discriminate.
  destruct (err_code e) as [code | ]; [apply or_else_nonempty | ]; discriminate.
Qed.

Lemma ssh_testConnection_report_witness :
  exists report,
    value (OpenWrt.Ssh.testConnection Scenarios.rejecting Scenarios.ssh_client tt [])
    = Ok report
    /\ OpenWrt.success report = false
    /\ OpenWrt.report_message report = "SSH failed: connect ECONNREFUSED"
    /\ OpenWrt.report_code report = Some "ECONNREFUSED".
Proof.
  destruct (ssh_testConnection_report Scenarios.rejecting unit Scenarios.ssh_client
              tt []) as [report [E [Hs _]]].
  exists report. rewrite E. split; [reflexivity | ].
  injection E as <-. repeat split; reflexivity.
Defined.

Section ListingShape.

Variable W : world.
Context {S : Type}.

Ltac inv_len H G :=
  match type of H with
  | bind (OpenWrt.Ssh.exec ?W ?c ?cmd) ?k ?s ?l = _ =>
      let raw := fresh "raw" in
      let err := fresh "err" in
      let G' := fresh "G" in
      let l' := fresh "l" in
      apply bind_exec_inv in H; destruct H as [raw [err [_ H]]]; cbv beta in H;
      assert (G' : List.length (l ++ [OpenWrt.Ssh.exec_event W c cmd l])
                   = Datatypes.S (List.length l))
        by (rewrite length_app; cbn [List.length]; lia);
      rewrite G in G'; clear G; revert G' H;
      generalize (l ++ [OpenWrt.Ssh.exec_event W c cmd l]); intros l' G H
  end.

Lemma read_line_shape (c : OpenWrt.SshUciClient) (rules rules' : list OpenWrt.redirect)
  (line : string) (s s' : S) (l l' : log) :
  OpenWrt.Ssh.read_line W c rules line s l = (Ok rules', s', l') ->
  match OpenWrt.match_redirect line with
  | None => rules' = rules /\ l' = l
  | Some id =>
      List.length l' = (9 + List.length l)%nat
      /\ exists r, rules' = rules ++ [r] /\ OpenWrt.r_id r = id /\ filled r
  end.
Proof.
  unfold OpenWrt.Ssh.read_line.
  destruct (OpenWrt.match_redirect line) as [uciName | ].
  - intros H. assert (G : List.length l = (0 + List.length l)%nat) by reflexivity.
    do 9 inv_len H G.
    unfold ret in H. injection H as H1 H2 H3. subst rules' s' l'.
    split; [exact G | ].
    eexists. split; [reflexivity | split; [reflexivity | ]].
    split; cbn [OpenWrt.r_name OpenWrt.r_protocol]; apply or_else_nonempty;
      discriminate.
  - unfold ret. intros H. injection H as H1 H2 H3. subst. split; reflexivity.
Qed.

Lemma read_lines_shape (c : OpenWrt.SshUciClient) (lines : list string) :
  forall (rules rules' : list OpenWrt.redirect) (s s' : S) (l l' : log),
    OpenWrt.Ssh.read_lines W c rules lines s l = (Ok rules', s', l') ->
    map OpenWrt.r_id rules' = map OpenWrt.r_id rules ++ captures lines
    /\ List.length l' = (9 * List.length (captures lines) + List.length l)%nat
    /\ ((forall r, In r rules -> filled r) -> forall r, In r rules' -> filled r).
Proof.
  induction lines as [ | line rest IH]; intros rules rules' s s' l l' H.
  - cbn in H. unfold ret in H. injection H as H1 H2 H3. subst.
    cbn [captures]. rewrite app_nil_r.
    split; [reflexivity | split; [reflexivity | intros Hall; exact Hall]].
  - cbn [OpenWrt.Ssh.read_lines] in H. unfold bind in H.
    destruct (OpenWrt.Ssh.read_line W c rules line s l) as [[[rules1 | e] s1] l1] eqn:E;
      [ | discriminate H].
    apply read_line_shape in E.
    destruct (IH rules1 rules' s1 s' l1 l' H) as [Hids [Hlen Hfill]].
    cbn [captures].
    destruct (OpenWrt.match_redirect line) as [id | ].
    + destruct E as [Hl1 [r [-> [Hid Hr]]]].
      split; [ | split].
      * rewrite Hids, map_app, <- app_assoc. cbn [map app]. rewrite Hid. reflexivity.
      * rewrite Hlen, Hl1. cbn [List.length]. lia.
      * intros Hall. apply Hfill. intros r0 Hin. apply in_app_or in Hin.
        destruct Hin as [Hin | [<- | []]]; [apply Hall; exact Hin | exact Hr].
    + destruct E as [-> ->]. split; [exact Hids | split; [exact Hlen | exact Hfill]].
Qed.

Lemma getRedirects_try_shape (c : OpenWrt.SshUciClient) (s s' : S) (l l' : log)
  (rules : list OpenWrt.redirect) :
  OpenWrt.Ssh.getRedirects_try W c s l = (Ok rules, s', l') ->
  exists raw err,
    w_exec W l (OpenWrt.connect_options c) listing_command
    = StreamClosed (Some 0) raw err
    /\ map OpenWrt.r_id rules
       = captures (Js.split (Js.str1 (Js.chr 10)) (Js.trim raw))
    /\ List.length l' = (List.length l + 1 + 9 * List.length rules)%nat
    /\ forall r, In r rules -> filled r.
Proof.
  unfold OpenWrt.Ssh.getRedirects_try. intros H.
  apply bind_exec_inv in H. destruct H as [raw [err [A H]]]. cbv beta in H.
  exists raw, err. split; [exact A | ].
  destruct (Js.trim raw) as [ | x out] eqn:Et.
  - cbn [Js.is_empty] in H. unfold ret in H. injection H as <- <- <-.
    split; [reflexivity | split].
    + rewrite length_app. cbn. lia.
    + intros r [].
  - cbn [Js.is_empty] in H.
    apply read_lines_shape in H. destruct H as [Hids [Hlen Hfill]].
    cbn [map app] in Hids.
    split; [exact Hids | split].
    + rewrite Hlen, length_app.
      rewrite <- (length_map OpenWrt.r_id rules), Hids. cbn [List.length]. lia.
    + apply Hfill. intros r [].
Qed.

End ListingShape.

(** X9. When the [try] block of [SshUciClient.getRedirects] runs to its
    end, the listing command succeeded, and the rules returned are, in
    order, one for each line of its trimmed output that the listing pattern
    matches, identified by the section name captured there; nine reads were
    issued for each rule and nothing else; and no rule is returned without
    a name (the option read, or "Redirect <index>") or without a protocol
    (the option read, or "tcp"). *)
Theorem getRedirects_reads_listing (W : world) (S : Type) (c : OpenWrt.SshUciClient)
  (s : S) (l : log) :
  is_ok (value (OpenWrt.Ssh.getRedirects_try W c s l)) = true ->
  let out := OpenWrt.Ssh.getRedirects W c s l in
  exists raw err rules,
    w_exec W l (OpenWrt.connect_options c) listing_command
    = StreamClosed (Some 0) raw err
    /\ value out = Ok rules
    /\ map OpenWrt.r_id rules
       = captures (Js.split (Js.str1 (Js.chr 10)) (Js.trim raw))
    /\ List.length (calls out) = (List.length l + 1 + 9 * List.length rules)%nat
    /\ forall r, In r rules ->
         OpenWrt.r_name r <> "" /\ OpenWrt.r_protocol r <> "".
Proof.
  intros Hok out. subst out. unfold OpenWrt.Ssh.getRedirects, try_catch.
  destruct (OpenWrt.Ssh.getRedirects_try W c s l) as [[[rules | e] s1] l1] eqn:E;
    [ | discriminate Hok].
  destruct (getRedirects_try_shape W c s s1 l l1 rules E)
    as [raw [err [A [Hids [Hlen Hfill]]]]].
  exists raw, err, rules.
  split; [exact A | split; [reflexivity | split; [exact Hids | split]]].
  - exact Hlen.
  - exact Hfill.
Qed.

Lemma getRedirects_reads_listing_witness :
  is_ok (value (OpenWrt.Ssh.getRedirects_try Scenarios.one_redirect
                  Scenarios.ssh_client tt [])) = true
  /\ exists rules,
       value (OpenWrt.Ssh.getRedirects Scenarios.one_redirect Scenarios.ssh_client tt [])
       = Ok rules
       /\ map OpenWrt.r_id rules = ["@redirect[0]"]
       /\ List.length (calls (OpenWrt.Ssh.getRedirects Scenarios.one_redirect
                                Scenarios.ssh_client tt [])) = 10%nat.
Proof.
  split; [reflexivity | ].
  destruct (getRedirects_reads_listing Scenarios.one_redirect unit
              Scenarios.ssh_client tt [] eq_refl)
    as [raw [err [rules [A [Hv [Hids [Hlen _]]]]]]].
  exists rules. split; [exact Hv | ].
  injection A as <- _. split; [exact Hids | ].
  rewrite Hlen. injection Hv as <-. reflexivity.
Defined.

(** ** The JSON-RPC driver *)

Lemma rpc_authenticate_run (W : world) (c : OpenWrt.OpenWrtRpcClient) (l : log) :
  let answer := w_post W l (login_request c) in
  let e := mkEvent (HttpPost (login_request c)) (OHttp answer) in
  match login_result answer with
  | Some token =>
      OpenWrt.Rpc.authenticate W c l = (Ok token, OpenWrt.set_authToken token c, l ++ [e])
  | None =>
      exists err, OpenWrt.Rpc.authenticate W c l = (Throw err, c, l ++ [e])
  end.
Proof.
  unfold OpenWrt.Rpc.authenticate, bind, this, OpenWrt.Rpc.post.
  fold (login_request c). cbv zeta. unfold login_result.
  destruct (w_post W l (login_request c)) as [e | status text [body | e]];
    try (eexists; reflexivity).
  - destruct (status_ok status); cbn [negb]; [ | eexists; reflexivity].
    unfold lift_result. cbn.
    destruct (get body "error") as [err | e]; cbn; [ | eexists; reflexivity].
    destruct (truthy err); cbn; [eexists; reflexivity | ].
    destruct (get body "result") as [token | e]; cbn;
      [reflexivity | eexists; reflexivity].
  - destruct (status_ok status); cbn [negb]; eexists; reflexivity.
Qed.

Lemma rpc_testConnection_triple (W : world) (c : OpenWrt.OpenWrtRpcClient)
  (l : log) :
  let e1 := mkEvent (HttpPost (login_request c))
              (OHttp (w_post W l (login_request c))) in
  match login_result (w_post W l (login_request c)) with
  | None =>
      exists report,
        OpenWrt.Rpc.testConnection W c l = (Ok report, c, l ++ [e1])
        /\ OpenWrt.mode report = Some "rpc"
        /\ OpenWrt.success report = false
  | Some token =>
      exists report rq,
        OpenWrt.Rpc.testConnection W c l
        = (Ok report, OpenWrt.set_authToken token c,
           l ++ [e1; mkEvent (HttpPost rq) (OHttp (w_post W (l ++ [e1]) rq))])
        /\ OpenWrt.mode report = Some "rpc"
        /\ rq_url rq = OpenWrt.rpc_baseUrl c +++ OpenWrt.rpc_rpcPath c +++ "/call"
        /\ OpenWrt.success report = json_answer (w_post W (l ++ [e1]) rq)
  end.
Proof.
  intros e1.
  pose proof (rpc_authenticate_run W c l) as Ha. cbv zeta in Ha. fold e1 in Ha.
  destruct (login_result (w_post W l (login_request c))) as [token | ];
    unfold OpenWrt.Rpc.testConnection, try_catch; unfold bind at 1.
  - rewrite Ha. unfold bind at 1. unfold this at 1.
    unfold bind at 1. unfold OpenWrt.Rpc.callRpc.
    unfold bind at 1. unfold this at 1.
    unfold bind at 1. unfold OpenWrt.Rpc.post at 1.
    match goal with
    | |- context [w_post W (l ++ [e1]) ?rq] => set (rq2 := rq)
    end.
    assert (Hurl : rq_url rq2
                   = OpenWrt.rpc_baseUrl c +++ OpenWrt.rpc_rpcPath c +++ "/call")
      by reflexivity.
    clearbody rq2. clearbody e1.
    remember (l ++ [e1]) as l1 eqn:El1.
    assert (Hl : forall e2 : event, l1 ++ [e2] = l ++ [e1; e2]).
    { intros e2. rewrite El1, <- app_assoc. reflexivity. }
    clear El1.
    destruct (w_post W l1 rq2) as [e | status text [body | e]] eqn:E2;
      try (destruct (status_ok status) eqn:Es);
      cbn; eexists; exists rq2; rewrite E2, Hl;
      (split; [reflexivity | split; [reflexivity | split; [exact Hurl | ]]]);
      cbn; try rewrite Es; reflexivity.
  - destruct Ha as [err ->]. cbn. eexists.
    split; [reflexivity | split; reflexivity].
Qed.

(** X10. [OpenWrtRpcClient.testConnection] never raises and always reports
    mode rpc.  It sends the login request; only if the login is accepted
    (success status, a parsed body whose [error] is falsy) does it keep the
    [result] as token, whatever that is, and send one request to the
    [call] endpoint.  It reports success exactly when that second request
    is answered with a success status and a body that parses: the content
    of the answer is not looked at. *)
Theorem rpc_testConnection_outcome (W : world) (c : OpenWrt.OpenWrtRpcClient)
  (l : log) :
  let out := OpenWrt.Rpc.testConnection W c l in
  let e1 := mkEvent (HttpPost (login_request c))
              (OHttp (w_post W l (login_request c))) in
  exists report,
    value out = Ok report
    /\ OpenWrt.mode report = Some "rpc"
    /\ match login_result (w_post W l (login_request c)) with
       | None =>
           OpenWrt.success report = false
           /\ calls out = l ++ [e1] /\ object out = c
       | Some token =>
           exists rq,
             calls out
             = l ++ [e1; mkEvent (HttpPost rq) (OHttp (w_post W (l ++ [e1]) rq))]
             /\ rq_url rq
                = OpenWrt.rpc_baseUrl c +++ OpenWrt.rpc_rpcPath c +++ "/call"
             /\ OpenWrt.success report = json_answer (w_post W (l ++ [e1]) rq)
             /\ object out = OpenWrt.set_authToken token c
       end.
Proof.
  intros out e1. subst out.
  pose proof (rpc_testConnection_triple W c l) as H. cbv zeta in H. fold e1 in H.
  destruct (login_result (w_post W l (login_request c))) as [token | ].
  - destruct H as [report [rq [-> [Hm [Hu Hs]]]]].
    exists report. split; [reflexivity | split; [exact Hm | ]].
    exists rq. split; [reflexivity | split; [exact Hu | split; [exact Hs | reflexivity]]].
  - destruct H as [report [-> [Hm Hs]]].
    exists report. split; [reflexivity | split; [exact Hm | ]].
    split; [exact Hs | split; reflexivity].
Qed.

(** ** The unified client *)

(** In auto mode: what [initialize] leaves behind after its probes. *)
Lemma initialize_auto_outcome (W : world) (c : OpenWrt.OpenWrtClient) (l : log) :
  SpecWords.auto_mode c ->
  let out := OpenWrt.Client.initialize W c l in
  settings (object out) = settings c
  /\ match value out with
     | Ok _ => bound (object out)
     | Throw e =>
         e = OpenWrt.unable_to_connect
         /\ OpenWrt.connectionMode (object out) = OpenWrt.connectionMode c
     end
  /\ exists rest, calls out = l ++ SpecWords.probe_event W c l :: rest.
Proof.
  intros Hauto. cbv zeta.
  destruct (exec_succeeds (SpecWords.probe_answer W c l)) eqn:Hp.
  - rewrite (initialize_probe_ok W c l Hauto Hp).
    unfold value, object, calls; cbn [fst snd].
    split; [reflexivity | split].
    + left. split; [reflexivity | discriminate].
    + exists []. reflexivity.
  - rewrite (initialize_probe_failed W c l Hauto Hp).
    destruct (rpc_testConnection_run W (SpecWords.rpc_driver c)
                (l ++ [SpecWords.probe_event W c l]))
      as [report [r [l2 [Et [new [-> _]]]]]].
    rewrite Et.
    assert (Hrest : forall more : log,
               exists rest,
                 ((l ++ [SpecWords.probe_event W c l]) ++ new) ++ more
                 = l ++ SpecWords.probe_event W c l :: rest).
    { intros more. exists (new ++ more). rewrite <- !app_assoc. reflexivity. }
    destruct (OpenWrt.success report).
    + destruct (authenticate_run W r ((l ++ [SpecWords.probe_event W c l]) ++ new))
        as [res [r' [e [Ea _]]]].
      rewrite Ea. destruct res as [token | err];
        unfold value, object, calls; cbn [fst snd];
        (split; [reflexivity | split; [ | apply Hrest]]).
      * right. split; [reflexivity | discriminate].
      * split; reflexivity.
    + unfold value, object, calls; cbn [fst snd].
      split; [reflexivity | split; [split; reflexivity | ]].
      specialize (Hrest []). rewrite app_nil_r in Hrest. exact Hrest.
Qed.

(** X11. What [OpenWrtClient.initialize] leaves behind, on any router and
    from any client.  If it returns, the client is bound: its mode is ssh
    or rpc and it holds the driver of that mode.  If it raises, the error
    is "Unable to connect to router", the client was in auto mode and its
    mode is unchanged.  With an explicit mode it returns without any remote
    call; in auto mode its first call is the SSH probe.  The connection
    settings are never changed. *)
Theorem initialize_binds_or_fails (W : world) (c : OpenWrt.OpenWrtClient) (l : log) :
  let out := OpenWrt.Client.initialize W c l in
  settings (object out) = settings c
  /\ match value out with
     | Ok _ => bound (object out)
     | Throw e =>
         e = OpenWrt.unable_to_connect
         /\ SpecWords.auto_mode c
         /\ OpenWrt.connectionMode (object out) = OpenWrt.connectionMode c
     end
  /\ (OpenWrt.connectionMode c = "ssh" \/ OpenWrt.connectionMode c = "rpc" ->
      value out = Ok tt /\ calls out = l)
  /\ (SpecWords.auto_mode c ->
      exists rest, calls out = l ++ SpecWords.probe_event W c l :: rest).
Proof.
  cbv zeta.
  destruct (String.eqb_spec (OpenWrt.connectionMode c) "ssh") as [Hs | Hs].
  { assert (E : OpenWrt.Client.initialize W c l
                = (Ok tt, OpenWrt.set_sshClient (Some (OpenWrt.make_ssh c)) c, l)).
    { unfold OpenWrt.Client.initialize, bind, this. rewrite Hs. reflexivity. }
    rewrite E. unfold value, object, calls; cbn [fst snd].
    split; [reflexivity | split; [ | split]].
    - left. split; [exact Hs | discriminate].
    - intros _. split; reflexivity.
    - intros [H _]. contradiction. }
  destruct (String.eqb_spec (OpenWrt.connectionMode c) "rpc") as [Hr | Hr].
  { assert (E : OpenWrt.Client.initialize W c l
                = (Ok tt, OpenWrt.set_rpcClient (Some (OpenWrt.make_rpc c)) c, l)).
    { unfold OpenWrt.Client.initialize, bind, this. rewrite Hr. reflexivity. }
    rewrite E. unfold value, object, calls; cbn [fst snd].
    split; [reflexivity | split; [ | split]].
    - right. split; [exact Hr | discriminate].
    - intros _. split; reflexivity.
    - intros [_ H]. contradiction. }
  assert (Hauto : SpecWords.auto_mode c) by (split; assumption).
  destruct (initialize_auto_outcome W c l Hauto) as [Hset [Hval Hcalls]].
  split; [exact Hset | split; [ | split]].
  - destruct (value (OpenWrt.Client.initialize W c l)) as [u | e]; [exact Hval | ].
    destruct Hval as [He Hm]. split; [exact He | split; [exact Hauto | exact Hm]].
  - intros [H | H]; contradiction.
  - intros _. exact Hcalls.
Qed.

Lemma initialize_binds_or_fails_witness :
  value (OpenWrt.Client.initialize Scenarios.rejecting
           (Scenarios.client_in (Some "rpc")) []) = Ok tt
  /\ calls (OpenWrt.Client.initialize Scenarios.rejecting
              (Scenarios.client_in (Some "rpc")) []) = []
  /\ exists rest,
       calls (OpenWrt.Client.initialize Scenarios.rejecting
                (Scenarios.client_in None) [])
       = SpecWords.probe_event Scenarios.rejecting (Scenarios.client_in None) []
         :: rest.
Proof.
  destruct (initialize_binds_or_fails Scenarios.rejecting
              (Scenarios.client_in (Some "rpc")) []) as [_ [_ [Hexp _]]].
  destruct (initialize_binds_or_fails Scenarios.rejecting
              (Scenarios.client_in None) []) as [_ [_ [_ Hauto]]].
  destruct (Hexp (or_intror eq_refl)) as [Hv Hc].
  split; [exact Hv | split; [exact Hc | ]].
  apply Hauto. split; discriminate.
Defined.

Lemma num_or_twice (n d : Z) : OpenWrt.num_or (OpenWrt.num_or n d) d = OpenWrt.num_or n d.
Proof.
  unfold OpenWrt.num_or. destruct (n =? 0) eqn:E; [ | rewrite E; reflexivity].
  destruct (d =? 0) eqn:E'; reflexivity.
Qed.

(** X12. The factory [createClientFromDbConfig].  If decrypting the stored
    password raises, that error is raised and no remote call is made.
    Otherwise the first remote call is the SSH probe, sent to the host and
    port parsed from the stored URL (host "192.168.1.1" when that is empty,
    port 22 when none is given), as the stored user ("root" when there is
    none), with the decrypted password (none when the row holds none) and a
    timeout of 15000; what the factory returns is a bound client holding
    that password, and what it raises then is "Unable to connect to
    router". *)
Theorem createClientFromDbConfig_outcome (W : world) (P : Type)
  (decryptPassword : P -> result string) (dbConfig : OpenWrt.db_config P) (l : log) :
  let out := OpenWrt.createClientFromDbConfig W decryptPassword dbConfig l in
  match OpenWrt.stored_password decryptPassword dbConfig with
  | Throw e => out = (Throw e, l)
  | Ok password =>
      let parsed := OpenWrt.parseRouterUrl (OpenWrt.router_url dbConfig) in
      let target :=
        mkTarget (Js.or_else (OpenWrt.p_hostname parsed) "192.168.1.1")
          (OpenWrt.num_or (OpenWrt.p_port parsed) 22)
          (Js.opt_or_else (OpenWrt.db_username dbConfig) "root")
          password 15000 in
      (exists e rest,
          snd out = l ++ e :: rest
          /\ ev_call e = SshExec target OpenWrt.Ssh.probe_command)
      /\ match fst out with
         | Ok client => bound client /\ OpenWrt.password client = password
         | Throw e => e = OpenWrt.unable_to_connect
         end
  end.
Proof.
  intros out. subst out. unfold OpenWrt.createClientFromDbConfig.
  destruct (OpenWrt.stored_password decryptPassword dbConfig) as [password | e];
    [ | reflexivity].
  cbv zeta.
  set (client := OpenWrt.new_OpenWrtClient
                   (OpenWrt.mkClientConfig (OpenWrt.router_url dbConfig) None
                      (OpenWrt.db_username dbConfig) password (Some "auto")
                      (Some 15000))).
  assert (Hauto : SpecWords.auto_mode client) by (split; discriminate).
  destruct (initialize_auto_outcome W client l Hauto) as [Hset [Hval [rest Hrest]]].
  assert (Htarget :
            ev_call (SpecWords.probe_event W client l)
            = SshExec
                (mkTarget
                   (Js.or_else
                      (OpenWrt.p_hostname
                         (OpenWrt.parseRouterUrl (OpenWrt.router_url dbConfig)))
                      "192.168.1.1")
                   (OpenWrt.num_or
                      (OpenWrt.p_port
                         (OpenWrt.parseRouterUrl (OpenWrt.router_url dbConfig))) 22)
                   (Js.opt_or_else (OpenWrt.db_username dbConfig) "root")
                   password 15000)
                OpenWrt.Ssh.probe_command).
  { unfold SpecWords.probe_event, OpenWrt.Ssh.exec_event. cbn [ev_call].
    unfold OpenWrt.connect_options, OpenWrt.make_ssh, OpenWrt.new_SshUciClient.
    cbn [OpenWrt.ssh_hostname OpenWrt.ssh_port OpenWrt.ssh_username
         OpenWrt.ssh_password OpenWrt.ssh_timeout OpenWrt.sc_hostname
         OpenWrt.sc_port OpenWrt.sc_username OpenWrt.sc_password OpenWrt.sc_timeout].
    unfold client, OpenWrt.new_OpenWrtClient.
    cbn [OpenWrt.hostname OpenWrt.port OpenWrt.username OpenWrt.password
         OpenWrt.timeout OpenWrt.cc_url OpenWrt.cc_port OpenWrt.cc_username
         OpenWrt.cc_password OpenWrt.cc_timeout OpenWrt.opt_num_or].
    rewrite num_or_twice. reflexivity. }
  destruct (OpenWrt.Client.initialize W client l) as [[[u | e] c'] l'];
    unfold value, object, calls in *; cbn [fst snd] in *.
  - split; [exists (SpecWords.probe_event W client l), rest;
            split; [exact Hrest | exact Htarget] | ].
    split; [exact Hval | ].
    injection Hset as _ _ _ _ Hpw _. exact Hpw.
  - split; [exists (SpecWords.probe_event W client l), rest;
            split; [exact Hrest | exact Htarget] | ].
    apply Hval.
Qed.

(** X13. [OpenWrtClient.testConnection] probes SSH and nothing else, never
    raises, and always reports mode ssh.  Whether or not the probe
    succeeded, it leaves the client in ssh mode holding a new SSH driver;
    a JSON-RPC driver that the client held is kept, but no longer used. *)
Theorem testConnection_always_selects_ssh (W : world) (c : OpenWrt.OpenWrtClient)
  (l : log) :
  let out := OpenWrt.Client.testConnection W c l in
  exists report,
    value out = Ok report
    /\ OpenWrt.success report = exec_succeeds (SpecWords.probe_answer W c l)
    /\ OpenWrt.mode report = Some "ssh"
    /\ OpenWrt.requiresPlugins report = Some false
    /\ calls out = l ++ [SpecWords.probe_event W c l]
    /\ OpenWrt.connectionMode (object out) = "ssh"
    /\ OpenWrt.sshClient (object out) = Some (OpenWrt.make_ssh c)
    /\ OpenWrt.rpcClient (object out) = OpenWrt.rpcClient c.
Proof.
  intros out. subst out.
  destruct (client_testConnection_run W c l) as [report [E Hs]].
  rewrite E. exists (OpenWrt.Client.as_ssh_report report).
  unfold value, object, calls; cbn [fst snd].
  split; [reflexivity | split; [exact Hs | ]].
  repeat split; reflexivity.
Qed.

(** X14. Outside ssh mode, [OpenWrtClient.getPortForwardings] sends one
    request to the [call] endpoint of the JSON-RPC driver it holds, and
    when that request is answered with a success status and a body that
    parses it returns the empty list: the answer is not read.  Otherwise it
    raises. *)
Theorem getPortForwardings_rpc_lists_nothing (W : world) (c : OpenWrt.OpenWrtClient)
  (r : OpenWrt.OpenWrtRpcClient) (l : log) :
  OpenWrt.connectionMode c <> "ssh" ->
  OpenWrt.rpcClient c = Some r ->
  let out := OpenWrt.Client.getPortForwardings W c l in
  exists rq,
    calls out = l ++ [mkEvent (HttpPost rq) (OHttp (w_post W l rq))]
    /\ rq_url rq = OpenWrt.rpc_baseUrl r +++ OpenWrt.rpc_rpcPath r +++ "/call"
    /\ (json_answer (w_post W l rq) = true ->
        value out = Ok (OpenWrt.mkForwardings [] "rpc"))
    /\ (json_answer (w_post W l rq) = false -> is_ok (value out) = false).
Proof.
  intros Hmode Hr out. subst out.
  apply String.eqb_neq in Hmode.
  assert (E : exists rq res,
             OpenWrt.Rpc.uci W "get" [JStr "firewall"] r l
             = (res, r, l ++ [mkEvent (HttpPost rq) (OHttp (w_post W l rq))])
             /\ rq_url rq = OpenWrt.rpc_baseUrl r +++ OpenWrt.rpc_rpcPath r +++ "/call"
             /\ is_ok res = json_answer (w_post W l rq)).
  { unfold OpenWrt.Rpc.uci, OpenWrt.Rpc.callRpc, bind, this, OpenWrt.Rpc.post,
      json_answer.
    match goal with
    | |- context [w_post W l ?rq] => exists rq;
        destruct (w_post W l rq) as [e | status text [body | e]]
    end;
      try destruct (status_ok status); cbn; eexists;
      (split; [reflexivity | split; reflexivity]). }
  destruct E as [rq [res [Eu [Hurl Hok]]]].
  assert (Eg : OpenWrt.Client.getPortForwardings W c l
               = (match res with
                  | Ok _ => Ok (OpenWrt.mkForwardings [] "rpc")
                  | Throw err => Throw err
                  end,
                  OpenWrt.set_rpcClient (Some r) c,
                  l ++ [mkEvent (HttpPost rq) (OHttp (w_post W l rq))])).
  { unfold OpenWrt.Client.getPortForwardings.
    unfold bind at 1. unfold this at 1. rewrite Hmode.
    unfold bind at 1.
    rewrite (on_rpcClient_run W "uci" _ c r l Hr). rewrite Eu.
    unfold value, object, calls; cbn [fst snd].
    destruct res; reflexivity. }
  rewrite Eg. exists rq. unfold value, calls; cbn [fst snd].
  split; [reflexivity | split; [exact Hurl | ]].
  rewrite <- Hok. destruct res; split; intros H; try discriminate H; reflexivity.
Qed.

Lemma getPortForwardings_rpc_lists_nothing_witness :
  let c := object (OpenWrt.Client.initialize Scenarios.one_redirect
                     (Scenarios.client_in (Some "rpc")) []) in
  OpenWrt.connectionMode c <> "ssh"
  /\ OpenWrt.rpcClient c = Some (OpenWrt.make_rpc (Scenarios.client_in (Some "rpc")))
  /\ value (OpenWrt.Client.getPortForwardings Scenarios.one_redirect c [])
     = Ok (OpenWrt.mkForwardings [] "rpc").
Proof.
  intros c.
  assert (Hm : OpenWrt.connectionMode c <> "ssh") by discriminate.
  split; [exact Hm | split; [reflexivity | ]].
  destruct (getPortForwardings_rpc_lists_nothing Scenarios.one_redirect c
              (OpenWrt.make_rpc (Scenarios.client_in (Some "rpc"))) [] Hm eq_refl)
    as [rq [Hc [_ [Hyes _]]]].
  apply Hyes. injection Hc as <-. reflexivity.
Defined.

(** ** The RPC-only client *)

Section LuciOps.

Variable W : world.

Lemma luci_callRpc_event (g : string) (m p : json) (c : LuciRpc.OpenWrtClient)
  (l : log) :
  let rq := LuciRpc.rpc_request c g m p (w_random W l) in
  exists res,
    LuciRpc.callRpc W g m p c l
    = (res, c, l ++ [mkEvent (HttpPost rq) (OHttp (w_post W l rq))])
    /\ match w_post W l rq with
       | Response status _ body => if status_ok status then res = body else is_ok res = false
       | FetchError _ => is_ok res = false
       end.
Proof.
  intros rq. unfold LuciRpc.callRpc. fold rq.
  destruct (w_post W l rq) as [e | status text body].
  - eexists. split; reflexivity.
  - destruct (status_ok status); cbn [negb]; eexists; split; reflexivity.
Qed.










End LuciOps.

(** X15. [addPortForwarding] of the RPC-only client, once logged in, checks
    the rule before it sends anything: an internal address that
    [isValidIpAddress] rejects, then an external port, then an internal
    port that [isValidPort] rejects, each raise their own error with no
    request sent, the address first. *)
Theorem luci_addPortForwarding_validates_first (W : world)
  (config : LuciRpc.forwarding_config) (c : LuciRpc.OpenWrtClient) (l : log) :
  truthy (LuciRpc.authToken c) = true ->
  valid_rule config = false ->
  exists msg,
    LuciRpc.addPortForwarding W config c l = (Throw (Error msg), c, l)
    /\ msg
       = if negb (OpenWrt.isValidIpAddress (LuciRpc.f_internalIp config))
         then "Invalid internal IP address: " +++ LuciRpc.f_internalIp config
         else if negb (OpenWrt.isValidPort (LuciRpc.f_externalPort config))
         then "Invalid external port: "
              +++ OpenWrt.render_port (LuciRpc.f_externalPort config)
         else "Invalid internal port: "
              +++ OpenWrt.render_port (LuciRpc.f_internalPort config).
Proof.
  intros Htok Hbad. unfold LuciRpc.addPortForwarding.
  unfold bind at 1. rewrite (luci_ensure_authenticated_done W c l Htok).
  unfold valid_rule in Hbad.
  destruct (OpenWrt.isValidIpAddress (LuciRpc.f_internalIp config));
    cbn [negb]; [ | eexists; split; reflexivity].
  destruct (OpenWrt.isValidPort (LuciRpc.f_externalPort config));
    cbn [negb]; [ | eexists; split; reflexivity].
  destruct (OpenWrt.isValidPort (LuciRpc.f_internalPort config));
    cbn [negb]; [discriminate Hbad | eexists; split; reflexivity].
Qed.

Lemma luci_addPortForwarding_validates_first_witness :
  let c := LuciRpc.set_authToken (JStr "token") Scenarios.luci_client in
  truthy (LuciRpc.authToken c) = true
  /\ valid_rule Scenarios.bad_ip_rpc = false
  /\ LuciRpc.addPortForwarding Scenarios.accepting Scenarios.bad_ip_rpc c []
     = (Throw (Error "Invalid internal IP address: 999.1.1.1"), c, []).
Proof.
  intros c. split; [reflexivity | split; [reflexivity | ]].
  destruct (luci_addPortForwarding_validates_first Scenarios.accepting
              Scenarios.bad_ip_rpc c [] eq_refl eq_refl) as [msg [E ->]].
  exact E.
Defined.









Section LuciLogin.

Variable W : world.

Lemma luci_authenticate_run (c : LuciRpc.OpenWrtClient) (l : log) :
  let rq := luci_login_request c (w_random W l) in
  let e := mkEvent (HttpPost rq) (OHttp (w_post W l rq)) in
  match login_result (w_post W l rq) with
  | Some token =>
      LuciRpc.authenticate W c l = (Ok token, LuciRpc.set_authToken token c, l ++ [e])
  | None => exists err, LuciRpc.authenticate W c l = (Throw err, c, l ++ [e])
  end.
Proof.
  cbv zeta.
  destruct (luci_callRpc_event W "auth"
              (JObj [("method", JStr "login");
                     ("params", JArr [OpenWrt.opt_json (LuciRpc.username c);
                                      OpenWrt.opt_json (LuciRpc.password c)])])
              (JArr []) c l) as [res [E Hres]].
  cbv zeta in E, Hres. fold (luci_login_request c (w_random W l)) in E, Hres.
  destruct (LuciRpc.authenticate W c l) as [[r c'] l'] eqn:Ea.
  unfold LuciRpc.authenticate, try_catch, bind, this in Ea. rewrite E in Ea.
  unfold login_result.
  destruct (w_post W l (luci_login_request c (w_random W l)))
    as [err | status text body]; cbn iota in Hres.
  - destruct res; [discriminate Hres | ]. injection Ea as <- <- <-.
    eexists. reflexivity.
  - destruct (status_ok status).
    + subst res. destruct body as [body | err];
        [ | injection Ea as <- <- <-; eexists; reflexivity].
      unfold lift_result in Ea. cbn in Ea.
      destruct (get body "error") as [er | err]; cbn in Ea;
        [ | injection Ea as <- <- <-; eexists; reflexivity].
      destruct (truthy er); cbn in Ea;
        [injection Ea as <- <- <-; eexists; reflexivity | ].
      destruct (get body "result") as [token | err]; cbn in Ea;
        injection Ea as <- <- <-; [reflexivity | eexists; reflexivity].
    + destruct res; [discriminate Hres | ].
      injection Ea as <- <- <-. destruct body; eexists; reflexivity.
Qed.

End LuciLogin.

(** X20. [testConnection] of the RPC-only client never raises and sends
    exactly the login request, whose payload carries the object with
    [method] and [params] in the position of the method.  It reports
    success exactly when the login is accepted: a success status and a
    parsed body whose [error] is falsy.  The [result] is stored as the
    token without being looked at, so an answer whose result is [null]
    reports success too; a failure is reported with a non-empty message
    and leaves the token as it was. *)
Theorem luci_testConnection_outcome (W : world) (c : LuciRpc.OpenWrtClient) (l : log) :
  let rq := luci_login_request c (w_random W l) in
  let e := mkEvent (HttpPost rq) (OHttp (w_post W l rq)) in
  exists report c',
    LuciRpc.testConnection W c l = (Ok report, c', l ++ [e])
    /\ LuciRpc.report_message report <> ""
    /\ match login_result (w_post W l rq) with
       | Some token =>
           LuciRpc.success report = true /\ c' = LuciRpc.set_authToken token c
       | None => LuciRpc.success report = false /\ c' = c
       end.
Proof.
  intros rq e. pose proof (luci_authenticate_run W c l) as Ha.
  cbv zeta in Ha. fold rq in Ha. fold e in Ha.
  unfold LuciRpc.testConnection, try_catch, bind.
  destruct (login_result (w_post W l rq)) as [token | ].
  - rewrite Ha. do 2 eexists.
    split; [reflexivity | split; [discriminate | split; reflexivity]].
  - destruct Ha as [err ->]. do 2 eexists.
    split; [reflexivity | split; [ | split; reflexivity]].
    apply or_else_nonempty. discriminate.
Qed.

(** X21. The first [uci] call of a client of the RPC-only revision that
    holds no token logs in first.  If the login is refused, the command is
    not sent and the call raises.  If it is accepted, the command follows
    as the second request, built from the client with the token just
    stored: it carries the token header exactly when that token is
    truthy. *)
Theorem luci_uci_logs_in_first (W : world) (command : string) (params : list string)
  (c : LuciRpc.OpenWrtClient) (l : log) :
  truthy (LuciRpc.authToken c) = false ->
  let rq1 := luci_login_request c (w_random W l) in
  let e1 := mkEvent (HttpPost rq1) (OHttp (w_post W l rq1)) in
  match login_result (w_post W l rq1) with
  | None =>
      exists err, LuciRpc.uci W command params c l = (Throw err, c, l ++ [e1])
  | Some token =>
      let c' := LuciRpc.set_authToken token c in
      let rq2 := op_request c' (command, params) (w_random W (l ++ [e1])) in
      exists res,
        LuciRpc.uci W command params c l
        = (res, c', l ++ [e1; mkEvent (HttpPost rq2) (OHttp (w_post W (l ++ [e1]) rq2))])
        /\ rq_headers rq2
           = ("Content-Type", "application/json")
             :: (if truthy token then [("X-LuCI-Auth", render token)] else [])
  end.
Proof.
  intros Htok rq1 e1. pose proof (luci_authenticate_run W c l) as Ha.
  cbv zeta in Ha. fold rq1 in Ha. fold e1 in Ha.
  destruct (login_result (w_post W l rq1)) as [token | ];
    unfold LuciRpc.uci; unfold bind at 1; unfold LuciRpc.ensure_authenticated;
    unfold bind at 1; unfold this at 1; rewrite Htok; cbn [negb];
    unfold bind at 1.
  - rewrite Ha. unfold ret at 1.
    destruct (luci_callRpc_event W "uci" (JStr command) (LuciRpc.str_list params)
                (LuciRpc.set_authToken token c) (l ++ [e1])) as [res [E _]].
    cbv zeta in E. rewrite E. exists res. rewrite <- app_assoc.
    split; reflexivity.
  - destruct Ha as [err ->]. exists err. reflexivity.
Qed.

Lemma luci_uci_logs_in_first_witness :
  truthy (LuciRpc.authToken Scenarios.luci_client) = false
  /\ List.length (calls (LuciRpc.uci Scenarios.accepting "get_all" ["firewall"]
                           Scenarios.luci_client [])) = 2%nat
  /\ List.length (calls (LuciRpc.uci Scenarios.rejecting "get_all" ["firewall"]
                           Scenarios.luci_client [])) = 1%nat.
Proof.
  split; [reflexivity | split].
  - pose proof (luci_uci_logs_in_first Scenarios.accepting "get_all" ["firewall"]
                  Scenarios.luci_client [] eq_refl) as H.
    cbv zeta in H.
    change (login_result
              (w_post Scenarios.accepting []
                 (luci_login_request Scenarios.luci_client
                    (w_random Scenarios.accepting []))))
      with (Some (JStr "token")) in H.
    destruct H as [res [-> _]]. reflexivity.
  - pose proof (luci_uci_logs_in_first Scenarios.rejecting "get_all" ["firewall"]
                  Scenarios.luci_client [] eq_refl) as H.
    cbv zeta in H.
    change (login_result
              (w_post Scenarios.rejecting []
                 (luci_login_request Scenarios.luci_client
                    (w_random Scenarios.rejecting []))))
      with (@None json) in H.
    destruct H as [err ->]. reflexivity.
Defined.

(** X22. [reloadFirewall] of the RPC-only client, logged in, never raises:
    it sends one request to the [sys] endpoint and reports success exactly
    when that is answered with a success status and a body that parses;
    the answer itself is not read.  Without a token it logs in first,
    outside the handler: a refused login makes it raise. *)
Theorem luci_reloadFirewall_reports (W : world) (c : LuciRpc.OpenWrtClient) (l : log) :
  (truthy (LuciRpc.authToken c) = true ->
   let rq := LuciRpc.rpc_request c "sys" (JStr "exec")
               (JObj [("command", JStr "/etc/init.d/firewall reload")])
               (w_random W l) in
   exists report,
     LuciRpc.reloadFirewall W c l
     = (Ok report, c, l ++ [mkEvent (HttpPost rq) (OHttp (w_post W l rq))])
     /\ LuciRpc.success report = json_answer (w_post W l rq))
  /\ (truthy (LuciRpc.authToken c) = false ->
      login_result (w_post W l (luci_login_request c (w_random W l))) = None ->
      is_ok (value (LuciRpc.reloadFirewall W c l)) = false).
Proof.
  split.
  - intros Htok rq. unfold LuciRpc.reloadFirewall.
    unfold bind at 1. rewrite (luci_ensure_authenticated_done W c l Htok).
    unfold try_catch. unfold bind at 1.
    destruct (luci_callRpc_event W "sys" (JStr "exec")
                (JObj [("command", JStr "/etc/init.d/firewall reload")]) c l)
      as [res [E Hres]].
    cbv zeta in E, Hres. fold rq in E, Hres. rewrite E. unfold json_answer.
    destruct (w_post W l rq) as [err | status text body]; cbn iota in Hres.
    + destruct res; [discriminate Hres | ]. eexists. split; reflexivity.
    + destruct (status_ok status).
      * subst res. destruct body; eexists; split; reflexivity.
      * destruct res; [discriminate Hres | ]. destruct body; eexists; split; reflexivity.
  - intros Htok Hlogin. pose proof (luci_authenticate_run W c l) as Ha.
    cbv zeta in Ha. rewrite Hlogin in Ha. destruct Ha as [err Ha].
    unfold LuciRpc.reloadFirewall. unfold bind at 1.
    unfold LuciRpc.ensure_authenticated. unfold bind at 1. unfold this at 1.
    rewrite Htok. cbn [negb]. unfold bind at 1. rewrite Ha. reflexivity.
Qed.

Lemma luci_reloadFirewall_reports_witness :
  truthy (LuciRpc.authToken Scenarios.logged_in) = true
  /\ (exists report,
         value (LuciRpc.reloadFirewall Scenarios.rejecting Scenarios.logged_in [])
         = Ok report
         /\ LuciRpc.success report = false)
  /\ truthy (LuciRpc.authToken Scenarios.luci_client) = false
  /\ is_ok (value (LuciRpc.reloadFirewall Scenarios.rejecting
                     Scenarios.luci_client [])) = false.
Proof.
  destruct (luci_reloadFirewall_reports Scenarios.rejecting Scenarios.logged_in [])
    as [Hin _].
  destruct (luci_reloadFirewall_reports Scenarios.rejecting Scenarios.luci_client [])
    as [_ Hout].
  split; [reflexivity | split; [ | split; [reflexivity | ]]].
  - destruct (Hin eq_refl) as [report [E Hs]].
    exists report. rewrite E. split; [reflexivity | exact Hs].
  - apply Hout; reflexivity.
Defined.

(** ** The RPC-only client: the listing *)





(** ** The credential codec: what is stored, and which tags pass *)

Lemma hex_digit_lower (n : Z) : 0 <= n < 16 -> is_lower_hex (hex_digit n) = true.
Proof.
  intros H. unfold is_lower_hex, hex_digit.
  destruct (Z.ltb_spec n 10); apply orb_true_iff; [left | right];
    apply andb_true_iff; split; apply Z.leb_le; lia.
Qed.

Lemma hex_encode_lower (bs : buffer) : forallb is_lower_hex (hex_encode bs) = true.
Proof.
  induction bs as [ | b rest IH]; [reflexivity | ].
  unfold hex_encode in *. cbn [flat_map app forallb]. rewrite IH.
  pose proof (byte_val_range b) as Hb.
  rewrite !hex_digit_lower; [reflexivity | | ].
  - apply Z.mod_pos_bound. lia.
  - split; [apply Z.div_pos; lia | apply Z.div_lt_upper_bound; lia].
Qed.

Lemma buffer_eqb_eq (a : buffer) : forall b, buffer_eqb a b = true -> a = b.
Proof.
  induction a as [ | x a IH]; intros [ | y b] H; try discriminate H; [reflexivity | ].
  cbn [buffer_eqb] in H. apply andb_true_iff in H. destruct H as [Hx Ha].
  apply Byte.byte_dec_bl in Hx. rewrite Hx, (IH b Ha). reflexivity.
Qed.

Lemma buffer_eqb_iff (a b : buffer) : buffer_eqb a b = true <-> a = b.
Proof.
  split; [apply buffer_eqb_eq | ].
  intros ->. induction b as [ | x b IH]; [reflexivity | ].
  cbn [buffer_eqb]. rewrite IH. destruct x; reflexivity.
Qed.

Section CodecShape.

Variable env_key : option jsstring.
Variable machineId : jsstring.
Variable scryptSync : buffer -> buffer -> nat -> buffer.
Variable keystream : buffer -> buffer -> nat -> Byte.byte.
Variable gcm_tag : buffer -> buffer -> buffer -> buffer.

Hypothesis scrypt_length : forall pw salt n, List.length (scryptSync pw salt n) = n.
Hypothesis tag_length : forall k n c, List.length (gcm_tag k n c) = TAG_LENGTH.

Lemma encrypt_inv (randomIv : buffer) (p : jsstring) (d : encrypted_data) :
  encrypt env_key machineId scryptSync keystream gcm_tag randomIv p = Ok d ->
  let key := getEncryptionKey env_key machineId scryptSync in
  p <> [] /\ valid_parameters key randomIv = true
  /\ d = mkEncrypted
           (hex_encode (ctr keystream key randomIv 0 (utf8_encode p)))
           (hex_encode randomIv)
           (hex_encode
              (gcm_tag key randomIv (ctr keystream key randomIv 0 (utf8_encode p)))).
Proof.
  cbv zeta. unfold encrypt. destruct p as [ | u rest]; [discriminate | ].
  destruct (valid_parameters (getEncryptionKey env_key machineId scryptSync) randomIv);
    [ | discriminate].
  intros H. injection H as <-. split; [discriminate | split; reflexivity].
Qed.

Lemma encrypt_shape (randomIv : buffer) (p : jsstring) :
  p <> [] ->
  List.length randomIv = IV_LENGTH ->
  exists d,
    encrypt env_key machineId scryptSync keystream gcm_tag randomIv p = Ok d
    /\ hex_decode (iv d) = randomIv
    /\ List.length (iv d) = 32%nat
    /\ List.length (tag d) = 32%nat
    /\ List.length (encrypted d) = (2 * List.length (utf8_encode p))%nat
    /\ encrypted d <> []
    /\ forallb is_lower_hex (encrypted d ++ iv d ++ tag d) = true.
Proof.
  intros Hp Hiv.
  assert (Hvalid : valid_parameters (getEncryptionKey env_key machineId scryptSync)
                     randomIv = true).
  { unfold valid_parameters.
    rewrite (key_is_valid env_key machineId scryptSync scrypt_length), Hiv.
    reflexivity. }
  eexists. split.
  - unfold encrypt. destruct p as [ | u rest]; [congruence | ].
    rewrite Hvalid. reflexivity.
  - cbn [iv tag encrypted].
    split; [apply hex_decode_encode | ].
    split; [rewrite hex_encode_length, Hiv; reflexivity | ].
    split; [rewrite hex_encode_length, tag_length; reflexivity | ].
    split; [rewrite hex_encode_length; f_equal;
            clear; generalize 0%nat; induction (utf8_encode p) as [ | b r IH];
            intros i; [reflexivity | cbn [ctr List.length]; rewrite IH; reflexivity] | ].
    split.
    + apply hex_encode_nonempty. apply ctr_nonempty. apply utf8_encode_nonempty.
      exact Hp.
    + rewrite !forallb_app, !hex_encode_lower. reflexivity.
Qed.

Lemma decrypt_tag_check (randomIv : buffer) (p : jsstring) (d : encrypted_data)
  (t : jsstring) :
  encrypt env_key machineId scryptSync keystream gcm_tag randomIv p = Ok d ->
  decrypt env_key machineId scryptSync keystream gcm_tag (encrypted d) (iv d) t
  = match t with
    | [] => Throw (Error "Missing encryption parameters")
    | _ :: _ =>
        if valid_gcm_tag_length (List.length (hex_decode t))
           && buffer_eqb (hex_decode t)
                (firstn (List.length (hex_decode t)) (hex_decode (tag d)))
        then Ok (utf8_decode (utf8_encode p))
        else Throw (Error "Failed to decrypt data")
    end.
Proof.
  intros He. apply encrypt_inv in He. cbv zeta in He.
  destruct He as [Hp [Hvalid ->]].
  cbn [encrypted iv tag]. unfold decrypt.
  set (ct := ctr keystream (getEncryptionKey env_key machineId scryptSync) randomIv 0
               (utf8_encode p)).
  assert (H1 : hex_encode ct <> []).
  { apply hex_encode_nonempty. apply ctr_nonempty. apply utf8_encode_nonempty. exact Hp. }
  assert (H2 : hex_encode randomIv <> []).
  { apply hex_encode_nonempty. intros ->. unfold valid_parameters in Hvalid.
    rewrite andb_false_r in Hvalid. discriminate Hvalid. }
  destruct (hex_encode ct) as [ | c1 r1] eqn:E1; [congruence | ].
  destruct (hex_encode randomIv) as [ | c2 r2] eqn:E2; [congruence | ].
  destruct t as [ | c3 r3]; [reflexivity | ].
  rewrite <- E1, <- E2. rewrite !hex_decode_encode. rewrite Hvalid. cbn [andb].
  unfold ct. rewrite ctr_involutive. reflexivity.
Qed.

End CodecShape.

(** X24. What [encrypt] stores.  The empty string is refused.  For any
    other plaintext (and the 16 random bytes of the iv) it returns three
    strings of lower-case hexadecimal digits: the iv drawn, 32 digits; the
    tag, 32 digits; and the ciphertext, two digits for each byte of the
    UTF-8 encoding of the plaintext, so that the stored text shows the
    length of the password in bytes. *)
Theorem encrypt_output_shape
  (env_key : option jsstring) (machineId : jsstring)
  (scryptSync : buffer -> buffer -> nat -> buffer)
  (keystream : buffer -> buffer -> nat -> Byte.byte)
  (gcm_tag : buffer -> buffer -> buffer -> buffer)
  (randomIv : buffer) :
  (forall pw salt n, List.length (scryptSync pw salt n) = n) ->
  (forall k n c, List.length (gcm_tag k n c) = TAG_LENGTH) ->
  List.length randomIv = IV_LENGTH ->
  encrypt env_key machineId scryptSync keystream gcm_tag randomIv []
  = Throw (Error "Cannot encrypt empty string")
  /\ forall p,
       p <> [] ->
       exists d,
         encrypt env_key machineId scryptSync keystream gcm_tag randomIv p = Ok d
         /\ hex_decode (iv d) = randomIv
         /\ List.length (iv d) = 32%nat
         /\ List.length (tag d) = 32%nat
         /\ List.length (encrypted d) = (2 * List.length (utf8_encode p))%nat
         /\ encrypted d <> []
         /\ forallb is_lower_hex (encrypted d ++ iv d ++ tag d) = true.
Proof.
  intros Hs Ht Hiv. split; [reflexivity | ].
  intros p Hp.
  apply (encrypt_shape env_key machineId scryptSync keystream gcm_tag Hs Ht randomIv p
           Hp Hiv).
Qed.

Lemma encrypt_output_shape_witness :
  (forall pw salt n, List.length (Scenarios.toy_scrypt pw salt n) = n)
  /\ (forall k n c, List.length (Scenarios.toy_tag k n c) = TAG_LENGTH)
  /\ List.length Scenarios.toy_iv = IV_LENGTH
  /\ exists d,
       Scenarios.toy_encrypt (units "secret") = Ok d
       /\ List.length (encrypted d) = 12%nat.
Proof.
  split; [exact toy_scrypt_length | split; [exact toy_tag_length | split; [reflexivity | ]]].
  destruct (encrypt_output_shape None (units "host-x64") Scenarios.toy_scrypt
              Scenarios.toy_keystream Scenarios.toy_tag Scenarios.toy_iv
              toy_scrypt_length toy_tag_length eq_refl) as [_ H].
  destruct (H (units "secret")) as [d [E [_ [_ [_ [Hl _]]]]]]; [discriminate | ].
  exists d. split; [exact E | exact Hl].
Defined.

(** X25. Which tags [decrypt] lets pass, for the ciphertext and iv that
    [encrypt] returned.  A tag string passes exactly when it is not empty,
    the bytes it decodes to have one of the lengths 4, 8, 12 to 16, and
    they are the first bytes of the tag that [encrypt] computed; then the
    plaintext is returned as UTF-8 carries it.  So every tag of the full 16
    bytes other than the stored one is refused, with "Failed to decrypt
    data"; an empty tag is refused with "Missing encryption parameters". *)
Theorem decrypt_checks_tag
  (env_key : option jsstring) (machineId : jsstring)
  (scryptSync : buffer -> buffer -> nat -> buffer)
  (keystream : buffer -> buffer -> nat -> Byte.byte)
  (gcm_tag : buffer -> buffer -> buffer -> buffer)
  (randomIv : buffer) (p : jsstring) (d : encrypted_data) :
  (forall k n c, List.length (gcm_tag k n c) = TAG_LENGTH) ->
  encrypt env_key machineId scryptSync keystream gcm_tag randomIv p = Ok d ->
  let decrypt_with :=
    decrypt env_key machineId scryptSync keystream gcm_tag (encrypted d) (iv d) in
  (forall t,
      is_ok (decrypt_with t) = true <->
      t <> []
      /\ valid_gcm_tag_length (List.length (hex_decode t)) = true
      /\ hex_decode t = firstn (List.length (hex_decode t)) (hex_decode (tag d)))
  /\ (forall t, is_ok (decrypt_with t) = true ->
                decrypt_with t = Ok (utf8_decode (utf8_encode p)))
  /\ (forall T : buffer,
        List.length T = TAG_LENGTH -> T <> hex_decode (tag d) ->
        decrypt_with (hex_encode T) = Throw (Error "Failed to decrypt data"))
  /\ decrypt_with [] = Throw (Error "Missing encryption parameters").
Proof.
  intros Ht He decrypt_with.
  pose proof (decrypt_tag_check env_key machineId scryptSync keystream gcm_tag
                randomIv p d) as Hd.
  assert (Htag : List.length (hex_decode (tag d)) = TAG_LENGTH).
  { apply encrypt_inv in He. cbv zeta in He. destruct He as [_ [_ ->]]. cbn [tag].
    rewrite hex_decode_encode. apply Ht. }
  split; [ | split; [ | split]].
  - intros t. unfold decrypt_with. rewrite (Hd t He).
    destruct t as [ | c r].
    + split; [discriminate | intros [H _]; congruence].
    + destruct (valid_gcm_tag_length (List.length (hex_decode (c :: r)))) eqn:Ev;
        cbn [andb].
      * destruct (buffer_eqb (hex_decode (c :: r))
                    (firstn (List.length (hex_decode (c :: r))) (hex_decode (tag d))))
          eqn:Eb.
        -- split; [intros _ | reflexivity].
           split; [discriminate | split; [reflexivity | apply buffer_eqb_iff; exact Eb]].
        -- split; [discriminate | ].
           intros [_ [_ H]]. apply buffer_eqb_iff in H. congruence.
      * split; [discriminate | intros [_ [H _]]; discriminate H].
  - intros t. unfold decrypt_with. rewrite (Hd t He).
    destruct t as [ | c r]; [discriminate | ].
    destruct (valid_gcm_tag_length (List.length (hex_decode (c :: r)))
              && buffer_eqb (hex_decode (c :: r))
                   (firstn (List.length (hex_decode (c :: r))) (hex_decode (tag d))));
      [reflexivity | discriminate].
  - intros T HT Hneq. unfold decrypt_with. rewrite (Hd _ He).
    destruct (hex_encode T) as [ | c r] eqn:E.
    + apply (f_equal (@List.length Z)) in E. rewrite hex_encode_length, HT in E.
      discriminate E.
    + rewrite <- E, hex_decode_encode, HT, <- Htag, firstn_all.
      destruct (buffer_eqb T (hex_decode (tag d))) eqn:Eb.
      * apply buffer_eqb_iff in Eb. contradiction.
      * rewrite andb_false_r. reflexivity.
  - unfold decrypt_with. apply (Hd [] He).
Qed.

Lemma decrypt_checks_tag_witness :
  (forall k n c, List.length (Scenarios.toy_tag k n c) = TAG_LENGTH)
  /\ exists d,
       Scenarios.toy_encrypt (units "secret") = Ok d
       /\ Scenarios.toy_decrypt (encrypted d) (iv d) (hex_encode (repeat Byte.x00 16))
          = Throw (Error "Failed to decrypt data").
Proof.
  split; [exact toy_tag_length | ].
  eexists. split; [reflexivity | ].
  match goal with
  | |- Scenarios.toy_decrypt (encrypted ?d) _ _ = _ =>
      destruct (decrypt_checks_tag None (units "host-x64") Scenarios.toy_scrypt
                  Scenarios.toy_keystream Scenarios.toy_tag Scenarios.toy_iv
                  (units "secret") d toy_tag_length eq_refl) as [_ [_ [H _]]]
  end.
  apply H; [reflexivity | vm_compute; discriminate].
Defined.

(** ** The constructor: one port for both transports *)

Lemma parsed_baseUrl (url : string) :
  OpenWrt.p_baseUrl (OpenWrt.parseRouterUrl url)
  = "http://" +++ OpenWrt.p_hostname (OpenWrt.parseRouterUrl url) +++ ":"
    +++ Js.string_of_Z (OpenWrt.p_port (OpenWrt.parseRouterUrl url)).
Proof.
  unfold OpenWrt.parseRouterUrl.
  match goal with
  | |- context [let '(a, b) := ?X in _] => destruct X as [h p]
  end.
  reflexivity.
Qed.

(** X26. The unified client built by the constructor uses one port number
    for both transports.  The base URL of its JSON-RPC driver is always
    ["http://host:port"] with the host and port that [parseRouterUrl] read
    from the address; when the configuration gives no port of its own, the
    SSH driver connects to that same port (unless it is 0, which reads as
    22).  So for an address without a port, SSH goes to port 22 and the
    JSON-RPC requests go to ["http://<address>:22"]. *)
Theorem drivers_share_port (config : OpenWrt.client_config) :
  let c := OpenWrt.new_OpenWrtClient config in
  let parsed := OpenWrt.parseRouterUrl (OpenWrt.cc_url config) in
  OpenWrt.rpc_baseUrl (OpenWrt.make_rpc c)
  = "http://" +++ OpenWrt.p_hostname parsed +++ ":"
    +++ Js.string_of_Z (OpenWrt.p_port parsed)
  /\ (OpenWrt.cc_port config = None ->
      t_port (OpenWrt.connect_options (OpenWrt.make_ssh c))
      = OpenWrt.num_or (OpenWrt.p_port parsed) 22)
  /\ (OpenWrt.cc_port config = None ->
      no_char ":" (OpenWrt.cc_url config) = true ->
      t_port (OpenWrt.connect_options (OpenWrt.make_ssh c)) = 22
      /\ OpenWrt.rpc_baseUrl (OpenWrt.make_rpc c)
         = "http://" +++ OpenWrt.cc_url config +++ ":22").
Proof.
  intros c parsed.
  assert (Hbase : OpenWrt.rpc_baseUrl (OpenWrt.make_rpc c)
                  = "http://" +++ OpenWrt.p_hostname parsed +++ ":"
                    +++ Js.string_of_Z (OpenWrt.p_port parsed)).
  { exact (parsed_baseUrl (OpenWrt.cc_url config)). }
  assert (Hport : OpenWrt.cc_port config = None ->
                  t_port (OpenWrt.connect_options (OpenWrt.make_ssh c))
                  = OpenWrt.num_or (OpenWrt.p_port parsed) 22).
  { intros Hnone.
    unfold OpenWrt.connect_options, OpenWrt.make_ssh, OpenWrt.new_SshUciClient.
    cbn [t_port OpenWrt.ssh_port OpenWrt.sc_port].
    unfold c, OpenWrt.new_OpenWrtClient. cbn [OpenWrt.port]. rewrite Hnone.
    cbn [OpenWrt.opt_num_or]. apply num_or_twice. }
  split; [exact Hbase | split; [exact Hport | ]].
  intros Hnone Hcolon.
  rewrite Hbase, (Hport Hnone). unfold parsed, OpenWrt.parseRouterUrl, Js.includes.
  rewrite (index_of_scheme_none _ Hcolon), (match_port_none _ Hcolon).
  split; reflexivity.
Qed.

Lemma drivers_share_port_witness :
  OpenWrt.cc_port
    (OpenWrt.mkClientConfig "192.168.1.1" None (Some "root") (Some "secret") None None)
  = None
  /\ no_char ":" "192.168.1.1" = true
  /\ OpenWrt.rpc_baseUrl
       (OpenWrt.make_rpc
          (OpenWrt.new_OpenWrtClient
             (OpenWrt.mkClientConfig "192.168.1.1" None (Some "root") (Some "secret")
                None None)))
     = "http://192.168.1.1:22".
Proof.
  split; [reflexivity | split; [reflexivity | ]].
  destruct (drivers_share_port
              (OpenWrt.mkClientConfig "192.168.1.1" None (Some "root") (Some "secret")
                 None None)) as [_ [_ H]].
  destruct (H eq_refl eq_refl) as [_ Hb]. exact Hb.
Defined.

(** ** The unified client in ssh mode, and the wire format of the JSON-RPC
    driver *)

(** X27. In ssh mode the unified client hands its three operations to the
    SSH driver it holds and adds nothing of its own: adding and deleting a
    rule are the driver's [addRedirect] and [deleteRedirect] (same calls,
    same outcome, no validation before them), and listing is the driver's
    [getRedirects] with the mode "ssh" beside the rules.  Without a driver
    each of them raises the TypeError of a member read on [null], and no
    call is made. *)
Theorem ssh_mode_delegates (W : world) (c : OpenWrt.OpenWrtClient) (l : log) :
  OpenWrt.connectionMode c = "ssh" ->
  match OpenWrt.sshClient c with
  | Some sc =>
      (forall config,
          OpenWrt.Client.addPortForwarding W config c l
          = OpenWrt.Ssh.addRedirect W sc config c l)
      /\ (forall id,
            OpenWrt.Client.deletePortForwarding W id c l
            = OpenWrt.Ssh.deleteRedirect W sc id c l)
      /\ OpenWrt.Client.getPortForwardings W c l
         = match OpenWrt.Ssh.getRedirects W sc c l with
           | (Ok rules, c', l') => (Ok (OpenWrt.mkForwardings rules "ssh"), c', l')
           | (Throw e, c', l') => (Throw e, c', l')
           end
  | None =>
      (forall config,
          OpenWrt.Client.addPortForwarding W config c l
          = (Throw (OpenWrt.null_member "addRedirect"), c, l))
      /\ (forall id,
            OpenWrt.Client.deletePortForwarding W id c l
            = (Throw (OpenWrt.null_member "deleteRedirect"), c, l))
      /\ OpenWrt.Client.getPortForwardings W c l
         = (Throw (OpenWrt.null_member "getRedirects"), c, l)
  end.
Proof.
  intros Hmode.
  assert (Hadd : forall config,
             OpenWrt.Client.addPortForwarding W config c l
             = OpenWrt.Client.on_sshClient "addRedirect"
                 (fun s => OpenWrt.Ssh.addRedirect W s config) c l).
  { intros config. unfold OpenWrt.Client.addPortForwarding, bind, this.
    rewrite Hmode. reflexivity. }
  assert (Hdel : forall id,
             OpenWrt.Client.deletePortForwarding W id c l
             = OpenWrt.Client.on_sshClient "deleteRedirect"
                 (fun s => OpenWrt.Ssh.deleteRedirect W s id) c l).
  { intros id. unfold OpenWrt.Client.deletePortForwarding, bind, this.
    rewrite Hmode. reflexivity. }
  assert (Hget : OpenWrt.Client.getPortForwardings W c l
                 = match OpenWrt.Client.on_sshClient "getRedirects"
                           (OpenWrt.Ssh.getRedirects W) c l with
                   | (Ok rules, c', l') =>
                       (Ok (OpenWrt.mkForwardings rules "ssh"), c', l')
                   | (Throw e, c', l') => (Throw e, c', l')
                   end).
  { unfold OpenWrt.Client.getPortForwardings.
    unfold bind at 1. unfold this at 1. rewrite Hmode.
    cbn [String.eqb Ascii.eqb Bool.eqb]. unfold bind.
    destruct (OpenWrt.Client.on_sshClient "getRedirects"
                (OpenWrt.Ssh.getRedirects W) c l) as [[[rules | e] c'] l'];
      reflexivity. }
  unfold OpenWrt.Client.on_sshClient in Hadd, Hdel, Hget.
  destruct (OpenWrt.sshClient c) as [sc | ].
  - split; [exact Hadd | split; [exact Hdel | exact Hget]].
  - split; [exact Hadd | split; [exact Hdel | exact Hget]].
Qed.

Lemma ssh_mode_delegates_witness :
  let c := object (OpenWrt.Client.initialize Scenarios.accepting
                     (Scenarios.client_in (Some "ssh")) []) in
  OpenWrt.connectionMode c = "ssh"
  /\ value (OpenWrt.Client.addPortForwarding Scenarios.accepting Scenarios.bad_ip c [])
     = value (OpenWrt.Ssh.addRedirect Scenarios.accepting
                (OpenWrt.make_ssh (Scenarios.client_in (Some "ssh")))
                Scenarios.bad_ip c []).
Proof.
  intros c. split; [reflexivity | ].
  pose proof (ssh_mode_delegates Scenarios.accepting c [] eq_refl) as H.
  change (OpenWrt.sshClient c)
    with (Some (OpenWrt.make_ssh (Scenarios.client_in (Some "ssh")))) in H.
  destruct H as [Hadd _]. rewrite Hadd. reflexivity.
Defined.

(** X28. What [OpenWrtRpcClient.uci] puts on the wire, by way of [callRpc]:
    one POST to the [call] endpoint with only the content-type header, the
    fixed identifier 1 and the method "call"; its parameters hold the token
    and the string "uci" twice, once from each of the two functions, before
    the UCI method and its parameters.  It raises on a failed request, on a
    status outside 200..299 ("HTTP <status>: <text>") and on a body that
    does not parse, and returns the parsed body otherwise, without reading
    it; the client is not changed. *)
Theorem rpc_uci_on_the_wire (W : world) (method : string) (params : list json)
  (c : OpenWrt.OpenWrtRpcClient) (l : log) :
  let rq :=
    mkRequest (OpenWrt.rpc_baseUrl c +++ OpenWrt.rpc_rpcPath c +++ "/call")
      [("Content-Type", "application/json")]
      (JObj [("id", JNum 1); ("method", JStr "call");
             ("params",
              JArr [OpenWrt.authToken c; JStr "uci"; OpenWrt.authToken c; JStr "uci";
                    JStr method; JArr params])])
      None in
  exists res,
    OpenWrt.Rpc.uci W method params c l
    = (res, c, l ++ [mkEvent (HttpPost rq) (OHttp (w_post W l rq))])
    /\ match w_post W l rq with
       | FetchError e => res = Throw e
       | Response status text body =>
           if status_ok status then res = body
           else res = Throw (Error ("HTTP " +++ Js.string_of_Z status +++ ": " +++ text))
       end.
Proof.
  intros rq. unfold OpenWrt.Rpc.uci, OpenWrt.Rpc.callRpc, bind, this, OpenWrt.Rpc.post.
  change (mkRequest (OpenWrt.rpc_baseUrl c +++ OpenWrt.rpc_rpcPath c +++ "/" +++ "call")
            OpenWrt.json_headers
            (JObj [("id", JNum 1); ("method", JStr "call");
                   ("params",
                    JArr (OpenWrt.authToken c :: JStr "uci"
                          :: [OpenWrt.authToken c; JStr "uci"; JStr method;
                              JArr params]))])
            None) with rq.
  destruct (w_post W l rq) as [e | status text [body | e]].
  - eexists. split; reflexivity.
  - destruct (status_ok status); cbn [negb]; eexists; split; reflexivity.
  - destruct (status_ok status); cbn [negb]; eexists; split; reflexivity.
Qed.
